(** * phpfpm: a shallow embedding of [phpfpm/phpfpm.go]

    The package polls PHP-FPM pools over FastCGI and decodes their status
    page.  This development embeds the package's data types and functions
    ([PoolManager.Add], [PoolManager.Update], [Pool.Update], [Pool.error],
    [CalculateProcessScoreboard], [timestamp.MarshalJSON],
    [timestamp.UnmarshalJSON], [SetLogger]) together with models of the Go
    library functions they call ([strconv.Atoi], [fmt.Sprint] on an int64,
    [time.Unix], [Time.Unix], [url.Parse], [json.Unmarshal]), and proves
    properties of them. *)

From Stdlib Require Import ZArith String Ascii List Bool Lia.
From Stdlib Require Import Permutation.
From Stdlib Require Floats.SpecFloat.
From stdpp Require Import base option list strings.

Import ListNotations.
Local Open Scope string_scope.
Local Open Scope list_scope.
Local Open Scope Z_scope.

(** ** Machine integers

    Go's [int64] and [uint64] are modelled as [Z] with the wrap-around of
    the arithmetic written out. *)
Module Int64.

Definition modulus : Z := 2 ^ 64.
Definition max_int64 : Z := 2 ^ 63 - 1.
Definition min_int64 : Z := - 2 ^ 63.
Definition max_uint64 : Z := 2 ^ 64 - 1.

(** The value an int64 variable holds after a result [z] is stored in it. *)
Definition wrap (z : Z) : Z := (z + 2 ^ 63) mod modulus - 2 ^ 63.

(** The value a uint64 variable holds after a result [z] is stored in it. *)
Definition wrapu (z : Z) : Z := z mod modulus.

Definition in_range (z : Z) : Prop := min_int64 <= z <= max_int64.

End Int64.

(** ** strconv: decimal conversions *)
Module strconv.

Inductive NumErr := ErrSyntax | ErrRange.

(** [*strconv.NumError]: the function that failed, its input and the reason. *)
Record NumError := { Func : string; Num : string; Err : NumErr }.

Definition is_digit (c : ascii) : bool :=
  let n := Z.of_nat (nat_of_ascii c) in (48 <=? n) && (n <=? 57).

Definition digit_val (c : ascii) : Z := Z.of_nat (nat_of_ascii c) - 48.

Definition digit_char (d : Z) : ascii := ascii_of_nat (Z.to_nat (48 + d)).

(** The loop of [ParseUint] for base 10 and a 64-bit result: [n] is the
    value read so far.  It stops at the first byte that is no digit
    (syntax) or at the first overflow (range, with the value [maxVal]). *)
Definition cutoff : Z := Int64.max_uint64 / 10 + 1.

Fixpoint ParseUint_loop (s : string) (n : Z) : Z * option NumErr :=
  match s with
  | EmptyString => (n, None)
  | String c s' =>
      if negb (is_digit c) then (0, Some ErrSyntax)
      else if cutoff <=? n then (Int64.max_uint64, Some ErrRange)
      else
        let n10 := Int64.wrapu (n * 10) in
        let n1 := Int64.wrapu (n10 + digit_val c) in
        if (n1 <? n10) || (Int64.max_uint64 <? n1)
        then (Int64.max_uint64, Some ErrRange)
        else ParseUint_loop s' n1
  end.

(** [ParseUint(s, 10, 64)]: value and error kind. *)
Definition ParseUint (s : string) : Z * option NumErr :=
  match s with
  | EmptyString => (0, Some ErrSyntax)
  | _ => ParseUint_loop s 0
  end.

(** [ParseInt(s, 10, 64)]. *)
Definition ParseInt (s : string) : Z + NumError :=
  let fail e := inr {| Func := "ParseInt"; Num := s; Err := e |} in
  match s with
  | EmptyString => fail ErrSyntax
  | String c s' =>
      let neg := Ascii.eqb c "-"%char in
      let rest := if Ascii.eqb c "+"%char || neg then s' else s in
      let '(un, err) := ParseUint rest in
      match err with
      | Some ErrSyntax => fail ErrSyntax
      | _ =>
          let cut := 2 ^ 63 in
          if negb neg && (cut <=? un) then fail ErrRange
          else if neg && (cut <? un) then fail ErrRange
          else
            let n := Int64.wrap un in
            inl (if neg then Int64.wrap (- n) else n)
      end
  end.

(** [Atoi(s)] on a platform whose [int] has 64 bits: [ParseInt(s, 10, 0)]
    with the error's [Func] renamed.  (The fast path that [Atoi] takes on
    short inputs computes the same value and the same error.) *)
Definition Atoi (s : string) : Z + NumError :=
  match ParseInt s with
  | inl i => inl i
  | inr e => inr {| Func := "Atoi"; Num := Num e; Err := Err e |}
  end.

(** The decimal digits of [u >= 0], most significant first, as the loop of
    [formatBits] produces them; [fuel] bounds the number of digits. *)
Fixpoint digits (fuel : nat) (u : Z) : string :=
  match fuel with
  | O => EmptyString
  | S f =>
      if u <? 10 then String (digit_char u) EmptyString
      else digits f (u / 10) +:+ String (digit_char (u mod 10)) EmptyString
  end.

(** [FormatInt(i, 10)], which is also what [fmt.Sprint] prints for an
    int64: the sign, then the digits of the magnitude taken as a uint64. *)
Definition FormatInt (i : Z) : string :=
  if i <? 0 then String "-"%char (digits 20 (Int64.wrapu (- i)))
  else digits 20 (Int64.wrapu i).

End strconv.

(** ** time: the two conversions the package uses *)
Module time.

(** A [*time.Location] as far as [time.Unix] sets it. *)
Inductive Location := loc_nil | loc_Local.

(** [time.Time]: the wall word (uint64), the ext word (int64) and the
    location. *)
Record Time := { wall : Z; ext : Z; loc : Location }.

Definition zero : Time := {| wall := 0; ext := 0; loc := loc_nil |}.

Definition secondsPerDay : Z := 86400.
Definition unixToInternal : Z :=
  (1969 * 365 + 1969 / 4 - 1969 / 100 + 1969 / 400) * secondsPerDay.
Definition internalToUnix : Z := - unixToInternal.
Definition wallToInternal : Z :=
  (1884 * 365 + 1884 / 4 - 1884 / 100 + 1884 / 400) * secondsPerDay.
Definition nsecShift : Z := 30.

(** [time.Unix(sec, nsec)]: out-of-range nanoseconds are carried into the
    seconds first. *)
Definition Unix (sec nsec : Z) : Time :=
  let '(sec, nsec) :=
    if (nsec <? 0) || (1000000000 <=? nsec) then
      let n := Z.quot nsec 1000000000 in
      let sec := Int64.wrap (sec + n) in
      let nsec := Int64.wrap (nsec - n * 1000000000) in
      if nsec <? 0 then (Int64.wrap (sec - 1), Int64.wrap (nsec + 1000000000))
      else (sec, nsec)
    else (sec, nsec) in
  {| wall := Int64.wrapu nsec;
     ext := Int64.wrap (sec + unixToInternal);
     loc := loc_Local |}.

(** [t.sec()]: seconds since year 1; the wall word holds them when its
    hasMonotonic bit (bit 63) is set. *)
Definition sec (t : Time) : Z :=
  if Z.testbit (wall t) 63
  then Int64.wrap (wallToInternal + Z.shiftr (Int64.wrapu (Z.shiftl (wall t) 1)) (nsecShift + 1))
  else ext t.

(** [t.Unix()]. *)
Definition Time_Unix (t : Time) : Z := Int64.wrap (sec t + internalToUnix).

End time.

(** ** The timestamp codec of the package *)

(** [type timestamp time.Time] *)
Definition timestamp := time.Time.

(** [func (t *timestamp) MarshalJSON() ([]byte, error)]; the error is
    always nil. *)
Definition timestamp_MarshalJSON (t : timestamp) : string :=
  let ts := time.Time_Unix t in
  let stamp := strconv.FormatInt ts in
  stamp.

(** [func (t *timestamp) UnmarshalJSON(b []byte) error]: the new value of
    [*t], or the error of [strconv.Atoi] (and then [*t] is not written). *)
Definition timestamp_UnmarshalJSON (b : string) : timestamp + strconv.NumError :=
  match strconv.Atoi b with
  | inr err => inr err
  | inl ts => inl (time.Unix ts 0)
  end.


(** ** net/url: parsing an address

    A model of [url.Parse] and of the [URL] methods [Hostname] and [Port]
    as the Go library defines them.  Of the fields of [url.URL], the
    ones that only cache an encoding ([RawPath], [RawFragment],
    [OmitHost]) are left out. *)
Module url.

Inductive Err :=
| EscapeError (s : string)       (** "invalid URL escape ..." *)
| InvalidHostError (s : string)  (** "invalid character ... in host name" *)
| invalid_port (colonPort : string) (** "invalid port ... after host" *)
| errorString (msg : string).

(** [*url.Error] *)
Record Error := { Op : string; URL_ : string; Err_ : Err }.

Record Userinfo := { username : string; password : string; passwordSet : bool }.

Record URL := {
  Scheme : string;
  Opaque : string;
  User : option Userinfo;
  Host : string;
  Path : string;
  ForceQuery : bool;
  RawQuery : string;
  Fragment : string
}.

Definition empty : URL := {|
  Scheme := ""; Opaque := ""; User := None; Host := ""; Path := "";
  ForceQuery := false; RawQuery := ""; Fragment := "" |}.

Inductive encoding :=
| encodePath | encodePathSegment | encodeHost | encodeZone
| encodeUserPassword | encodeQueryComponent | encodeFragment.

Definition code (c : ascii) : Z := Z.of_nat (nat_of_ascii c).

Definition is_alpha (c : ascii) : bool :=
  ((97 <=? code c) && (code c <=? 122)) || ((65 <=? code c) && (code c <=? 90)).

Definition is_num (c : ascii) : bool := (48 <=? code c) && (code c <=? 57).

Definition among (c : ascii) (set : string) : bool :=
  existsb (Ascii.eqb c) (list_ascii_of_string set).

(** Slices of a string: [s[n:]] and [s[:n]]. *)
Definition from (n : nat) (s : string) : string :=
  substring n (String.length s - n) s.
Definition upto (n : nat) (s : string) : string := substring 0 n s.

Fixpoint IndexByte (c : ascii) (s : string) : option nat :=
  match s with
  | EmptyString => None
  | String d r =>
      if Ascii.eqb d c then Some O
      else match IndexByte c r with Some i => Some (S i) | None => None end
  end.

Fixpoint LastIndexByte (c : ascii) (s : string) : option nat :=
  match s with
  | EmptyString => None
  | String d r =>
      match LastIndexByte c r with
      | Some i => Some (S i)
      | None => if Ascii.eqb d c then Some O else None
      end
  end.

(** [strings.Cut(s, sep)] for a one-byte separator. *)
Definition Cut (s : string) (sep : ascii) : string * string * bool :=
  match IndexByte sep s with
  | Some i => (upto i s, from (S i) s, true)
  | None => (s, EmptyString, false)
  end.

Fixpoint Count (c : ascii) (s : string) : nat :=
  match s with
  | EmptyString => O
  | String d r => ((if Ascii.eqb d c then 1 else 0) + Count c r)%nat
  end.

Definition HasPrefix (s p : string) : bool := String.prefix p s.

Definition HasSuffix (s : string) (c : ascii) : bool :=
  match LastIndexByte c s with
  | Some i => (S i =? String.length s)%nat
  | None => false
  end.

Definition ToLower (s : string) : string :=
  string_of_list_ascii
    (map (fun c => if (65 <=? code c) && (code c <=? 90)
                   then ascii_of_nat (nat_of_ascii c + 32) else c)
         (list_ascii_of_string s)).

Definition stringContainsCTLByte (s : string) : bool :=
  existsb (fun c => (code c <? 32) || (code c =? 127)) (list_ascii_of_string s).

(** [getScheme]: the scheme before the first colon, and the rest. *)
Fixpoint getScheme_from (i : nat) (whole s : string) : (string * string) + Err :=
  match s with
  | EmptyString => inl (EmptyString, whole)
  | String c r =>
      if is_alpha c then getScheme_from (S i) whole r
      else if is_num c || among c "+-." then
        if (i =? 0)%nat then inl (EmptyString, whole)
        else getScheme_from (S i) whole r
      else if Ascii.eqb c ":"%char then
        if (i =? 0)%nat then inr (errorString "missing protocol scheme")
        else inl (upto i whole, r)
      else inl (EmptyString, whole)
  end.

Definition getScheme (rawURL : string) : (string * string) + Err :=
  getScheme_from 0 rawURL rawURL.

(** [shouldEscape] *)
Definition shouldEscape (c : ascii) (mode : encoding) : bool :=
  if is_alpha c || is_num c then false
  else if (match mode with encodeHost | encodeZone => true | _ => false end)
          && among c "!$&'()*+,;=:[]<>" then false
  else if (match mode with encodeHost | encodeZone => true | _ => false end)
          && Ascii.eqb c "034"%char then false
  else if among c "-_.~" then false
  else if among c "$&+,/:;=?@" then
    match mode with
    | encodePath => Ascii.eqb c "?"%char
    | encodePathSegment => among c "/;,?"
    | encodeUserPassword => among c "@/?:"
    | encodeQueryComponent => true
    | encodeFragment => false
    | _ => true
    end
  else if (match mode with encodeFragment => true | _ => false end)
          && among c "!()*" then false
  else true.

Definition unhex (c : ascii) : option Z :=
  if is_num c then Some (code c - 48)
  else if (97 <=? code c) && (code c <=? 102) then Some (code c - 87)
  else if (65 <=? code c) && (code c <=? 70) then Some (code c - 55)
  else None.

(** [unescape(s, mode)]: the text with its [%XX] escapes replaced, or the
    error of the first escape or byte the mode refuses. *)
Fixpoint unescape (fuel : nat) (s : string) (mode : encoding) : string + Err :=
  match fuel with
  | O => inl EmptyString
  | S f =>
      let emit (c : ascii) (rest : string) :=
        match unescape f rest mode with
        | inl t => inl (String c t)
        | inr e => inr e
        end in
      match s with
      | EmptyString => inl EmptyString
      | String c r =>
          if Ascii.eqb c "%"%char then
            match r with
            | String a (String b r') =>
                match unhex a, unhex b with
                | Some x, Some y =>
                    let esc := upto 3 s in
                    let v := ascii_of_nat (Z.to_nat (x * 16 + y)) in
                    if (match mode with encodeHost => true | _ => false end)
                       && (x <? 8) && negb (String.eqb esc "%25")
                    then inr (EscapeError esc)
                    else if (match mode with encodeZone => true | _ => false end)
                            && negb (String.eqb esc "%25")
                            && negb (Ascii.eqb v " "%char)
                            && shouldEscape v encodeHost
                    then inr (EscapeError esc)
                    else emit v r'
                | _, _ => inr (EscapeError (upto 3 s))
                end
            | _ => inr (EscapeError (upto 3 s))
            end
          else if Ascii.eqb c "+"%char then
            emit (match mode with encodeQueryComponent => " "%char | _ => c end) r
          else if (match mode with encodeHost | encodeZone => true | _ => false end)
                  && (code c <? 128) && shouldEscape c encodeHost
          then inr (InvalidHostError (String c EmptyString))
          else emit c r
      end
  end.

Definition Unescape (s : string) (mode : encoding) : string + Err :=
  unescape (String.length s) s mode.

(** [validOptionalPort]: empty, or a colon and digits. *)
Definition validOptionalPort (port : string) : bool :=
  match port with
  | EmptyString => true
  | String c r =>
      Ascii.eqb c ":"%char && forallb is_num (list_ascii_of_string r)
  end.

Definition validUserinfo (s : string) : bool :=
  forallb (fun c => is_alpha c || is_num c || among c "-._:~!$&'()*+,;=%@")
          (list_ascii_of_string s).

(** [parseHost] *)
Definition parseHost (host : string) : string + Err :=
  let plain := Unescape host encodeHost in
  if HasPrefix host "[" then
    match LastIndexByte "]"%char host with
    | None => inr (errorString "missing ']' in host")
    | Some i =>
        let colonPort := from (S i) host in
        if negb (validOptionalPort colonPort) then inr (invalid_port colonPort)
        else
          match String.index 0 "%25" (upto i host) with
          | Some zone =>
              match Unescape (upto zone host) encodeHost with
              | inr e => inr e
              | inl host1 =>
                  match Unescape (substring zone (i - zone) host) encodeZone with
                  | inr e => inr e
                  | inl host2 =>
                      match Unescape (from i host) encodeHost with
                      | inr e => inr e
                      | inl host3 => inl (host1 +:+ host2 +:+ host3)
                      end
                  end
              end
          | None => plain
          end
    end
  else
    match LastIndexByte ":"%char host with
    | Some i =>
        let colonPort := from i host in
        if negb (validOptionalPort colonPort) then inr (invalid_port colonPort)
        else plain
    | None => plain
    end.

(** [parseAuthority]: the user information before the last [@], if any,
    and the host. *)
Definition parseAuthority (authority : string) : (option Userinfo * string) + Err :=
  let at_ := LastIndexByte "@"%char authority in
  match parseHost (match at_ with Some i => from (S i) authority | None => authority end) with
  | inr e => inr e
  | inl host =>
      match at_ with
      | None => inl (None, host)
      | Some i =>
          let userinfo := upto i authority in
          if negb (validUserinfo userinfo) then
            inr (errorString "net/url: invalid userinfo")
          else
            let '(name, pass, has) := Cut userinfo ":"%char in
            match Unescape name encodeUserPassword with
            | inr e => inr e
            | inl name' =>
                if has then
                  match Unescape pass encodeUserPassword with
                  | inr e => inr e
                  | inl pass' =>
                      inl (Some {| username := name'; password := pass';
                                   passwordSet := true |}, host)
                  end
                else
                  inl (Some {| username := name'; password := "";
                               passwordSet := false |}, host)
            end
      end
  end.

(** The query part of [parse]: a lone final [?] forces an empty query,
    else the text is cut at the first [?]. *)
Definition split_query (rest : string) : string * bool * string :=
  if HasSuffix rest "?"%char && (Count "?"%char rest =? 1)%nat
  then (upto (String.length rest - 1) rest, true, EmptyString)
  else let '(a, b, _) := Cut rest "?"%char in (a, false, b).

(** The authority part of [parse]: after [//] the text up to the next
    slash is the authority; what remains is the path. *)
Definition split_authority (scheme rest : string)
  : (option Userinfo * string * string) + Err :=
  if (negb (String.eqb scheme "") || negb (HasPrefix rest "///"))
     && HasPrefix rest "//"
  then
    let authority := from 2 rest in
    let '(authority, rest) :=
      match IndexByte "/"%char authority with
      | Some i => (upto i authority, from i authority)
      | None => (authority, EmptyString)
      end in
    match parseAuthority authority with
    | inr e => inr e
    | inl (user, host) => inl (user, host, rest)
    end
  else inl (None, EmptyString, rest).

(** [parse(rawURL, false)]: a URL without fragment. *)
Definition parse (rawURL : string) : URL + Err :=
  if stringContainsCTLByte rawURL then
    inr (errorString "net/url: invalid control character in URL")
  else if String.eqb rawURL "*" then
    inl {| Scheme := ""; Opaque := ""; User := None; Host := ""; Path := "*";
           ForceQuery := false; RawQuery := ""; Fragment := "" |}
  else
    match getScheme rawURL with
    | inr e => inr e
    | inl (scheme, rest) =>
        let scheme := ToLower scheme in
        let '(rest, force, query) := split_query rest in
        let rootless := negb (HasPrefix rest "/") in
        if rootless && negb (String.eqb scheme "") then
          inl {| Scheme := scheme; Opaque := rest; User := None; Host := "";
                 Path := ""; ForceQuery := force; RawQuery := query;
                 Fragment := "" |}
        else if rootless
                && (let '(segment, _, _) := Cut rest "/"%char in
                    match IndexByte ":"%char segment with
                    | Some _ => true
                    | None => false
                    end)
        then inr (errorString "first path segment in URL cannot contain colon")
        else
          match split_authority scheme rest with
          | inr e => inr e
          | inl (user, host, rest) =>
              match Unescape rest encodePath with
              | inr e => inr e
              | inl path =>
                  inl {| Scheme := scheme; Opaque := ""; User := user;
                         Host := host; Path := path; ForceQuery := force;
                         RawQuery := query; Fragment := "" |}
              end
          end
    end.

(** [url.Parse(rawURL)] *)
Definition Parse (rawURL : string) : URL + Error :=
  let '(u, frag, _) := Cut rawURL "#"%char in
  match parse u with
  | inr e => inr {| Op := "parse"; URL_ := u; Err_ := e |}
  | inl url =>
      if String.eqb frag "" then inl url
      else
        match Unescape frag encodeFragment with
        | inr e => inr {| Op := "parse"; URL_ := rawURL; Err_ := e |}
        | inl f =>
            inl {| Scheme := Scheme url; Opaque := Opaque url; User := User url;
                   Host := Host url; Path := Path url;
                   ForceQuery := ForceQuery url; RawQuery := RawQuery url;
                   Fragment := f |}
        end
  end.

(** [splitHostPort]: a port is split off when what follows the last colon
    is a valid port; square brackets around the host are removed. *)
Definition splitHostPort (hostPort : string) : string * string :=
  let '(host, port) :=
    match LastIndexByte ":"%char hostPort with
    | Some colon =>
        if validOptionalPort (from colon hostPort)
        then (upto colon hostPort, from (S colon) hostPort)
        else (hostPort, EmptyString)
    | None => (hostPort, EmptyString)
    end in
  let host :=
    if HasPrefix host "[" && HasSuffix host "]"%char
    then substring 1 (String.length host - 2) host
    else host in
  (host, port).

(** [u.Hostname()] and [u.Port()] *)
Definition Hostname (u : URL) : string := fst (splitHostPort (Host u)).
Definition Port (u : URL) : string := snd (splitHostPort (Host u)).

End url.

(** ** Errors

    A Go [error] value, for the error types that reach the package. *)
Inductive error :=
| url_Error (e : url.Error)
    (** [*url.Error] of [url.Parse] *)
| strconv_NumError (e : strconv.NumError)
    (** [*strconv.NumError], from [timestamp.UnmarshalJSON] *)
| json_SyntaxError
    (** [*json.SyntaxError]; its message and offset are not modelled *)
| json_UnmarshalTypeError (Value Type_ : string)
    (** [*json.UnmarshalTypeError]: the JSON value met and the Go type it
        was to be stored in *)
| errorString (msg : string).
    (** any other error, by its text: what the FastCGI client and the
        network report *)

(** ** Data model *)

(** [float64]: an IEEE-754 binary64 value. *)
Definition float64 := SpecFloat.spec_float.
Definition float64_zero : float64 := SpecFloat.S754_zero false.

(** [PoolProcessRequestIdle] and [PoolProcessRequestActive] *)
Definition PoolProcessRequestIdle : string := "Idle".
Definition PoolProcessRequestActive : string := "Running".

(** [type PoolProcess struct] *)
Module Proc.
Record PoolProcess := {
  PID : Z;
  State : string;
  StartTime : Z;
  StartSince : Z;
  Requests : Z;
  RequestDuration : Z;
  RequestMethod : string;
  RequestURI : string;
  ContentLength : Z;
  User : string;
  Script : string;
  LastRequestCPU : float64;
  LastRequestMemory : Z
}.

(** The zero value of the struct. *)
Definition zero : PoolProcess := {|
  PID := 0; State := ""; StartTime := 0; StartSince := 0; Requests := 0;
  RequestDuration := 0; RequestMethod := ""; RequestURI := "";
  ContentLength := 0; User := ""; Script := "";
  LastRequestCPU := float64_zero; LastRequestMemory := 0 |}.
End Proc.
Abbreviation PoolProcess := Proc.PoolProcess.

(** *** Slices of processes

    A Go slice is a header (array pointer, length) over a backing array
    that other headers may share.  The backing arrays of [[]PoolProcess]
    slices live in a heap, addressed by their index in it; the capacity
    of a slice is the length of its array (every slice of the package
    starts at the first cell of its array). *)
Record slice := { arr : option nat; len : nat }.

Definition nil_slice : slice := {| arr := None; len := 0 |}.

Definition heap := list (list PoolProcess).

Definition backing (h : heap) (s : slice) : list PoolProcess :=
  match arr s with
  | Some a => default [] (h !! a)
  | None => []
  end.

Definition cap (h : heap) (s : slice) : nat := length (backing h s).

(** The elements of the slice: what [len], indexing and [range] see. *)
Definition elems (h : heap) (s : slice) : list PoolProcess :=
  take (len s) (backing h s).

(** [type Pool struct] *)
Record Pool := {
  Address : string;
  ScrapeError : option error;
  ScrapeFailures : Z;
  Name : string;
  ProcessManager : string;
  StartTime : timestamp;
  StartSince : Z;
  AcceptedConnections : Z;
  ListenQueue : Z;
  MaxListenQueue : Z;
  ListenQueueLength : Z;
  IdleProcesses : Z;
  ActiveProcesses : Z;
  TotalProcesses : Z;
  MaxActiveProcesses : Z;
  MaxChildrenReached : Z;
  SlowRequests : Z;
  Processes : slice
}.

(** [Pool{Address: uri}]: every other field at its zero value. *)
Definition Pool_with_Address (uri : string) : Pool := {|
  Address := uri; ScrapeError := None; ScrapeFailures := 0;
  Name := ""; ProcessManager := ""; StartTime := time.zero; StartSince := 0;
  AcceptedConnections := 0; ListenQueue := 0; MaxListenQueue := 0;
  ListenQueueLength := 0; IdleProcesses := 0; ActiveProcesses := 0;
  TotalProcesses := 0; MaxActiveProcesses := 0; MaxChildrenReached := 0;
  SlowRequests := 0; Processes := nil_slice |}.

(** [type PoolManager struct]: the elements of [Pools], in order.  The
    [PoolManager] is only reached through its pointer, so no second slice
    header over the array of [Pools] exists and its capacity is not
    modelled. *)
Record PoolManager := { Pools : list Pool }.

(** *** The snapshot of a pool

    The fields a scrape decodes from the status page, that is, all but
    [Address], [ScrapeError] and [ScrapeFailures] (tagged [json:"-"]);
    the process list is read through the heap. *)
Record Snapshot := {
  snap_Name : string;
  snap_ProcessManager : string;
  snap_StartTime : timestamp;
  snap_StartSince : Z;
  snap_AcceptedConnections : Z;
  snap_ListenQueue : Z;
  snap_MaxListenQueue : Z;
  snap_ListenQueueLength : Z;
  snap_IdleProcesses : Z;
  snap_ActiveProcesses : Z;
  snap_TotalProcesses : Z;
  snap_MaxActiveProcesses : Z;
  snap_MaxChildrenReached : Z;
  snap_SlowRequests : Z;
  snap_Processes : list PoolProcess
}.

Definition snapshot (h : heap) (p : Pool) : Snapshot := {|
  snap_Name := Name p;
  snap_ProcessManager := ProcessManager p;
  snap_StartTime := StartTime p;
  snap_StartSince := StartSince p;
  snap_AcceptedConnections := AcceptedConnections p;
  snap_ListenQueue := ListenQueue p;
  snap_MaxListenQueue := MaxListenQueue p;
  snap_ListenQueueLength := ListenQueueLength p;
  snap_IdleProcesses := IdleProcesses p;
  snap_ActiveProcesses := ActiveProcesses p;
  snap_TotalProcesses := TotalProcesses p;
  snap_MaxActiveProcesses := MaxActiveProcesses p;
  snap_MaxChildrenReached := MaxChildrenReached p;
  snap_SlowRequests := SlowRequests p;
  snap_Processes := elems h (Processes p) |}.

(** ** The logger and the run-time state *)

(** An argument passed as [interface{}] to a logger method. *)
Inductive value :=
| VString (s : string)
| VInt (n : Z)
| VError (e : error)
| VDuration (d : Z).

(** One call of a method of the [logger] interface, with its arguments. *)
Inductive LogCall :=
| log_Info (ar : list value)
| log_Infof (format : string) (ar : list value)
| log_Debug (ar : list value)
| log_Debugf (format : string) (ar : list value)
| log_Error (ar : list value)
| log_Errorf (format : string) (ar : list value).

(** A call on the FastCGI client library. *)
Inductive Event :=
| ev_DialTimeout (network address : string) (timeout : Z)
| ev_Get (env : list (string * string))
| ev_ReadAll
| ev_Body_Close
| ev_Close.

(** The state a function of the package runs in: the heap of backing
    arrays, the package variable [log] ([None] while it is the nil
    interface, else the calls the installed logger has received, oldest
    first) and the calls made on the FastCGI client, oldest first. *)
Record State := {
  st_heap : heap;
  log : option (list LogCall);
  trace : list Event
}.

(** A computation: from a state to a result and a state, or [None] when
    the run panics (a method is called on the nil logger). *)
Definition M (A : Type) : Type := State -> option (A * State).

Definition ret {A} (a : A) : M A := fun st => Some (a, st).

Definition bind {A B} (m : M A) (k : A -> M B) : M B :=
  fun st => match m st with
            | Some (a, st') => k a st'
            | None => None
            end.

Notation "'let*' x ':=' m 'in' k" := (bind m (fun x => k))
  (at level 10, x name, m at level 200, k at level 200, only parsing).
Notation "'let*' ' pat ':=' m 'in' k" := (bind m (fun x => let 'pat := x in k))
  (at level 10, pat pattern, m at level 200, k at level 200, only parsing).
Notation "m1 ';;' m2" := (bind m1 (fun _ => m2))
  (at level 100, m2 at level 200, right associativity, only parsing).

Definition get_heap : M heap := fun st => Some (st_heap st, st).

Definition put_heap (h : heap) : M unit :=
  fun st => Some (tt, {| st_heap := h; log := log st; trace := trace st |}).

(** A call of a method on [log]. *)
Definition log_call (c : LogCall) : M unit :=
  fun st => match log st with
            | None => None
            | Some calls =>
                Some (tt, {| st_heap := st_heap st; log := Some (calls ++ [c]);
                             trace := trace st |})
            end.

Definition emit (e : Event) : M unit :=
  fun st => Some (tt, {| st_heap := st_heap st; log := log st;
                         trace := trace st ++ [e] |}).

(** [defer d] around the rest [m] of a function body: [d] runs when the
    body returns. *)
Definition defer {A} (d : M unit) (m : M A) : M A :=
  let* r := m in d ;; ret r.

(** [func SetLogger(logger logger)]: [None] is the nil interface, [Some
    calls] a logger that has received [calls]. *)
Definition SetLogger (logger : option (list LogCall)) : M unit :=
  fun st => Some (tt, {| st_heap := st_heap st; log := logger; trace := trace st |}).

(** ** The scoreboard *)

(** The loop of [CalculateProcessScoreboard] over the elements of
    [p.Processes]. *)
Fixpoint scoreboard_loop (ps : list PoolProcess) (active idle : Z) : M (Z * Z) :=
  match ps with
  | [] => ret (active, idle)
  | pr :: ps' =>
      if String.eqb (Proc.State pr) PoolProcessRequestActive then
        scoreboard_loop ps' (Int64.wrap (active + 1)) idle
      else if String.eqb (Proc.State pr) PoolProcessRequestIdle then
        scoreboard_loop ps' active (Int64.wrap (idle + 1))
      else
        log_call (log_Errorf "Unknown process state '%v'" [VString (Proc.State pr)]) ;;
        scoreboard_loop ps' active idle
  end.

(** [func CalculateProcessScoreboard(p Pool) (active int64, idle int64, total int64)] *)
Definition CalculateProcessScoreboard (p : Pool) : M (Z * Z * Z) :=
  let* h := get_heap in
  let* '(active, idle) := scoreboard_loop (elems h (Processes p)) 0 0 in
  ret (active, idle, Int64.wrap (active + idle)).

(** ** Vocabulary of the scoreboard properties *)

Definition state_is (s : string) (pr : PoolProcess) : bool :=
  String.eqb (Proc.State pr) s.

(** The number of processes of a list whose state is exactly [s]. *)
Definition count_state (s : string) (ps : list PoolProcess) : Z :=
  Z.of_nat (length (List.filter (state_is s) ps)).

(** A process that is neither ["Running"] nor ["Idle"]. *)
Definition unknown_state (pr : PoolProcess) : bool :=
  negb (state_is "Running" pr) && negb (state_is "Idle" pr).

(** The diagnostic [CalculateProcessScoreboard] emits for such a process. *)
Definition anomaly (pr : PoolProcess) : LogCall :=
  log_Errorf "Unknown process state '%v'" [VString (Proc.State pr)].

Definition anomalies (ps : list PoolProcess) : list LogCall :=
  map anomaly (List.filter unknown_state ps).

Definition with_log (st : State) (calls : list LogCall) : State :=
  {| st_heap := st_heap st; log := Some calls; trace := trace st |}.


(** A process that is at its zero value but for its pid and state. *)
Definition process_in_state (pid : Z) (s : string) : PoolProcess := {|
  Proc.PID := pid; Proc.State := s; Proc.StartTime := 0; Proc.StartSince := 0;
  Proc.Requests := 0; Proc.RequestDuration := 0; Proc.RequestMethod := "";
  Proc.RequestURI := ""; Proc.ContentLength := 0; Proc.User := "";
  Proc.Script := ""; Proc.LastRequestCPU := float64_zero;
  Proc.LastRequestMemory := 0 |}.

(** A state with a logger installed that has received nothing yet, and one
    backing array of three processes, of which the third is in an
    unknown state; a pool whose process list is that array. *)
Definition three_processes : list PoolProcess :=
  [process_in_state 1 "Idle"; process_in_state 2 "Running";
   process_in_state 3 "Zombie"].

Definition state_of_three : State :=
  {| st_heap := [three_processes]; log := Some []; trace := [] |}.

Definition pool_of_three : Pool := {|
  Address := "tcp://127.0.0.1:9000"; ScrapeError := None; ScrapeFailures := 0;
  Name := "www"; ProcessManager := ""; StartTime := time.Unix 1000000000 0;
  StartSince := 0; AcceptedConnections := 0; ListenQueue := 0;
  MaxListenQueue := 0; ListenQueueLength := 0; IdleProcesses := 0;
  ActiveProcesses := 0; TotalProcesses := 0; MaxActiveProcesses := 0;
  MaxChildrenReached := 0; SlowRequests := 0;
  Processes := {| arr := Some 0%nat; len := 3 |} |}.

(** ** encoding/json: the values of a JSON text

    [json.Unmarshal] first checks that the whole input is one well-formed
    JSON value, then stores it.  The model reads the input into a tree
    first; an object keeps, for each member, the text of its value as it
    stands in the input (a field with its own [UnmarshalJSON] is handed
    that text). *)
Inductive json :=
| JNull
| JBool (b : bool)
| JNumber (lit : string)
| JString (s : string)
| JArray (elements : list json)
| JObject (members : list (string * string * json)).

Definition byte (c : ascii) : Z := Z.of_nat (nat_of_ascii c).
Definition chr (z : Z) : ascii := ascii_of_nat (Z.to_nat z).

(** The double quote, and a text in which every single quote stands for a
    double quote (to write JSON texts down). *)
Definition dquote : ascii := "034"%char.

Fixpoint json_text (s : string) : string :=
  match s with
  | EmptyString => EmptyString
  | String c r =>
      String (if Ascii.eqb c "'"%char then dquote else c) (json_text r)
  end.

Definition is_space (c : ascii) : bool :=
  let b := byte c in (b =? 32) || (b =? 9) || (b =? 10) || (b =? 13).

Fixpoint skip_ws (s : string) : string :=
  match s with
  | String c r => if is_space c then skip_ws r else s
  | EmptyString => s
  end.

(** The longest prefix of decimal digits, and the rest. *)
Fixpoint span_digits (s : string) : string * string :=
  match s with
  | String c r =>
      if strconv.is_digit c
      then let '(d, rest) := span_digits r in (String c d, rest)
      else (EmptyString, s)
  | EmptyString => (EmptyString, s)
  end.

(** A JSON number at the head of [s]: its text and the rest. *)
Definition scan_number (s : string) : option (string * string) :=
  let '(sign, s1) :=
    match s with
    | String "-"%char r => ("-", r)
    | _ => ("", s)
    end in
  (* a leading zero is the whole integer part *)
  let '(int, s2) :=
    match s1 with
    | String "0"%char r => ("0", r)
    | _ => span_digits s1
    end in
  if negb (match int with EmptyString => false | _ => true end) then None else
  let frac :=
    match s2 with
    | String "."%char r =>
        let '(d, r') := span_digits r in
        match d with
        | EmptyString => None
        | _ => Some ("." +:+ d, r')
        end
    | _ => Some ("", s2)
    end in
  match frac with
  | None => None
  | Some (f, s3) =>
      let exp :=
        match s3 with
        | String e r =>
            if Ascii.eqb e "e"%char || Ascii.eqb e "E"%char then
              let '(sg, r1) :=
                match r with
                | String "+"%char r1 => ("+", r1)
                | String "-"%char r1 => ("-", r1)
                | _ => ("", r)
                end in
              let '(d, r2) := span_digits r1 in
              match d with
              | EmptyString => None
              | _ => Some (String e sg +:+ d, r2)
              end
            else Some ("", s3)
        | EmptyString => Some ("", s3)
        end in
      match exp with
      | None => None
      | Some (x, s4) => Some (sign +:+ int +:+ f +:+ x, s4)
      end
  end.

(** *** Strings: escapes and UTF-8 *)

Definition hexval (c : ascii) : option Z :=
  let b := byte c in
  if (48 <=? b) && (b <=? 57) then Some (b - 48)
  else if (97 <=? b) && (b <=? 102) then Some (b - 87)
  else if (65 <=? b) && (b <=? 70) then Some (b - 55)
  else None.

(** [getu4]: the code unit of a [\uXXXX] escape at the head of [s]. *)
Definition getu4 (s : string) : option (Z * string) :=
  match s with
  | String "\"%char (String "u"%char (String a (String b (String c (String d r))))) =>
      match hexval a, hexval b, hexval c, hexval d with
      | Some x1, Some x2, Some x3, Some x4 =>
          Some (x1 * 4096 + x2 * 256 + x3 * 16 + x4, r)
      | _, _, _, _ => None
      end
  | _ => None
  end.

Definition RuneError : Z := 65533.

(** [utf8.EncodeRune] *)
Definition EncodeRune (r : Z) : string :=
  let r := if (r <? 0) || (1114111 <? r) || ((55296 <=? r) && (r <=? 57343))
           then RuneError else r in
  if r <=? 127 then String (chr r) EmptyString
  else if r <=? 2047 then
    String (chr (192 + r / 64)) (String (chr (128 + r mod 64)) EmptyString)
  else if r <=? 65535 then
    String (chr (224 + r / 4096))
      (String (chr (128 + (r / 64) mod 64))
         (String (chr (128 + r mod 64)) EmptyString))
  else
    String (chr (240 + r / 262144))
      (String (chr (128 + (r / 4096) mod 64))
         (String (chr (128 + (r / 64) mod 64))
            (String (chr (128 + r mod 64)) EmptyString))).

(** [utf8.DecodeRune] on a non-empty input: the rune and the bytes it
    takes; [(RuneError, 1)] where no well-formed sequence starts. *)
Definition DecodeRune (s : string) : Z * string :=
  let cont (lo hi : Z) (c : ascii) := (lo <=? byte c) && (byte c <=? hi) in
  match s with
  | EmptyString => (RuneError, s)
  | String c0 r =>
      let p0 := byte c0 in
      let bad := (RuneError, r) in
      if p0 <? 128 then (p0, r)
      else
        let '(sz, lo, hi) :=
          if (194 <=? p0) && (p0 <=? 223) then (2, 128, 191)
          else if p0 =? 224 then (3, 160, 191)
          else if p0 =? 237 then (3, 128, 159)
          else if (225 <=? p0) && (p0 <=? 239) then (3, 128, 191)
          else if p0 =? 240 then (4, 144, 191)
          else if (241 <=? p0) && (p0 <=? 243) then (4, 128, 191)
          else if p0 =? 244 then (4, 128, 143)
          else (0, 0, 0) in
        if sz =? 0 then bad else
        match r with
        | String c1 r1 =>
            if negb (cont lo hi c1) then bad
            else if sz =? 2 then ((p0 mod 32) * 64 + byte c1 mod 64, r1)
            else
              match r1 with
              | String c2 r2 =>
                  if negb (cont 128 191 c2) then bad
                  else if sz =? 3 then
                    ((p0 mod 16) * 4096 + (byte c1 mod 64) * 64 + byte c2 mod 64, r2)
                  else
                    match r2 with
                    | String c3 r3 =>
                        if negb (cont 128 191 c3) then bad
                        else ((p0 mod 8) * 262144 + (byte c1 mod 64) * 4096
                              + (byte c2 mod 64) * 64 + byte c3 mod 64, r3)
                    | EmptyString => bad
                    end
              | EmptyString => bad
              end
        | EmptyString => bad
        end
  end.

(** The body of a string literal, after its opening quote: the string it
    denotes and the input after its closing quote.  Escapes are replaced,
    a surrogate pair of [\u] escapes gives one rune, a lone surrogate and
    each byte that starts no well-formed UTF-8 sequence give U+FFFD; a
    control character or an unknown escape is a syntax error. *)
Fixpoint scan_string (fuel : nat) (s : string) : option (string * string) :=
  match fuel with
  | O => None
  | S f =>
      let emit (t : string) (rest : string) :=
        match scan_string f rest with
        | Some (u, r) => Some (t +:+ u, r)
        | None => None
        end in
      match s with
      | EmptyString => None
      | String c r =>
          if Ascii.eqb c dquote then Some (EmptyString, r)
          else if Ascii.eqb c "\"%char then
            match r with
            | EmptyString => None
            | String e r' =>
                let one (b : Z) := emit (String (chr b) EmptyString) r' in
                if Ascii.eqb e dquote then one 34
                else if Ascii.eqb e "\"%char then one 92
                else if Ascii.eqb e "/"%char then one 47
                else if Ascii.eqb e "b"%char then one 8
                else if Ascii.eqb e "f"%char then one 12
                else if Ascii.eqb e "n"%char then one 10
                else if Ascii.eqb e "r"%char then one 13
                else if Ascii.eqb e "t"%char then one 9
                else if Ascii.eqb e "u"%char then
                  match getu4 s with
                  | None => None
                  | Some (rr, r1) =>
                      if (55296 <=? rr) && (rr <? 57344) then
                        match getu4 r1 with
                        | Some (rr1, r2) =>
                            if (rr <? 56320) && (56320 <=? rr1) && (rr1 <? 57344)
                            then emit (EncodeRune ((rr - 55296) * 1024 + (rr1 - 56320) + 65536)) r2
                            else emit (EncodeRune RuneError) r1
                        | None => emit (EncodeRune RuneError) r1
                        end
                      else emit (EncodeRune rr) r1
                  end
                else None
            end
          else if byte c <? 32 then None
          else if byte c <? 128 then emit (String c EmptyString) r
          else let '(rr, rest) := DecodeRune s in emit (EncodeRune rr) rest
      end
  end.

(** *** Values *)

(** The text that was read between the input [s] and what is left of it,
    [rest]. *)
Definition consumed (s rest : string) : string :=
  substring 0 (String.length s - String.length rest) s.

(** The elements of an array after the first one was found to exist:
    values separated by commas, up to the closing bracket. *)
Fixpoint scan_elements (value : string -> option (json * string))
    (fuel : nat) (s : string) : option (list json * string) :=
  match fuel with
  | O => None
  | S f =>
      match value (skip_ws s) with
      | None => None
      | Some (v, r) =>
          match skip_ws r with
          | String c r' =>
              if Ascii.eqb c ","%char then
                match scan_elements value f r' with
                | Some (vs, r'') => Some (v :: vs, r'')
                | None => None
                end
              else if Ascii.eqb c "]"%char then Some ([v], r')
              else None
          | EmptyString => None
          end
      end
  end.

(** The members of an object, likewise: ["key" : value] pairs. *)
Fixpoint scan_members (value : string -> option (json * string))
    (fuel : nat) (s : string) : option (list (string * string * json) * string) :=
  match fuel with
  | O => None
  | S f =>
      match skip_ws s with
      | String q r =>
          if negb (Ascii.eqb q dquote) then None else
          match scan_string (String.length r) r with
          | None => None
          | Some (key, r1) =>
              match skip_ws r1 with
              | String colon r2 =>
                  if negb (Ascii.eqb colon ":"%char) then None else
                  let start := skip_ws r2 in
                  match value start with
                  | None => None
                  | Some (v, r3) =>
                      let m := (key, consumed start r3, v) in
                      match skip_ws r3 with
                      | String c r4 =>
                          if Ascii.eqb c ","%char then
                            match scan_members value f r4 with
                            | Some (ms, r5) => Some (m :: ms, r5)
                            | None => None
                            end
                          else if Ascii.eqb c "}"%char then Some ([m], r4)
                          else None
                      | EmptyString => None
                      end
                  end
              | EmptyString => None
              end
          end
      | EmptyString => None
      end
  end.

(** One value at the head of [s] (which does not start with white space);
    [fuel] bounds the depth of nesting. *)
Fixpoint scan_value (fuel : nat) (s : string) : option (json * string) :=
  match fuel with
  | O => None
  | S f =>
      match s with
      | EmptyString => None
      | String c r =>
          if Ascii.eqb c "{"%char then
            match skip_ws r with
            | String "}"%char r' => Some (JObject [], r')
            | _ =>
                match scan_members (scan_value f) (String.length r) r with
                | Some (ms, r') => Some (JObject ms, r')
                | None => None
                end
            end
          else if Ascii.eqb c "["%char then
            match skip_ws r with
            | String "]"%char r' => Some (JArray [], r')
            | _ =>
                match scan_elements (scan_value f) (String.length r) r with
                | Some (vs, r') => Some (JArray vs, r')
                | None => None
                end
            end
          else if Ascii.eqb c dquote then
            match scan_string (String.length r) r with
            | Some (t, r') => Some (JString t, r')
            | None => None
            end
          else if String.prefix "true" s then Some (JBool true, substring 4 (String.length s - 4) s)
          else if String.prefix "false" s then Some (JBool false, substring 5 (String.length s - 5) s)
          else if String.prefix "null" s then Some (JNull, substring 4 (String.length s - 4) s)
          else
            match scan_number s with
            | Some (lit, r') => Some (JNumber lit, r')
            | None => None
            end
      end
  end.

(** The value of a whole JSON text; [None] when it is not well formed. *)
Definition json_parse (data : string) : option json :=
  match scan_value (S (String.length data)) (skip_ws data) with
  | Some (v, r) =>
      match skip_ws r with
      | EmptyString => Some v
      | _ => None
      end
  | None => None
  end.

(** ** Field updates

    [set_F x p] is [p] after the assignment [p.F = x]. *)

Module SetProc.
Definition PID x (p : PoolProcess) : PoolProcess :=
  {|
    Proc.PID := x; Proc.State := Proc.State p;
    Proc.StartTime := Proc.StartTime p; Proc.StartSince := Proc.StartSince p;
    Proc.Requests := Proc.Requests p;
    Proc.RequestDuration := Proc.RequestDuration p;
    Proc.RequestMethod := Proc.RequestMethod p;
    Proc.RequestURI := Proc.RequestURI p;
    Proc.ContentLength := Proc.ContentLength p; Proc.User := Proc.User p;
    Proc.Script := Proc.Script p;
    Proc.LastRequestCPU := Proc.LastRequestCPU p;
    Proc.LastRequestMemory := Proc.LastRequestMemory p |}.
Definition State x (p : PoolProcess) : PoolProcess :=
  {|
    Proc.PID := Proc.PID p; Proc.State := x;
    Proc.StartTime := Proc.StartTime p; Proc.StartSince := Proc.StartSince p;
    Proc.Requests := Proc.Requests p;
    Proc.RequestDuration := Proc.RequestDuration p;
    Proc.RequestMethod := Proc.RequestMethod p;
    Proc.RequestURI := Proc.RequestURI p;
    Proc.ContentLength := Proc.ContentLength p; Proc.User := Proc.User p;
    Proc.Script := Proc.Script p;
    Proc.LastRequestCPU := Proc.LastRequestCPU p;
    Proc.LastRequestMemory := Proc.LastRequestMemory p |}.
Definition StartTime x (p : PoolProcess) : PoolProcess :=
  {|
    Proc.PID := Proc.PID p; Proc.State := Proc.State p; Proc.StartTime := x;
    Proc.StartSince := Proc.StartSince p; Proc.Requests := Proc.Requests p;
    Proc.RequestDuration := Proc.RequestDuration p;
    Proc.RequestMethod := Proc.RequestMethod p;
    Proc.RequestURI := Proc.RequestURI p;
    Proc.ContentLength := Proc.ContentLength p; Proc.User := Proc.User p;
    Proc.Script := Proc.Script p;
    Proc.LastRequestCPU := Proc.LastRequestCPU p;
    Proc.LastRequestMemory := Proc.LastRequestMemory p |}.
Definition StartSince x (p : PoolProcess) : PoolProcess :=
  {|
    Proc.PID := Proc.PID p; Proc.State := Proc.State p;
    Proc.StartTime := Proc.StartTime p; Proc.StartSince := x;
    Proc.Requests := Proc.Requests p;
    Proc.RequestDuration := Proc.RequestDuration p;
    Proc.RequestMethod := Proc.RequestMethod p;
    Proc.RequestURI := Proc.RequestURI p;
    Proc.ContentLength := Proc.ContentLength p; Proc.User := Proc.User p;
    Proc.Script := Proc.Script p;
    Proc.LastRequestCPU := Proc.LastRequestCPU p;
    Proc.LastRequestMemory := Proc.LastRequestMemory p |}.
Definition Requests x (p : PoolProcess) : PoolProcess :=
  {|
    Proc.PID := Proc.PID p; Proc.State := Proc.State p;
    Proc.StartTime := Proc.StartTime p; Proc.StartSince := Proc.StartSince p;
    Proc.Requests := x; Proc.RequestDuration := Proc.RequestDuration p;
    Proc.RequestMethod := Proc.RequestMethod p;
    Proc.RequestURI := Proc.RequestURI p;
    Proc.ContentLength := Proc.ContentLength p; Proc.User := Proc.User p;
    Proc.Script := Proc.Script p;
    Proc.LastRequestCPU := Proc.LastRequestCPU p;
    Proc.LastRequestMemory := Proc.LastRequestMemory p |}.
Definition RequestDuration x (p : PoolProcess) : PoolProcess :=
  {|
    Proc.PID := Proc.PID p; Proc.State := Proc.State p;
    Proc.StartTime := Proc.StartTime p; Proc.StartSince := Proc.StartSince p;
    Proc.Requests := Proc.Requests p; Proc.RequestDuration := x;
    Proc.RequestMethod := Proc.RequestMethod p;
    Proc.RequestURI := Proc.RequestURI p;
    Proc.ContentLength := Proc.ContentLength p; Proc.User := Proc.User p;
    Proc.Script := Proc.Script p;
    Proc.LastRequestCPU := Proc.LastRequestCPU p;
    Proc.LastRequestMemory := Proc.LastRequestMemory p |}.
Definition RequestMethod x (p : PoolProcess) : PoolProcess :=
  {|
    Proc.PID := Proc.PID p; Proc.State := Proc.State p;
    Proc.StartTime := Proc.StartTime p; Proc.StartSince := Proc.StartSince p;
    Proc.Requests := Proc.Requests p;
    Proc.RequestDuration := Proc.RequestDuration p; Proc.RequestMethod := x;
    Proc.RequestURI := Proc.RequestURI p;
    Proc.ContentLength := Proc.ContentLength p; Proc.User := Proc.User p;
    Proc.Script := Proc.Script p;
    Proc.LastRequestCPU := Proc.LastRequestCPU p;
    Proc.LastRequestMemory := Proc.LastRequestMemory p |}.
Definition RequestURI x (p : PoolProcess) : PoolProcess :=
  {|
    Proc.PID := Proc.PID p; Proc.State := Proc.State p;
    Proc.StartTime := Proc.StartTime p; Proc.StartSince := Proc.StartSince p;
    Proc.Requests := Proc.Requests p;
    Proc.RequestDuration := Proc.RequestDuration p;
    Proc.RequestMethod := Proc.RequestMethod p; Proc.RequestURI := x;
    Proc.ContentLength := Proc.ContentLength p; Proc.User := Proc.User p;
    Proc.Script := Proc.Script p;
    Proc.LastRequestCPU := Proc.LastRequestCPU p;
    Proc.LastRequestMemory := Proc.LastRequestMemory p |}.
Definition ContentLength x (p : PoolProcess) : PoolProcess :=
  {|
    Proc.PID := Proc.PID p; Proc.State := Proc.State p;
    Proc.StartTime := Proc.StartTime p; Proc.StartSince := Proc.StartSince p;
    Proc.Requests := Proc.Requests p;
    Proc.RequestDuration := Proc.RequestDuration p;
    Proc.RequestMethod := Proc.RequestMethod p;
    Proc.RequestURI := Proc.RequestURI p; Proc.ContentLength := x;
    Proc.User := Proc.User p; Proc.Script := Proc.Script p;
    Proc.LastRequestCPU := Proc.LastRequestCPU p;
    Proc.LastRequestMemory := Proc.LastRequestMemory p |}.
Definition User x (p : PoolProcess) : PoolProcess :=
  {|
    Proc.PID := Proc.PID p; Proc.State := Proc.State p;
    Proc.StartTime := Proc.StartTime p; Proc.StartSince := Proc.StartSince p;
    Proc.Requests := Proc.Requests p;
    Proc.RequestDuration := Proc.RequestDuration p;
    Proc.RequestMethod := Proc.RequestMethod p;
    Proc.RequestURI := Proc.RequestURI p;
    Proc.ContentLength := Proc.ContentLength p; Proc.User := x;
    Proc.Script := Proc.Script p;
    Proc.LastRequestCPU := Proc.LastRequestCPU p;
    Proc.LastRequestMemory := Proc.LastRequestMemory p |}.
Definition Script x (p : PoolProcess) : PoolProcess :=
  {|
    Proc.PID := Proc.PID p; Proc.State := Proc.State p;
    Proc.StartTime := Proc.StartTime p; Proc.StartSince := Proc.StartSince p;
    Proc.Requests := Proc.Requests p;
    Proc.RequestDuration := Proc.RequestDuration p;
    Proc.RequestMethod := Proc.RequestMethod p;
    Proc.RequestURI := Proc.RequestURI p;
    Proc.ContentLength := Proc.ContentLength p; Proc.User := Proc.User p;
    Proc.Script := x; Proc.LastRequestCPU := Proc.LastRequestCPU p;
    Proc.LastRequestMemory := Proc.LastRequestMemory p |}.
Definition LastRequestCPU x (p : PoolProcess) : PoolProcess :=
  {|
    Proc.PID := Proc.PID p; Proc.State := Proc.State p;
    Proc.StartTime := Proc.StartTime p; Proc.StartSince := Proc.StartSince p;
    Proc.Requests := Proc.Requests p;
    Proc.RequestDuration := Proc.RequestDuration p;
    Proc.RequestMethod := Proc.RequestMethod p;
    Proc.RequestURI := Proc.RequestURI p;
    Proc.ContentLength := Proc.ContentLength p; Proc.User := Proc.User p;
    Proc.Script := Proc.Script p; Proc.LastRequestCPU := x;
    Proc.LastRequestMemory := Proc.LastRequestMemory p |}.
Definition LastRequestMemory x (p : PoolProcess) : PoolProcess :=
  {|
    Proc.PID := Proc.PID p; Proc.State := Proc.State p;
    Proc.StartTime := Proc.StartTime p; Proc.StartSince := Proc.StartSince p;
    Proc.Requests := Proc.Requests p;
    Proc.RequestDuration := Proc.RequestDuration p;
    Proc.RequestMethod := Proc.RequestMethod p;
    Proc.RequestURI := Proc.RequestURI p;
    Proc.ContentLength := Proc.ContentLength p; Proc.User := Proc.User p;
    Proc.Script := Proc.Script p;
    Proc.LastRequestCPU := Proc.LastRequestCPU p; Proc.LastRequestMemory := x |}.
End SetProc.

Definition set_ScrapeError x (p : Pool) : Pool :=
  {|
    Address := Address p; ScrapeError := x;
    ScrapeFailures := ScrapeFailures p; Name := Name p;
    ProcessManager := ProcessManager p; StartTime := StartTime p;
    StartSince := StartSince p; AcceptedConnections := AcceptedConnections p;
    ListenQueue := ListenQueue p; MaxListenQueue := MaxListenQueue p;
    ListenQueueLength := ListenQueueLength p;
    IdleProcesses := IdleProcesses p; ActiveProcesses := ActiveProcesses p;
    TotalProcesses := TotalProcesses p;
    MaxActiveProcesses := MaxActiveProcesses p;
    MaxChildrenReached := MaxChildrenReached p;
    SlowRequests := SlowRequests p; Processes := Processes p |}.
Definition set_ScrapeFailures x (p : Pool) : Pool :=
  {|
    Address := Address p; ScrapeError := ScrapeError p; ScrapeFailures := x;
    Name := Name p; ProcessManager := ProcessManager p;
    StartTime := StartTime p; StartSince := StartSince p;
    AcceptedConnections := AcceptedConnections p;
    ListenQueue := ListenQueue p; MaxListenQueue := MaxListenQueue p;
    ListenQueueLength := ListenQueueLength p;
    IdleProcesses := IdleProcesses p; ActiveProcesses := ActiveProcesses p;
    TotalProcesses := TotalProcesses p;
    MaxActiveProcesses := MaxActiveProcesses p;
    MaxChildrenReached := MaxChildrenReached p;
    SlowRequests := SlowRequests p; Processes := Processes p |}.
Definition set_Name x (p : Pool) : Pool :=
  {|
    Address := Address p; ScrapeError := ScrapeError p;
    ScrapeFailures := ScrapeFailures p; Name := x;
    ProcessManager := ProcessManager p; StartTime := StartTime p;
    StartSince := StartSince p; AcceptedConnections := AcceptedConnections p;
    ListenQueue := ListenQueue p; MaxListenQueue := MaxListenQueue p;
    ListenQueueLength := ListenQueueLength p;
    IdleProcesses := IdleProcesses p; ActiveProcesses := ActiveProcesses p;
    TotalProcesses := TotalProcesses p;
    MaxActiveProcesses := MaxActiveProcesses p;
    MaxChildrenReached := MaxChildrenReached p;
    SlowRequests := SlowRequests p; Processes := Processes p |}.
Definition set_ProcessManager x (p : Pool) : Pool :=
  {|
    Address := Address p; ScrapeError := ScrapeError p;
    ScrapeFailures := ScrapeFailures p; Name := Name p; ProcessManager := x;
    StartTime := StartTime p; StartSince := StartSince p;
    AcceptedConnections := AcceptedConnections p;
    ListenQueue := ListenQueue p; MaxListenQueue := MaxListenQueue p;
    ListenQueueLength := ListenQueueLength p;
    IdleProcesses := IdleProcesses p; ActiveProcesses := ActiveProcesses p;
    TotalProcesses := TotalProcesses p;
    MaxActiveProcesses := MaxActiveProcesses p;
    MaxChildrenReached := MaxChildrenReached p;
    SlowRequests := SlowRequests p; Processes := Processes p |}.
Definition set_StartTime x (p : Pool) : Pool :=
  {|
    Address := Address p; ScrapeError := ScrapeError p;
    ScrapeFailures := ScrapeFailures p; Name := Name p;
    ProcessManager := ProcessManager p; StartTime := x;
    StartSince := StartSince p; AcceptedConnections := AcceptedConnections p;
    ListenQueue := ListenQueue p; MaxListenQueue := MaxListenQueue p;
    ListenQueueLength := ListenQueueLength p;
    IdleProcesses := IdleProcesses p; ActiveProcesses := ActiveProcesses p;
    TotalProcesses := TotalProcesses p;
    MaxActiveProcesses := MaxActiveProcesses p;
    MaxChildrenReached := MaxChildrenReached p;
    SlowRequests := SlowRequests p; Processes := Processes p |}.
Definition set_StartSince x (p : Pool) : Pool :=
  {|
    Address := Address p; ScrapeError := ScrapeError p;
    ScrapeFailures := ScrapeFailures p; Name := Name p;
    ProcessManager := ProcessManager p; StartTime := StartTime p;
    StartSince := x; AcceptedConnections := AcceptedConnections p;
    ListenQueue := ListenQueue p; MaxListenQueue := MaxListenQueue p;
    ListenQueueLength := ListenQueueLength p;
    IdleProcesses := IdleProcesses p; ActiveProcesses := ActiveProcesses p;
    TotalProcesses := TotalProcesses p;
    MaxActiveProcesses := MaxActiveProcesses p;
    MaxChildrenReached := MaxChildrenReached p;
    SlowRequests := SlowRequests p; Processes := Processes p |}.
Definition set_AcceptedConnections x (p : Pool) : Pool :=
  {|
    Address := Address p; ScrapeError := ScrapeError p;
    ScrapeFailures := ScrapeFailures p; Name := Name p;
    ProcessManager := ProcessManager p; StartTime := StartTime p;
    StartSince := StartSince p; AcceptedConnections := x;
    ListenQueue := ListenQueue p; MaxListenQueue := MaxListenQueue p;
    ListenQueueLength := ListenQueueLength p;
    IdleProcesses := IdleProcesses p; ActiveProcesses := ActiveProcesses p;
    TotalProcesses := TotalProcesses p;
    MaxActiveProcesses := MaxActiveProcesses p;
    MaxChildrenReached := MaxChildrenReached p;
    SlowRequests := SlowRequests p; Processes := Processes p |}.
Definition set_ListenQueue x (p : Pool) : Pool :=
  {|
    Address := Address p; ScrapeError := ScrapeError p;
    ScrapeFailures := ScrapeFailures p; Name := Name p;
    ProcessManager := ProcessManager p; StartTime := StartTime p;
    StartSince := StartSince p; AcceptedConnections := AcceptedConnections p;
    ListenQueue := x; MaxListenQueue := MaxListenQueue p;
    ListenQueueLength := ListenQueueLength p;
    IdleProcesses := IdleProcesses p; ActiveProcesses := ActiveProcesses p;
    TotalProcesses := TotalProcesses p;
    MaxActiveProcesses := MaxActiveProcesses p;
    MaxChildrenReached := MaxChildrenReached p;
    SlowRequests := SlowRequests p; Processes := Processes p |}.
Definition set_MaxListenQueue x (p : Pool) : Pool :=
  {|
    Address := Address p; ScrapeError := ScrapeError p;
    ScrapeFailures := ScrapeFailures p; Name := Name p;
    ProcessManager := ProcessManager p; StartTime := StartTime p;
    StartSince := StartSince p; AcceptedConnections := AcceptedConnections p;
    ListenQueue := ListenQueue p; MaxListenQueue := x;
    ListenQueueLength := ListenQueueLength p;
    IdleProcesses := IdleProcesses p; ActiveProcesses := ActiveProcesses p;
    TotalProcesses := TotalProcesses p;
    MaxActiveProcesses := MaxActiveProcesses p;
    MaxChildrenReached := MaxChildrenReached p;
    SlowRequests := SlowRequests p; Processes := Processes p |}.
Definition set_ListenQueueLength x (p : Pool) : Pool :=
  {|
    Address := Address p; ScrapeError := ScrapeError p;
    ScrapeFailures := ScrapeFailures p; Name := Name p;
    ProcessManager := ProcessManager p; StartTime := StartTime p;
    StartSince := StartSince p; AcceptedConnections := AcceptedConnections p;
    ListenQueue := ListenQueue p; MaxListenQueue := MaxListenQueue p;
    ListenQueueLength := x; IdleProcesses := IdleProcesses p;
    ActiveProcesses := ActiveProcesses p; TotalProcesses := TotalProcesses p;
    MaxActiveProcesses := MaxActiveProcesses p;
    MaxChildrenReached := MaxChildrenReached p;
    SlowRequests := SlowRequests p; Processes := Processes p |}.
Definition set_IdleProcesses x (p : Pool) : Pool :=
  {|
    Address := Address p; ScrapeError := ScrapeError p;
    ScrapeFailures := ScrapeFailures p; Name := Name p;
    ProcessManager := ProcessManager p; StartTime := StartTime p;
    StartSince := StartSince p; AcceptedConnections := AcceptedConnections p;
    ListenQueue := ListenQueue p; MaxListenQueue := MaxListenQueue p;
    ListenQueueLength := ListenQueueLength p; IdleProcesses := x;
    ActiveProcesses := ActiveProcesses p; TotalProcesses := TotalProcesses p;
    MaxActiveProcesses := MaxActiveProcesses p;
    MaxChildrenReached := MaxChildrenReached p;
    SlowRequests := SlowRequests p; Processes := Processes p |}.
Definition set_ActiveProcesses x (p : Pool) : Pool :=
  {|
    Address := Address p; ScrapeError := ScrapeError p;
    ScrapeFailures := ScrapeFailures p; Name := Name p;
    ProcessManager := ProcessManager p; StartTime := StartTime p;
    StartSince := StartSince p; AcceptedConnections := AcceptedConnections p;
    ListenQueue := ListenQueue p; MaxListenQueue := MaxListenQueue p;
    ListenQueueLength := ListenQueueLength p;
    IdleProcesses := IdleProcesses p; ActiveProcesses := x;
    TotalProcesses := TotalProcesses p;
    MaxActiveProcesses := MaxActiveProcesses p;
    MaxChildrenReached := MaxChildrenReached p;
    SlowRequests := SlowRequests p; Processes := Processes p |}.
Definition set_TotalProcesses x (p : Pool) : Pool :=
  {|
    Address := Address p; ScrapeError := ScrapeError p;
    ScrapeFailures := ScrapeFailures p; Name := Name p;
    ProcessManager := ProcessManager p; StartTime := StartTime p;
    StartSince := StartSince p; AcceptedConnections := AcceptedConnections p;
    ListenQueue := ListenQueue p; MaxListenQueue := MaxListenQueue p;
    ListenQueueLength := ListenQueueLength p;
    IdleProcesses := IdleProcesses p; ActiveProcesses := ActiveProcesses p;
    TotalProcesses := x; MaxActiveProcesses := MaxActiveProcesses p;
    MaxChildrenReached := MaxChildrenReached p;
    SlowRequests := SlowRequests p; Processes := Processes p |}.
Definition set_MaxActiveProcesses x (p : Pool) : Pool :=
  {|
    Address := Address p; ScrapeError := ScrapeError p;
    ScrapeFailures := ScrapeFailures p; Name := Name p;
    ProcessManager := ProcessManager p; StartTime := StartTime p;
    StartSince := StartSince p; AcceptedConnections := AcceptedConnections p;
    ListenQueue := ListenQueue p; MaxListenQueue := MaxListenQueue p;
    ListenQueueLength := ListenQueueLength p;
    IdleProcesses := IdleProcesses p; ActiveProcesses := ActiveProcesses p;
    TotalProcesses := TotalProcesses p; MaxActiveProcesses := x;
    MaxChildrenReached := MaxChildrenReached p;
    SlowRequests := SlowRequests p; Processes := Processes p |}.
Definition set_MaxChildrenReached x (p : Pool) : Pool :=
  {|
    Address := Address p; ScrapeError := ScrapeError p;
    ScrapeFailures := ScrapeFailures p; Name := Name p;
    ProcessManager := ProcessManager p; StartTime := StartTime p;
    StartSince := StartSince p; AcceptedConnections := AcceptedConnections p;
    ListenQueue := ListenQueue p; MaxListenQueue := MaxListenQueue p;
    ListenQueueLength := ListenQueueLength p;
    IdleProcesses := IdleProcesses p; ActiveProcesses := ActiveProcesses p;
    TotalProcesses := TotalProcesses p;
    MaxActiveProcesses := MaxActiveProcesses p; MaxChildrenReached := x;
    SlowRequests := SlowRequests p; Processes := Processes p |}.
Definition set_SlowRequests x (p : Pool) : Pool :=
  {|
    Address := Address p; ScrapeError := ScrapeError p;
    ScrapeFailures := ScrapeFailures p; Name := Name p;
    ProcessManager := ProcessManager p; StartTime := StartTime p;
    StartSince := StartSince p; AcceptedConnections := AcceptedConnections p;
    ListenQueue := ListenQueue p; MaxListenQueue := MaxListenQueue p;
    ListenQueueLength := ListenQueueLength p;
    IdleProcesses := IdleProcesses p; ActiveProcesses := ActiveProcesses p;
    TotalProcesses := TotalProcesses p;
    MaxActiveProcesses := MaxActiveProcesses p;
    MaxChildrenReached := MaxChildrenReached p; SlowRequests := x;
    Processes := Processes p |}.
Definition set_Processes x (p : Pool) : Pool :=
  {|
    Address := Address p; ScrapeError := ScrapeError p;
    ScrapeFailures := ScrapeFailures p; Name := Name p;
    ProcessManager := ProcessManager p; StartTime := StartTime p;
    StartSince := StartSince p; AcceptedConnections := AcceptedConnections p;
    ListenQueue := ListenQueue p; MaxListenQueue := MaxListenQueue p;
    ListenQueueLength := ListenQueueLength p;
    IdleProcesses := IdleProcesses p; ActiveProcesses := ActiveProcesses p;
    TotalProcesses := TotalProcesses p;
    MaxActiveProcesses := MaxActiveProcesses p;
    MaxChildrenReached := MaxChildrenReached p;
    SlowRequests := SlowRequests p; Processes := x |}.

(** ** strconv.ParseFloat on a JSON number *)

Fixpoint digits_value (s : string) (acc : Z) : Z :=
  match s with
  | String c r => digits_value r (acc * 10 + strconv.digit_val c)
  | EmptyString => acc
  end.

(** The binary64 value nearest to [(-1)^neg * m * 10^e] (ties to even),
    for [m > 0]. *)
Definition round_decimal (neg : bool) (m : positive) (e : Z) : float64 :=
  if 0 <=? e then
    SpecFloat.binary_round 53 1024 neg (m * Z.to_pos (10 ^ e))%positive 0
  else
    let d := 10 ^ (- e) in
    let sh := Z.max 0 (Z.log2 d + 1 + 55 - (Z.log2 (Zpos m) + 1)) in
    let n := Zpos m * 2 ^ sh in
    let q := n / d in
    let r := n mod d in
    let l := if r =? 0 then SpecFloat.loc_Exact
             else SpecFloat.loc_Inexact (Z.compare (2 * r) d) in
    SpecFloat.binary_round_aux 53 1024 neg q (- sh) l.

(** [ParseFloat(lit, 64)] for the text [lit] of a JSON number: [None] is
    the range error the function reports when the value rounds to an
    infinity. *)
Definition ParseFloat (lit : string) : option float64 :=
  let '(neg, s1) :=
    match lit with
    | String "-"%char r => (true, r)
    | _ => (false, lit)
    end in
  let '(int, s2) := span_digits s1 in
  let '(frac, s3) :=
    match s2 with
    | String "."%char r => span_digits r
    | _ => (EmptyString, s2)
    end in
  let e :=
    match s3 with
    | String _ (String "+"%char r) => digits_value r 0
    | String _ (String "-"%char r) => - digits_value r 0
    | String _ r => digits_value r 0
    | EmptyString => 0
    end in
  match digits_value (int +:+ frac) 0 with
  | Zpos m =>
      match round_decimal neg m (e - Z.of_nat (String.length frac)) with
      | SpecFloat.S754_infinity _ => None
      | f => Some f
      end
  | _ => Some (SpecFloat.S754_zero neg)
  end.

(** ** encoding/json: storing a value in a Go variable *)

(** How [UnmarshalTypeError] names the JSON value it met. *)
Definition json_kind (v : json) : string :=
  match v with
  | JNull => "null"
  | JBool _ => "bool"
  | JNumber _ => "number"
  | JString _ => "string"
  | JArray _ => "array"
  | JObject _ => "object"
  end.

(** [d.saveError]: the decoder keeps the first error of that kind and
    goes on. *)
Definition saveError (saved : option error) (e : error) : option error :=
  match saved with
  | None => Some e
  | Some _ => saved
  end.

(** A value stored in a variable of kind string: the new content of the
    variable and the saved error. *)
Definition store_string (v : json) (old : string) (saved : option error)
  : string * option error :=
  match v with
  | JNull => (old, saved)
  | JString s => (s, saved)
  | _ => (old, saveError saved (json_UnmarshalTypeError (json_kind v) "string"))
  end.

(** In a variable of an integer type of 64 bits, named [ty]. *)
Definition store_int (ty : string) (v : json) (old : Z) (saved : option error)
  : Z * option error :=
  match v with
  | JNull => (old, saved)
  | JNumber lit =>
      match strconv.ParseInt lit with
      | inl n => (n, saved)
      | inr _ =>
          (old, saveError saved (json_UnmarshalTypeError ("number " +:+ lit) ty))
      end
  | _ => (old, saveError saved (json_UnmarshalTypeError (json_kind v) ty))
  end.

(** In a variable of type float64. *)
Definition store_float64 (v : json) (old : float64) (saved : option error)
  : float64 * option error :=
  match v with
  | JNull => (old, saved)
  | JNumber lit =>
      match ParseFloat lit with
      | Some f => (f, saved)
      | None =>
          (old, saveError saved
                  (json_UnmarshalTypeError ("number " +:+ lit) "float64"))
      end
  | _ => (old, saveError saved (json_UnmarshalTypeError (json_kind v) "float64"))
  end.

(** *** Struct fields and their JSON names *)

Definition lower (c : ascii) : ascii :=
  if (65 <=? byte c) && (byte c <=? 90) then chr (byte c + 32) else c.

Fixpoint lower_string (s : string) : string :=
  match s with
  | String c r => String (lower c) (lower_string r)
  | EmptyString => EmptyString
  end.

(** Equality of a field name and a key when case is ignored.  (Only the
    ASCII letters are folded; the two letters outside ASCII that Unicode
    folds onto [k] and [s] are not.) *)
Definition EqualFold (a b : string) : bool :=
  String.eqb (lower_string a) (lower_string b).

(** The field a key selects: the one whose name is the key, else the
    first one whose name is the key up to case. *)
Definition find_field {F : Type} (fields : list (string * F)) (key : string)
  : option F :=
  match List.find (fun nf => String.eqb (fst nf) key) fields with
  | Some nf => Some (snd nf)
  | None =>
      match List.find (fun nf => EqualFold (fst nf) key) fields with
      | Some nf => Some (snd nf)
      | None => None
      end
  end.

Inductive ProcField :=
| pf_PID | pf_State | pf_StartTime | pf_StartSince | pf_Requests
| pf_RequestDuration | pf_RequestMethod | pf_RequestURI | pf_ContentLength
| pf_User | pf_Script | pf_LastRequestCPU | pf_LastRequestMemory.

(** The [json:"..."] tags of [PoolProcess]. *)
Definition process_fields : list (string * ProcField) :=
  [("pid", pf_PID); ("state", pf_State); ("start time", pf_StartTime);
   ("start since", pf_StartSince); ("requests", pf_Requests);
   ("request duration", pf_RequestDuration);
   ("request method", pf_RequestMethod); ("request uri", pf_RequestURI);
   ("content length", pf_ContentLength); ("user", pf_User);
   ("script", pf_Script); ("last request cpu", pf_LastRequestCPU);
   ("last request memory", pf_LastRequestMemory)].

Definition store_process_field (f : ProcField) (v : json) (p : PoolProcess)
    (saved : option error) : PoolProcess * option error :=
  let int (get : PoolProcess -> Z) (set : Z -> PoolProcess -> PoolProcess) ty :=
    let '(x, sv) := store_int ty v (get p) saved in (set x p, sv) in
  let str (get : PoolProcess -> string) (set : string -> PoolProcess -> PoolProcess) :=
    let '(x, sv) := store_string v (get p) saved in (set x p, sv) in
  match f with
  | pf_PID => int Proc.PID SetProc.PID "int64"
  | pf_State => str Proc.State SetProc.State
  | pf_StartTime => int Proc.StartTime SetProc.StartTime "int64"
  | pf_StartSince => int Proc.StartSince SetProc.StartSince "int64"
  | pf_Requests => int Proc.Requests SetProc.Requests "int64"
  | pf_RequestDuration => int Proc.RequestDuration SetProc.RequestDuration "int64"
  | pf_RequestMethod => str Proc.RequestMethod SetProc.RequestMethod
  | pf_RequestURI => str Proc.RequestURI SetProc.RequestURI
  | pf_ContentLength => int Proc.ContentLength SetProc.ContentLength "int64"
  | pf_User => str Proc.User SetProc.User
  | pf_Script => str Proc.Script SetProc.Script
  | pf_LastRequestCPU =>
      let '(x, sv) := store_float64 v (Proc.LastRequestCPU p) saved in
      (SetProc.LastRequestCPU x p, sv)
  | pf_LastRequestMemory =>
      int Proc.LastRequestMemory SetProc.LastRequestMemory "int"
  end.

(** The members of an object stored one after the other in a
    [PoolProcess]; a key that selects no field is skipped. *)
Fixpoint store_process_members (ms : list (string * string * json))
    (p : PoolProcess) (saved : option error) : PoolProcess * option error :=
  match ms with
  | [] => (p, saved)
  | (key, _, v) :: ms' =>
      match find_field process_fields key with
      | Some f =>
          let '(p', sv) := store_process_field f v p saved in
          store_process_members ms' p' sv
      | None => store_process_members ms' p saved
      end
  end.

(** A value stored in a variable of type [PoolProcess]. *)
Definition store_process (v : json) (p : PoolProcess) (saved : option error)
  : PoolProcess * option error :=
  match v with
  | JNull => (p, saved)
  | JObject ms => store_process_members ms p saved
  | _ => (p, saveError saved
               (json_UnmarshalTypeError (json_kind v) "phpfpm.PoolProcess"))
  end.

(** *** Arrays into a slice of processes *)

(** A new backing array is put at the end of the heap. *)
Definition alloc (h : heap) (a : list PoolProcess) : nat * heap :=
  (length h, h ++ [a]).

(** [reflect.MakeSlice] of length [n] and capacity [c] that starts as a
    copy of the elements of [s]. *)
Definition grow (h : heap) (s : slice) (c : nat) : slice * heap :=
  let a := elems h s ++ replicate (c - len s) Proc.zero in
  let '(l, h') := alloc h a in
  ({| arr := Some l; len := len s |}, h').

(** The cell [i] of the backing array of [s] is overwritten. *)
Definition write (h : heap) (s : slice) (i : nat) (x : PoolProcess) : heap :=
  match arr s with
  | Some a => <[ a := <[ i := x ]> (backing h s) ]> h
  | None => h
  end.

(** The loop of [d.array] over the elements met: the element number [i]
    is stored in the cell [i] of the slice, which is grown when its
    capacity is reached and lengthened over whatever its array holds at
    that cell. *)
Fixpoint store_elements (vs : list json) (i : nat) (s : slice) (h : heap)
    (saved : option error) : nat * slice * heap * option error :=
  match vs with
  | [] => (i, s, h, saved)
  | v :: vs' =>
      let '(s, h) :=
        if (cap h s <=? i)%nat then
          let newcap := (cap h s + cap h s / 2)%nat in
          grow h s (if (newcap <? 4)%nat then 4%nat else newcap)
        else (s, h) in
      let s := if (len s <=? i)%nat then {| arr := arr s; len := S i |} else s in
      let '(x, saved) := store_process v (default Proc.zero (backing h s !! i)) saved in
      store_elements vs' (S i) s (write h s i x) saved
  end.

(** A value stored in a variable of type [[]PoolProcess]. *)
Definition store_processes (v : json) (s : slice) (h : heap)
    (saved : option error) : slice * heap * option error :=
  match v with
  | JNull => (nil_slice, h, saved)
  | JArray vs =>
      let '(i, s, h, saved) := store_elements vs 0 s h saved in
      let s := if (i <? len s)%nat then {| arr := arr s; len := i |} else s in
      if (i =? 0)%nat then
        let '(l, h') := alloc h [] in ({| arr := Some l; len := 0 |}, h', saved)
      else (s, h, saved)
  | _ => (s, h, saveError saved
                  (json_UnmarshalTypeError (json_kind v) "[]phpfpm.PoolProcess"))
  end.

Inductive PoolField :=
| F_Name | F_ProcessManager | F_StartTime | F_StartSince
| F_AcceptedConnections | F_ListenQueue | F_MaxListenQueue
| F_ListenQueueLength | F_IdleProcesses | F_ActiveProcesses
| F_TotalProcesses | F_MaxActiveProcesses | F_MaxChildrenReached
| F_SlowRequests | F_Processes.

(** The [json:"..."] tags of [Pool]; the fields tagged [json:"-"]
    ([Address], [ScrapeError], [ScrapeFailures]) have no name. *)
Definition pool_fields : list (string * PoolField) :=
  [("pool", F_Name); ("process manager", F_ProcessManager);
   ("start time", F_StartTime); ("start since", F_StartSince);
   ("accepted conn", F_AcceptedConnections); ("listen queue", F_ListenQueue);
   ("max listen queue", F_MaxListenQueue);
   ("listen queue len", F_ListenQueueLength);
   ("idle processes", F_IdleProcesses);
   ("active processes", F_ActiveProcesses);
   ("total processes", F_TotalProcesses);
   ("max active processes", F_MaxActiveProcesses);
   ("max children reached", F_MaxChildrenReached);
   ("slow requests", F_SlowRequests); ("processes", F_Processes)].

(** What the decoder has reached: the pool and the heap as written so
    far, the saved error, and the error that made it stop, if any. *)
Definition decoding : Type := Pool * heap * option error * option error.

(** The value [v], whose text is [raw], stored in the field [f] of [p].
    [StartTime] has its own [UnmarshalJSON], which gets the text; when it
    fails, decoding stops there. *)
Definition store_pool_field (f : PoolField) (raw : string) (v : json)
    (p : Pool) (h : heap) (saved : option error) : decoding :=
  let int (get : Pool -> Z) (set : Z -> Pool -> Pool) : decoding :=
    let '(x, sv) := store_int "int64" v (get p) saved in (set x p, h, sv, None) in
  let str (get : Pool -> string) (set : string -> Pool -> Pool) : decoding :=
    let '(x, sv) := store_string v (get p) saved in (set x p, h, sv, None) in
  match f with
  | F_Name => str Name set_Name
  | F_ProcessManager => str ProcessManager set_ProcessManager
  | F_StartTime =>
      match timestamp_UnmarshalJSON raw with
      | inl t => (set_StartTime t p, h, saved, None)
      | inr err => (p, h, saved, Some (strconv_NumError err))
      end
  | F_StartSince => int StartSince set_StartSince
  | F_AcceptedConnections => int AcceptedConnections set_AcceptedConnections
  | F_ListenQueue => int ListenQueue set_ListenQueue
  | F_MaxListenQueue => int MaxListenQueue set_MaxListenQueue
  | F_ListenQueueLength => int ListenQueueLength set_ListenQueueLength
  | F_IdleProcesses => int IdleProcesses set_IdleProcesses
  | F_ActiveProcesses => int ActiveProcesses set_ActiveProcesses
  | F_TotalProcesses => int TotalProcesses set_TotalProcesses
  | F_MaxActiveProcesses => int MaxActiveProcesses set_MaxActiveProcesses
  | F_MaxChildrenReached => int MaxChildrenReached set_MaxChildrenReached
  | F_SlowRequests => int SlowRequests set_SlowRequests
  | F_Processes =>
      let '(s, h', sv) := store_processes v (Processes p) h saved in
      (set_Processes s p, h', sv, None)
  end.

(** The members of the top-level object, stored in order. *)
Fixpoint store_pool_members (ms : list (string * string * json))
    (p : Pool) (h : heap) (saved : option error) : decoding :=
  match ms with
  | [] => (p, h, saved, None)
  | (key, raw, v) :: ms' =>
      match find_field pool_fields key with
      | Some f =>
          match store_pool_field f raw v p h saved with
          | (p', h', sv, None) => store_pool_members ms' p' h' sv
          | stopped => stopped
          end
      | None => store_pool_members ms' p h saved
      end
  end.

(** [json.Unmarshal(data, &p)] for [p] a non-nil [*Pool]: the pool [*p]
    and the heap afterwards, and the error returned.  A text that is not
    well formed is refused before anything is stored; [null] stores
    nothing (it sets the caller's own pointer variable to nil); an object
    is stored member by member; any other value is a type error. *)
Definition Unmarshal (data : string) (p : Pool) (h : heap)
  : Pool * heap * option error :=
  match json_parse data with
  | None => (p, h, Some json_SyntaxError)
  | Some JNull => (p, h, None)
  | Some (JObject ms) =>
      match store_pool_members ms p h None with
      | (p', h', _, Some err) => (p', h', Some err)
      | (p', h', saved, None) => (p', h', saved)
      end
  | Some v => (p, h, Some (json_UnmarshalTypeError (json_kind v) "phpfpm.Pool"))
  end.

Definition json_Unmarshal (data : string) (p : Pool) : M (Pool * option error) :=
  let* h := get_heap in
  let '(p', h', err) := Unmarshal data p h in
  put_heap h' ;;
  ret (p', err).

(** ** The FastCGI client

    The package reaches a pool through [fcgiclient.DialTimeout], the
    [Get] method of the client it returns and [ioutil.ReadAll] on the
    body of the response.  What they answer is given from outside: a
    dialer maps the network, the address and the timeout to a client or
    an error, a client maps the request parameters to a response or an
    error, and a response holds what reading its body to the end gives. *)
Record Response := { ReadAll : string + error }.

Record FCGIClient := { Get : list (string * string) -> Response + error }.

Definition Dialer : Type := string -> string -> Z -> FCGIClient + error.

(** [time.Second], in nanoseconds. *)
Definition Second : Z := 1000000000.

(** The parameters of the status request. *)
Definition env : list (string * string) :=
  [("SCRIPT_FILENAME", "/status");
   ("SCRIPT_NAME", "/status");
   ("SERVER_SOFTWARE", "go / php-fpm_exporter");
   ("REMOTE_ADDR", "127.0.0.1");
   ("QUERY_STRING", "json&full")].

(** ** Pool.error and Pool.Update *)

(** [func (p *Pool) error(err error) error]: the pool afterwards and the
    error returned. *)
Definition Pool_error (p : Pool) (err : error) : M (Pool * option error) :=
  let p := set_ScrapeError (Some err) p in
  let p := set_ScrapeFailures (Int64.wrap (ScrapeFailures p + 1)) p in
  log_call (log_Error [VError err]) ;;
  ret (p, Some err).

(** [func (p *Pool) Update() (err error)]: the pool afterwards and the
    error returned, with [DialTimeout] answering as [dial] does. *)
Definition Pool_Update (dial : Dialer) (p : Pool) : M (Pool * option error) :=
  let p := set_ScrapeError None p in
  match url.Parse (Address p) with
  | inr err => Pool_error p (url_Error err)
  | inl uri =>
      let network := url.Scheme uri in
      let address := url.Hostname uri +:+ ":" +:+ url.Port uri in
      let timeout := 3 * Second in
      emit (ev_DialTimeout network address timeout) ;;
      match dial network address timeout with
      | inr err => Pool_error p err
      | inl fcgi =>
          defer (emit ev_Close)
            (emit (ev_Get env) ;;
             match Get fcgi env with
             | inr err => Pool_error p err
             | inl resp =>
                 defer (emit ev_Body_Close)
                   (emit ev_ReadAll ;;
                    match ReadAll resp with
                    | inr err => Pool_error p err
                    | inl content =>
                        log_call (log_Debugf "Pool[%v]: %v"
                                    [VString (Address p); VString content]) ;;
                        let* '(p, err) := json_Unmarshal content p in
                        match err with
                        | Some err => Pool_error p err
                        | None => ret (p, None)
                        end
                    end)
             end)
      end
  end.

(** ** PoolManager *)

(** [func (pm *PoolManager) Add(uri string) Pool]: the pool returned and
    the manager afterwards. *)
Definition PoolManager_Add (uri : string) (pm : PoolManager) : Pool * PoolManager :=
  let p := Pool_with_Address uri in
  (p, {| Pools := Pools pm ++ [p] |}).

(** The goroutines of [PoolManager.Update], run one after the other in
    the order [sched] of the indices of their pools: each calls
    [Update] on the entry [pm.Pools[idx]] in place; [dials idx] is how
    [DialTimeout] answers the goroutine of index [idx]. *)
Fixpoint run_goroutines (dials : nat -> Dialer) (sched : list nat)
    (pools : list Pool) : M (list Pool) :=
  match sched with
  | [] => ret pools
  | idx :: sched' =>
      match pools !! idx with
      | Some p =>
          let* '(p', _) := Pool_Update (dials idx) p in
          run_goroutines dials sched' (<[ idx := p' ]> pools)
      | None => run_goroutines dials sched' pools
      end
  end.

(** [func (pm *PoolManager) Update() (err error)]: the manager afterwards
    and the error returned.  One goroutine per pool is started and all
    are waited for.  A goroutine writes to its own entry of [pm.Pools]
    only, so what each entry becomes does not depend on how the
    goroutines interleave; they are run here one after the other in the
    order [sched], a permutation of the indices [0 .. len(pm.Pools)-1].
    [elapsed] is the time that passed between the two readings of the
    clock. *)
Definition PoolManager_Update (dials : nat -> Dialer) (sched : list nat)
    (elapsed : Z) (pm : PoolManager) : M (PoolManager * option error) :=
  let* pools := run_goroutines dials sched (Pools pm) in
  log_call (log_Debugf "Updated %v pool(s) in %v"
              [VInt (Z.of_nat (length pools)); VDuration elapsed]) ;;
  ret ({| Pools := pools |}, None).

(** A schedule of the goroutines of a manager with [n] pools. *)
Definition schedule (n : nat) (sched : list nat) : Prop :=
  Permutation sched (seq 0 n).

(** ** Vocabulary of the scrape properties *)

(** What the steps of a scrape before decoding come to, for a pool
    address and a dialer: the error of the step that failed or the
    response body, the calls made on the client library on the way, and
    the deferred calls that run when [Update] returns. *)
Definition fetch (dial : Dialer) (address : string)
  : (error + string) * list Event * list Event :=
  match url.Parse address with
  | inr err => (inl (url_Error err), [], [])
  | inl uri =>
      let network := url.Scheme uri in
      let addr := url.Hostname uri +:+ ":" +:+ url.Port uri in
      let dialled := [ev_DialTimeout network addr (3 * Second)] in
      match dial network addr (3 * Second) with
      | inr err => (inl err, dialled, [])
      | inl fcgi =>
          match Get fcgi env with
          | inr err => (inl err, dialled ++ [ev_Get env], [ev_Close])
          | inl resp =>
              (match ReadAll resp with
               | inr err => inl err
               | inl content => inr content
               end,
               dialled ++ [ev_Get env; ev_ReadAll], [ev_Body_Close; ev_Close])
          end
      end
  end.

(** The pool after [p.error(err)]. *)
Definition failed (p : Pool) (err : error) : Pool :=
  set_ScrapeFailures (Int64.wrap (ScrapeFailures p + 1))
    (set_ScrapeError (Some err) p).

(** The state after a run that left the heap [h], made the logger calls
    [logged] and the client calls [events]. *)
Definition after (st : State) (h : heap) (calls logged : list LogCall)
    (events : list Event) : State :=
  {| st_heap := h; log := Some (calls ++ logged); trace := trace st ++ events |}.

(** The [Debugf] call that reports the body received. *)
Definition body_logged (p : Pool) (content : string) : LogCall :=
  log_Debugf "Pool[%v]: %v" [VString (Address p); VString content].

(** A dialer that connects whatever it is asked and whose client answers
    every request with the body [content]. *)
Definition serve (content : string) : Dialer :=
  fun _ _ _ => inl {| Get := fun _ => inl {| ReadAll := inl content |} |}.

(** A dialer that answers as [net.Dial] does for the name of the network:
    it knows the stream networks and refuses every other name without
    connecting; on a known network it behaves as [serve content]. *)
Definition dial_known_networks (content : string) : Dialer :=
  fun network address timeout =>
    if existsb (String.eqb network) ["tcp"; "tcp4"; "tcp6"; "unix"; "unixpacket"]
    then serve content network address timeout
    else inr (errorString ("dial " +:+ network +:+ ": unknown network " +:+ network)).

(** A dialer that finds nobody listening. *)
Definition refuse : Dialer :=
  fun network address _ =>
    inr (errorString ("dial " +:+ network +:+ " " +:+ address
                      +:+ ": connect: connection refused")).

(** [p'] has the scrape metadata of [p]. *)
Definition same_meta (p p' : Pool) : Prop :=
  Address p' = Address p /\ ScrapeError p' = ScrapeError p
  /\ ScrapeFailures p' = ScrapeFailures p.

(** The scrape got a response body that is a well-formed JSON text, so
    that the decoder went on to store it. *)
Definition body_well_formed (dial : Dialer) (address : string) : bool :=
  match fetch dial address with
  | (inr content, _, _) =>
      match json_parse content with
      | Some _ => true
      | None => false
      end
  | _ => false
  end.

(** A response body whose start time is a string: [timestamp.UnmarshalJSON]
    refuses it after the pool name has been stored. *)
Definition body_with_bad_start_time : string :=
  json_text "{'pool':'other','start time':'x'}".

(** The scenario body of the status page. *)
Definition scenario_body : string :=
  json_text "{'pool':'www','start time':1000000000,'processes':[{'pid':1,'state':'Idle'},{'pid':2,'state':'Running'},{'pid':3,'state':'Zombie'}]}".

(** A state with a logger installed and nothing else. *)
Definition fresh_state : State := {| st_heap := []; log := Some []; trace := [] |}.

(** ** Runs of a manager *)

(** A call on a manager: [Add(uri)], or [Update()] with the dialers, the
    schedule and the elapsed time of that call. *)
Inductive Op :=
| op_Add (uri : string)
| op_Update (dials : nat -> Dialer) (sched : list nat) (elapsed : Z).

Definition run_op (op : Op) (pm : PoolManager) : M PoolManager :=
  match op with
  | op_Add uri => ret (snd (PoolManager_Add uri pm))
  | op_Update dials sched elapsed =>
      let* '(pm', _) := PoolManager_Update dials sched elapsed pm in
      ret pm'
  end.

Fixpoint run (ops : list Op) (pm : PoolManager) : M PoolManager :=
  match ops with
  | [] => ret pm
  | op :: ops' => let* pm' := run_op op pm in run ops' pm'
  end.

(** The schedules of a run are schedules of the manager they meet. *)
Fixpoint schedules_ok (ops : list Op) (n : nat) : Prop :=
  match ops with
  | [] => True
  | op_Add _ :: ops' => schedules_ok ops' (S n)
  | op_Update _ sched _ :: ops' => schedule n sched /\ schedules_ok ops' n
  end.

(** A sequence of scrape attempts on one pool, each with its own dialer:
    the pool after each attempt and the error the attempt returned. *)
Fixpoint history (dials : list Dialer) (p : Pool) : M (list (Pool * option error)) :=
  match dials with
  | [] => ret []
  | dial :: dials' =>
      let* '(p', err) := Pool_Update dial p in
      let* rest := history dials' p' in
      ret ((p', err) :: rest)
  end.

(** Along a history that starts with the counter at [c], a failed attempt
    leaves the counter one higher and any other attempt leaves it as it
    was. *)
Fixpoint counted (c : Z) (hist : list (Pool * option error)) : Prop :=
  match hist with
  | [] => True
  | (p, err) :: rest =>
      ScrapeFailures p = c + (match err with Some _ => 1 | None => 0 end)
      /\ (match err with Some e => ScrapeError p = Some e | None => ScrapeError p = None end)
      /\ counted (ScrapeFailures p) rest
  end.

(** The counters of a history never go down. *)
Fixpoint non_decreasing (c : Z) (hist : list (Pool * option error)) : Prop :=
  match hist with
  | [] => True
  | (p, _) :: rest => c <= ScrapeFailures p /\ non_decreasing (ScrapeFailures p) rest
  end.

(** What a scrape that returned [err] has recorded on the pool: [p] is
    the pool before and [p'] the pool after. *)
Definition recorded (p p' : Pool) (err : option error) : Prop :=
  Address p' = Address p
  /\ ScrapeError p' = err
  /\ ScrapeFailures p'
     = match err with
       | Some _ => Int64.wrap (ScrapeFailures p + 1)
       | None => ScrapeFailures p
       end.

(** ** The step of a scrape that fails *)

(** The error [json.Unmarshal] returns for a response body.  The decoder
    reports an error by the body alone, whatever the pool it decodes into
    holds; the body is decoded here into a pool that holds nothing. *)
Definition decode_error (content : string) : option error :=
  snd (Unmarshal content (Pool_with_Address "") []).

(** What a scrape of [address] through [dial] fails with, read off the
    steps of the scrape and not off what [Update] returns: the error of
    the first of [url.Parse], [DialTimeout], [Get], [ReadAll] and
    [json.Unmarshal] that fails, and [None] when none of them does. *)
Definition scrape_error (dial : Dialer) (address : string) : option error :=
  match fst (fst (fetch dial address)) with
  | inl e => Some e
  | inr content => decode_error content
  end.

(** A history of attempts on the pool at [address], through the dialers
    [dials] and starting with the counter at [c], follows the steps of
    its attempts: each attempt returns the error its steps fail with (nil
    when none fails) and has it as the last error of the pool, and it
    leaves the counter one higher when a step failed and as it was when
    none did. *)
Fixpoint follows_steps (address : string) (c : Z) (dials : list Dialer)
    (hist : list (Pool * option error)) : Prop :=
  match dials, hist with
  | [], [] => True
  | dial :: dials', (p, err) :: rest =>
      err = scrape_error dial address
      /\ Address p = address
      /\ ScrapeError p = scrape_error dial address
      /\ ScrapeFailures p
         = c + (match scrape_error dial address with Some _ => 1 | None => 0 end)
      /\ follows_steps address (ScrapeFailures p) dials' rest
  | _, _ => False
  end.

(** Two pools, the first at an address where nobody listens, and the
    dialers of one [Update]: the first pool is refused, the second gets
    the scenario body. *)
Definition two_pools : PoolManager :=
  snd (PoolManager_Add "tcp://127.0.0.1:9000"
         (snd (PoolManager_Add "tcp://127.0.0.1:1" {| Pools := [] |}))).

Definition first_refused (idx : nat) : Dialer :=
  match idx with
  | O => refuse
  | _ => serve scenario_body
  end.

(** The snapshot of a pool that has never been scraped. *)
Definition zero_snapshot : Snapshot := snapshot [] (Pool_with_Address "").

(** A second body for the pool of the scenario: one process only. *)
Definition second_body : string :=
  json_text "{'processes':[{'pid':7,'state':'Busy'}]}".

(** ** Vocabulary of the decimal texts *)

(** A text of decimal digits only. *)
Definition all_digits (s : string) : bool :=
  forallb strconv.is_digit (list_ascii_of_string s).

(** The number a sign and a magnitude denote. *)
Definition signed (sign : string) (magnitude : Z) : Z :=
  if String.eqb sign "-" then - magnitude else magnitude.

(** ** Vocabulary of the addresses *)

(** A host name of letters, digits, hyphens and dots; a port of digits;
    and the texts made of the characters of both and the colon. *)
Definition host_char (c : ascii) : bool :=
  url.is_alpha c || url.is_num c || url.among c "-.".

Definition host_name (s : string) : bool :=
  forallb host_char (list_ascii_of_string s).

Definition port_number (s : string) : bool :=
  forallb url.is_num (list_ascii_of_string s).

Definition authority_char (c : ascii) : bool :=
  host_char c || Ascii.eqb c ":"%char.

Definition plain_authority (s : string) : bool :=
  forallb authority_char (list_ascii_of_string s).

(** ** Vocabulary of the decoding properties *)

(** A value that is no object. *)
Definition not_an_object (v : json) : bool :=
  match v with
  | JObject _ => false
  | _ => true
  end.

(** What [json.Unmarshal] answers to a well-formed text that is no
    object: nothing for [null], a type error for any other value. *)
Definition not_a_pool (v : json) : option error :=
  match v with
  | JNull => None
  | _ => Some (json_UnmarshalTypeError (json_kind v) "phpfpm.Pool")
  end.

(** A key of ASCII bytes only. *)
Definition ascii_key (key : string) : bool :=
  forallb (fun c => byte c <? 128) (list_ascii_of_string key).

Definition PoolField_index (f : PoolField) : nat :=
  match f with
  | F_Name => 0 | F_ProcessManager => 1 | F_StartTime => 2 | F_StartSince => 3
  | F_AcceptedConnections => 4 | F_ListenQueue => 5 | F_MaxListenQueue => 6
  | F_ListenQueueLength => 7 | F_IdleProcesses => 8 | F_ActiveProcesses => 9
  | F_TotalProcesses => 10 | F_MaxActiveProcesses => 11
  | F_MaxChildrenReached => 12 | F_SlowRequests => 13 | F_Processes => 14
  end.

Definition PoolField_eqb (f g : PoolField) : bool :=
  (PoolField_index f =? PoolField_index g)%nat.

(** The member with the key [key] may be stored in the field [f]: the
    key selects [f].  A key with a byte outside ASCII is counted for
    every field (the decoder folds two letters outside ASCII onto [k]
    and [s]; [EqualFold] above does not). *)
Definition selects (f : PoolField) (key : string) : bool :=
  negb (ascii_key key)
  || match find_field pool_fields key with
     | Some g => PoolField_eqb f g
     | None => false
     end.

(** Some member of the object may be stored in the field [f]. *)
Definition mentions (f : PoolField) (ms : list (string * string * json)) : bool :=
  existsb (fun m => selects f (fst (fst m))) ms.

(** The content of a field of a pool; the process list is read through
    the heap. *)
Inductive field_value :=
| fv_string (s : string)
| fv_time (t : timestamp)
| fv_int (n : Z)
| fv_processes (ps : list PoolProcess).

Definition field (f : PoolField) (h : heap) (p : Pool) : field_value :=
  match f with
  | F_Name => fv_string (Name p)
  | F_ProcessManager => fv_string (ProcessManager p)
  | F_StartTime => fv_time (StartTime p)
  | F_StartSince => fv_int (StartSince p)
  | F_AcceptedConnections => fv_int (AcceptedConnections p)
  | F_ListenQueue => fv_int (ListenQueue p)
  | F_MaxListenQueue => fv_int (MaxListenQueue p)
  | F_ListenQueueLength => fv_int (ListenQueueLength p)
  | F_IdleProcesses => fv_int (IdleProcesses p)
  | F_ActiveProcesses => fv_int (ActiveProcesses p)
  | F_TotalProcesses => fv_int (TotalProcesses p)
  | F_MaxActiveProcesses => fv_int (MaxActiveProcesses p)
  | F_MaxChildrenReached => fv_int (MaxChildrenReached p)
  | F_SlowRequests => fv_int (SlowRequests p)
  | F_Processes => fv_processes (elems h (Processes p))
  end.

(** The error of a decoding that [timestamp.UnmarshalJSON] stopped.  (A
    type error is saved and decoding goes on; the error of an
    [UnmarshalJSON] method ends it.) *)
Definition aborted (err : option error) : bool :=
  match err with
  | Some (strconv_NumError _) => true
  | _ => false
  end.

(** A slice whose length is within the capacity of its array. *)
Definition valid_slice (h : heap) (s : slice) : Prop :=
  (len s <= cap h s)%nat.

(** A pool without its process list: every field but [Processes]. *)
Definition flat (p : Pool) : Pool := set_Processes nil_slice p.

(** What a member stores in a field other than the process list, when
    its value is one the field accepts: a string in a string field, an
    integer literal of the int64 range in an integer field, a text
    [timestamp.UnmarshalJSON] accepts in the start time. *)
Definition decoded (f : PoolField) (raw : string) (v : json) : option field_value :=
  match f with
  | F_Name | F_ProcessManager =>
      match v with
      | JString s => Some (fv_string s)
      | _ => None
      end
  | F_StartTime =>
      match timestamp_UnmarshalJSON raw with
      | inl t => Some (fv_time t)
      | inr _ => None
      end
  | F_Processes => None
  | _ =>
      match v with
      | JNumber lit =>
          match strconv.ParseInt lit with
          | inl n => Some (fv_int n)
          | inr _ => None
          end
      | _ => None
      end
  end.

(** The same vocabulary for the fields of a process. *)
Definition ProcField_index (g : ProcField) : nat :=
  match g with
  | pf_PID => 0 | pf_State => 1 | pf_StartTime => 2 | pf_StartSince => 3
  | pf_Requests => 4 | pf_RequestDuration => 5 | pf_RequestMethod => 6
  | pf_RequestURI => 7 | pf_ContentLength => 8 | pf_User => 9 | pf_Script => 10
  | pf_LastRequestCPU => 11 | pf_LastRequestMemory => 12
  end.

Definition ProcField_eqb (g g' : ProcField) : bool :=
  (ProcField_index g =? ProcField_index g')%nat.

Definition selects_proc (g : ProcField) (key : string) : bool :=
  negb (ascii_key key)
  || match find_field process_fields key with
     | Some g' => ProcField_eqb g g'
     | None => false
     end.

Definition mentions_proc (g : ProcField) (ms : list (string * string * json)) : bool :=
  existsb (fun m => selects_proc g (fst (fst m))) ms.

Inductive proc_value :=
| pv_string (s : string)
| pv_int (n : Z)
| pv_float (x : float64).

Definition proc_field (g : ProcField) (p : PoolProcess) : proc_value :=
  match g with
  | pf_PID => pv_int (Proc.PID p)
  | pf_State => pv_string (Proc.State p)
  | pf_StartTime => pv_int (Proc.StartTime p)
  | pf_StartSince => pv_int (Proc.StartSince p)
  | pf_Requests => pv_int (Proc.Requests p)
  | pf_RequestDuration => pv_int (Proc.RequestDuration p)
  | pf_RequestMethod => pv_string (Proc.RequestMethod p)
  | pf_RequestURI => pv_string (Proc.RequestURI p)
  | pf_ContentLength => pv_int (Proc.ContentLength p)
  | pf_User => pv_string (Proc.User p)
  | pf_Script => pv_string (Proc.Script p)
  | pf_LastRequestCPU => pv_float (Proc.LastRequestCPU p)
  | pf_LastRequestMemory => pv_int (Proc.LastRequestMemory p)
  end.

(** What a member stores in a field of a process when its value is one
    the field accepts. *)
Definition proc_decoded (g : ProcField) (v : json) : option proc_value :=
  match g with
  | pf_State | pf_RequestMethod | pf_RequestURI | pf_User | pf_Script =>
      match v with
      | JString s => Some (pv_string s)
      | _ => None
      end
  | pf_LastRequestCPU =>
      match v with
      | JNumber lit =>
          match ParseFloat lit with
          | Some x => Some (pv_float x)
          | None => None
          end
      | _ => None
      end
  | _ =>
      match v with
      | JNumber lit =>
          match strconv.ParseInt lit with
          | inl n => Some (pv_int n)
          | inr _ => None
          end
      | _ => None
      end
  end.

(** The characters of an authority with an IP literal in brackets. *)
Definition bracket_char (c : ascii) : bool :=
  authority_char c || Ascii.eqb c "["%char || Ascii.eqb c "]"%char.

Definition bracket_authority (s : string) : bool :=
  forallb bracket_char (list_ascii_of_string s).

(** ** Vocabulary of the scoreboard of a body *)

(** An element of the processes array that gives its process a state:
    an object of which [se_key] is the last key that selects the state,
    with a string for its value. *)
Record StateElement := {
  se_before : list (string * string * json);
  se_key : string;
  se_raw : string;
  se_state : string;
  se_after : list (string * string * json)
}.

Definition element_of (e : StateElement) : json :=
  JObject (se_before e ++ (se_key e, se_raw e, JString (se_state e)) :: se_after e).

Definition names_state (e : StateElement) : bool :=
  match find_field process_fields (se_key e) with
  | Some g => ProcField_eqb pf_State g
  | None => false
  end
  && ascii_key (se_key e)
  && negb (mentions_proc pf_State (se_after e)).

(** The number of states of a list that are exactly [s], and the states
    that are neither ["Running"] nor ["Idle"]. *)
Definition count_of (s : string) (states : list string) : Z :=
  Z.of_nat (length (List.filter (fun x => String.eqb x s) states)).

Definition unknown_states (states : list string) : list string :=
  List.filter (fun x => negb (String.eqb x "Running") && negb (String.eqb x "Idle"))
    states.

(** The three elements of the scenario body. *)
Definition scenario_elements : list StateElement :=
  [{| se_before := [("pid", "1", JNumber "1")]; se_key := "state";
      se_raw := json_text "'Idle'"; se_state := "Idle"; se_after := [] |};
   {| se_before := [("pid", "2", JNumber "2")]; se_key := "state";
      se_raw := json_text "'Running'"; se_state := "Running"; se_after := [] |};
   {| se_before := [("pid", "3", JNumber "3")]; se_key := "state";
      se_raw := json_text "'Zombie'"; se_state := "Zombie"; se_after := [] |}].

(** * Properties *)

(** ** Machine integers *)

Lemma Int64_wrap_id (z : Z) : Int64.in_range z -> Int64.wrap z = z.
Proof.
  unfold Int64.in_range, Int64.wrap, Int64.min_int64, Int64.max_int64, Int64.modulus.
  intros H. rewrite Z.mod_small by lia. lia.
Qed.

Lemma Int64_wrap_range (z : Z) : Int64.in_range (Int64.wrap z).
Proof.
  unfold Int64.in_range, Int64.wrap, Int64.min_int64, Int64.max_int64, Int64.modulus.
  pose proof (Z.mod_pos_bound (z + 2 ^ 63) (2 ^ 64) ltac:(lia)). lia.
Qed.

Lemma Int64_wrap_add_wrap_l (a b : Z) :
  Int64.wrap (Int64.wrap a + b) = Int64.wrap (a + b).
Proof.
  unfold Int64.wrap, Int64.modulus.
  replace ((a + 2 ^ 63) mod 2 ^ 64 - 2 ^ 63 + b + 2 ^ 63)
    with ((a + 2 ^ 63) mod 2 ^ 64 + b) by lia.
  rewrite Zplus_mod_idemp_l. f_equal. f_equal. lia.
Qed.

Lemma Int64_wrapu_id (z : Z) : 0 <= z <= Int64.max_uint64 -> Int64.wrapu z = z.
Proof.
  unfold Int64.wrapu, Int64.max_uint64, Int64.modulus. intros H.
  apply Z.mod_small. lia.
Qed.

(** ** Decimal conversions *)

Example Atoi_1000000000 : strconv.Atoi "1000000000" = inl 1000000000.
Proof. reflexivity. Qed.

Example Atoi_min : strconv.Atoi "-9223372036854775808" = inl (- 2 ^ 63).
Proof. reflexivity. Qed.

Example Atoi_over :
  strconv.Atoi "9223372036854775808"
  = inr {| strconv.Func := "Atoi"; strconv.Num := "9223372036854775808";
           strconv.Err := strconv.ErrRange |}.
Proof. reflexivity. Qed.

Example FormatInt_neg : strconv.FormatInt (-42) = "-42".
Proof. reflexivity. Qed.

Example FormatInt_min : strconv.FormatInt (- 2 ^ 63) = "-9223372036854775808".
Proof. reflexivity. Qed.

Example Marshal_zero : timestamp_MarshalJSON time.zero = "-62135596800".
Proof. reflexivity. Qed.

Lemma digit_char_ok (d : Z) :
  0 <= d < 10 ->
  strconv.is_digit (strconv.digit_char d) = true
  /\ strconv.digit_val (strconv.digit_char d) = d.
Proof.
  intros H.
  assert (d = 0 \/ d = 1 \/ d = 2 \/ d = 3 \/ d = 4 \/ d = 5 \/ d = 6
          \/ d = 7 \/ d = 8 \/ d = 9) as Hd by lia.
  repeat (destruct Hd as [-> | Hd]; [split; reflexivity|]).
  subst d. split; reflexivity.
Qed.

Lemma ParseUint_loop_app (s1 s2 : string) (n : Z) :
  strconv.ParseUint_loop (s1 +:+ s2) n
  = match strconv.ParseUint_loop s1 n with
    | (v, None) => strconv.ParseUint_loop s2 v
    | r => r
    end.
Proof.
  revert n. induction s1 as [|c s1 IH]; intros n; simpl; [reflexivity|].
  destruct (negb (strconv.is_digit c)); [reflexivity|].
  destruct (strconv.cutoff <=? n); [reflexivity|].
  destruct (_ || _); [reflexivity|]. apply IH.
Qed.

Lemma ParseUint_loop_digit (n d : Z) :
  0 <= d < 10 -> 0 <= n -> n * 10 + d <= Int64.max_uint64 ->
  strconv.ParseUint_loop (String (strconv.digit_char d) EmptyString) n
  = (n * 10 + d, None).
Proof.
  intros Hd Hn Hmax. simpl.
  destruct (digit_char_ok d Hd) as [-> ->]. simpl.
  unfold Int64.max_uint64 in *.
  assert ((strconv.cutoff <=? n) = false) as ->.
  { apply Z.leb_gt. unfold strconv.cutoff, Int64.max_uint64.
    change (2 ^ 64 - 1) with 18446744073709551615 in *.
    change (18446744073709551615 / 10 + 1) with 1844674407370955162. lia. }
  rewrite (Int64_wrapu_id (n * 10)) by (unfold Int64.max_uint64; lia).
  rewrite (Int64_wrapu_id (n * 10 + d)) by (unfold Int64.max_uint64; lia).
  assert ((n * 10 + d <? n * 10) = false) as -> by (apply Z.ltb_ge; lia).
  assert ((2 ^ 64 - 1 <? n * 10 + d) = false) as -> by (apply Z.ltb_ge; lia).
  reflexivity.
Qed.

Lemma ParseUint_loop_digits (fuel : nat) (u : Z) :
  0 <= u <= Int64.max_uint64 -> u < 10 ^ Z.of_nat fuel -> (1 <= fuel)%nat ->
  strconv.ParseUint_loop (strconv.digits fuel u) 0 = (u, None).
Proof.
  revert u. induction fuel as [|f IH]; intros u Hu Hlt Hf; [lia|].
  cbn [strconv.digits]. destruct (Z.ltb_spec u 10) as [Hs|Hs].
  - rewrite ParseUint_loop_digit by (unfold Int64.max_uint64 in *; lia).
    f_equal.
  - assert (1 <= f)%nat as Hf1.
    { destruct f; [|lia]. simpl in Hlt. lia. }
    pose proof (Z.div_mod u 10 ltac:(lia)) as Hdm.
    pose proof (Z.mod_pos_bound u 10 ltac:(lia)) as Hmod.
    rewrite ParseUint_loop_app, IH; try assumption.
    + rewrite ParseUint_loop_digit; try lia. f_equal. lia.
    + lia.
    + apply Z.div_lt_upper_bound; [lia|].
      rewrite Nat2Z.inj_succ, Z.pow_succ_r in Hlt by lia. lia.
Qed.

Lemma digits_head (f : nat) (u : Z) :
  0 <= u ->
  exists c s, strconv.digits (S f) u = String c s /\ strconv.is_digit c = true.
Proof.
  revert u. induction f as [|f IH]; intros u Hu.
  - cbn [strconv.digits]. destruct (Z.ltb_spec u 10) as [Hs|Hs].
    + eexists _, _. split; [reflexivity|]. apply digit_char_ok. lia.
    + eexists _, _. split; [reflexivity|]. apply digit_char_ok.
      apply Z.mod_pos_bound. lia.
  - remember (S f) as f1. cbn [strconv.digits]. subst f1.
    destruct (Z.ltb_spec u 10) as [Hs|Hs].
    + eexists _, _. split; [reflexivity|]. apply digit_char_ok. lia.
    + destruct (IH (u / 10)) as (c & s & -> & Hc).
      { apply Z.div_pos; lia. }
      eexists _, _. split; [reflexivity|]. exact Hc.
Qed.

Lemma is_digit_not_sign (c : ascii) :
  strconv.is_digit c = true ->
  Ascii.eqb c "+"%char = false /\ Ascii.eqb c "-"%char = false.
Proof.
  intros H. split.
  - destruct (Ascii.eqb_spec c "+"%char) as [->|]; [discriminate H|reflexivity].
  - destruct (Ascii.eqb_spec c "-"%char) as [->|]; [discriminate H|reflexivity].
Qed.

(** Parsing what [FormatInt] printed gives the number back, over the whole
    int64 range. *)
Lemma Atoi_FormatInt (i : Z) :
  Int64.in_range i -> strconv.Atoi (strconv.FormatInt i) = inl i.
Proof.
  unfold Int64.in_range, Int64.min_int64, Int64.max_int64. intros Hi.
  unfold strconv.Atoi, strconv.FormatInt.
  destruct (Z.ltb_spec i 0) as [Hneg|Hpos].
  - rewrite Int64_wrapu_id by (unfold Int64.max_uint64; lia).
    unfold strconv.ParseInt.
    change (Ascii.eqb "-" "-") with true. change (Ascii.eqb "-" "+") with false.
    cbn [orb negb andb].
    destruct (digits_head 19 (- i) ltac:(lia)) as (c & s & Hd & Hc).
    unfold strconv.ParseUint. rewrite Hd, <- Hd.
    rewrite ParseUint_loop_digits; [| unfold Int64.max_uint64; lia | simpl; lia | lia].
    assert ((2 ^ 63 <? - i) = false) as -> by (apply Z.ltb_ge; lia).
    f_equal. destruct (Z.eq_dec i (- 2 ^ 63)) as [->|Hne]; [reflexivity|].
    rewrite (Int64_wrap_id (- i)) by (unfold Int64.in_range, Int64.min_int64, Int64.max_int64; lia).
    rewrite Z.opp_involutive. apply Int64_wrap_id.
    unfold Int64.in_range, Int64.min_int64, Int64.max_int64; lia.
  - rewrite Int64_wrapu_id by (unfold Int64.max_uint64; lia).
    destruct (digits_head 19 i ltac:(lia)) as (c & s & Hd & Hc).
    unfold strconv.ParseInt. rewrite Hd.
    destruct (is_digit_not_sign c Hc) as [-> ->]. cbn [orb negb andb].
    unfold strconv.ParseUint. rewrite <- Hd.
    rewrite ParseUint_loop_digits; [| unfold Int64.max_uint64; lia | simpl; lia | lia].
    assert ((2 ^ 63 <=? i) = false) as -> by (apply Z.leb_gt; lia).
    f_equal. apply Int64_wrap_id.
    unfold Int64.in_range, Int64.min_int64, Int64.max_int64; lia.
Qed.

Lemma ParseInt_range (s : string) (i : Z) :
  strconv.ParseInt s = inl i -> Int64.in_range i.
Proof.
  unfold strconv.ParseInt. destruct s as [|c s']; [discriminate|].
  destruct (strconv.ParseUint _) as [un [[]|]]; try discriminate.
  - destruct (_ && _); [discriminate|]. destruct (_ && _); [discriminate|].
    intros [= <-]. destruct (Ascii.eqb c "-"); apply Int64_wrap_range.
  - destruct (_ && _); [discriminate|]. destruct (_ && _); [discriminate|].
    intros [= <-]. destruct (Ascii.eqb c "-"); apply Int64_wrap_range.
Qed.

Lemma Atoi_range (s : string) (i : Z) :
  strconv.Atoi s = inl i -> Int64.in_range i.
Proof.
  unfold strconv.Atoi. destruct (strconv.ParseInt s) eqn:E; [|discriminate].
  intros [= <-]. eapply ParseInt_range, E.
Qed.

(** ** Time *)

Lemma Time_Unix_Unix (s : Z) :
  Int64.in_range s -> time.Time_Unix (time.Unix s 0) = s.
Proof.
  intros Hs. unfold time.Time_Unix, time.Unix, time.sec. cbn [orb Z.ltb Z.leb Z.compare].
  cbn [time.wall time.ext]. change (Int64.wrapu 0) with 0.
  change (Z.testbit 0 63) with false. cbv iota.
  unfold time.internalToUnix. rewrite Int64_wrap_add_wrap_l.
  rewrite <- (Int64_wrap_id s) at 2 by assumption. f_equal. lia.
Qed.

(** ** The timestamp codec *)

Example Unmarshal_start_time :
  timestamp_UnmarshalJSON "1000000000"
  = inl {| time.wall := 0; time.ext := 63135596800; time.loc := time.loc_Local |}.
Proof. reflexivity. Qed.

Example Unmarshal_null :
  timestamp_UnmarshalJSON "null"
  = inr {| strconv.Func := "Atoi"; strconv.Num := "null";
           strconv.Err := strconv.ErrSyntax |}.
Proof. reflexivity. Qed.

(** C3. Round trip of the timestamp codec: when [UnmarshalJSON] accepts
    the bytes [b] of a start-time field and yields [t], then [b] denotes
    an epoch-seconds integer [ts], [t] is that second, [MarshalJSON]
    prints [t] as the decimal form of [ts], and reading that text back
    gives [ts], and the same timestamp [t], again. *)
Theorem timestamp_roundtrip (b : string) (t : timestamp) :
  timestamp_UnmarshalJSON b = inl t ->
  exists ts : Z,
    strconv.Atoi b = inl ts
    /\ time.Time_Unix t = ts
    /\ timestamp_MarshalJSON t = strconv.FormatInt ts
    /\ strconv.Atoi (timestamp_MarshalJSON t) = inl ts
    /\ timestamp_UnmarshalJSON (timestamp_MarshalJSON t) = inl t.
Proof.
  unfold timestamp_UnmarshalJSON at 1.
  destruct (strconv.Atoi b) as [ts|e] eqn:Hb; [|discriminate].
  intros [= <-]. exists ts.
  pose proof (Atoi_range _ _ Hb) as Hr.
  assert (timestamp_MarshalJSON (time.Unix ts 0) = strconv.FormatInt ts) as HM.
  { unfold timestamp_MarshalJSON. now rewrite Time_Unix_Unix. }
  repeat split.
  - now apply Time_Unix_Unix.
  - exact HM.
  - rewrite HM. now apply Atoi_FormatInt.
  - unfold timestamp_UnmarshalJSON. rewrite HM, Atoi_FormatInt by assumption.
    reflexivity.
Qed.

Lemma timestamp_roundtrip_witness :
  exists ts : Z,
    strconv.Atoi "1000000000" = inl ts
    /\ time.Time_Unix (time.Unix 1000000000 0) = ts
    /\ timestamp_MarshalJSON (time.Unix 1000000000 0) = strconv.FormatInt ts
    /\ strconv.Atoi (timestamp_MarshalJSON (time.Unix 1000000000 0)) = inl ts
    /\ timestamp_UnmarshalJSON (timestamp_MarshalJSON (time.Unix 1000000000 0))
       = inl (time.Unix 1000000000 0).
Proof.
  apply (timestamp_roundtrip "1000000000" (time.Unix 1000000000 0)).
  reflexivity.
Defined.

(** ** The scoreboard *)

Lemma count_state_cons (s : string) (pr : PoolProcess) (ps : list PoolProcess) :
  count_state s (pr :: ps)
  = (if state_is s pr then 1 else 0) + count_state s ps.
Proof.
  unfold count_state. simpl. destruct (state_is s pr); simpl length; lia.
Qed.

Lemma count_state_nonneg (s : string) (ps : list PoolProcess) :
  0 <= count_state s ps.
Proof. unfold count_state. lia. Qed.

Lemma counts_le_length (ps : list PoolProcess) :
  count_state "Running" ps + count_state "Idle" ps <= Z.of_nat (length ps).
Proof.
  induction ps as [|pr ps IH]; [unfold count_state; simpl; lia|].
  rewrite !count_state_cons. unfold state_is.
  destruct (String.eqb_spec (Proc.State pr) "Running") as [E|E].
  - rewrite E. simpl String.eqb. simpl length. lia.
  - destruct (String.eqb (Proc.State pr) "Idle"); simpl length; lia.
Qed.

Lemma counts_eq_length (ps : list PoolProcess) :
  count_state "Running" ps + count_state "Idle" ps = Z.of_nat (length ps)
  <-> Forall (fun pr => Proc.State pr = "Idle" \/ Proc.State pr = "Running") ps.
Proof.
  induction ps as [|pr ps IH].
  - split; [constructor | reflexivity].
  - rewrite !count_state_cons. pose proof (counts_le_length ps) as Hle.
    unfold state_is.
    destruct (String.eqb_spec (Proc.State pr) "Running") as [E|E].
    + rewrite E. simpl String.eqb. simpl length. split.
      * intros H. constructor; [now right|]. apply IH. lia.
      * intros H. inversion H; subst. apply IH in H3. lia.
    + destruct (String.eqb_spec (Proc.State pr) "Idle") as [E'|E'].
      * simpl length. split.
        -- intros H. constructor; [now left|]. apply IH. lia.
        -- intros H. inversion H; subst. apply IH in H3. lia.
      * simpl length. split.
        -- intros H. lia.
        -- intros H. inversion H; subst. tauto.
Qed.

Lemma result_eq {A B S : Type} (x x' : A) (y y' : B) (s s' : S) :
  x = x' -> y = y' -> s = s' -> Some ((x, y), s) = Some ((x', y'), s').
Proof. now intros -> -> ->. Qed.

Lemma scoreboard_loop_spec (ps : list PoolProcess) :
  forall (a0 i0 : Z) (st : State) (calls : list LogCall),
  log st = Some calls ->
  0 <= a0 -> 0 <= i0 ->
  a0 + i0 + Z.of_nat (length ps) <= Int64.max_int64 ->
  scoreboard_loop ps a0 i0 st
  = Some ((a0 + count_state "Running" ps, i0 + count_state "Idle" ps),
          with_log st (calls ++ anomalies ps)).
Proof.
  induction ps as [|pr ps IH]; intros a0 i0 st calls Hlog Ha Hi Hlen.
  - simpl. unfold ret, with_log, anomalies, count_state. simpl.
    rewrite app_nil_r, <- Hlog, !Z.add_0_r. now destruct st.
  - simpl scoreboard_loop. rewrite !count_state_cons.
    unfold anomalies, unknown_state, state_is. simpl List.filter.
    simpl length in Hlen.
    pose proof (counts_le_length ps) as Hle.
    pose proof (count_state_nonneg "Running" ps) as Hr.
    pose proof (count_state_nonneg "Idle" ps) as Hd.
    unfold PoolProcessRequestActive, PoolProcessRequestIdle.
    destruct (String.eqb_spec (Proc.State pr) "Running") as [E|E].
    + rewrite E. simpl String.eqb. simpl negb. simpl andb.
      rewrite Int64_wrap_id
        by (unfold Int64.in_range, Int64.min_int64, Int64.max_int64 in *; lia).
      rewrite (IH _ _ st calls) by (try assumption; lia).
      apply result_eq; [lia | lia | reflexivity].
    + destruct (String.eqb_spec (Proc.State pr) "Idle") as [E'|E'].
      * simpl negb. simpl andb.
        rewrite Int64_wrap_id
          by (unfold Int64.in_range, Int64.min_int64, Int64.max_int64 in *; lia).
        rewrite (IH _ _ st calls) by (try assumption; lia).
        apply result_eq; [lia | lia | reflexivity].
      * simpl negb. simpl andb. unfold bind, log_call. rewrite Hlog.
        rewrite (IH _ _ _ (calls ++ [anomaly pr])) by (simpl; try assumption; try reflexivity; lia).
        unfold with_log, anomalies, unknown_state, state_is. simpl.
        rewrite <- app_assoc. apply result_eq; [lia | lia | reflexivity].
Qed.

Lemma anomalies_length (ps : list PoolProcess) :
  count_state "Running" ps + count_state "Idle" ps
  + Z.of_nat (length (anomalies ps)) = Z.of_nat (length ps).
Proof.
  unfold anomalies. rewrite length_map.
  induction ps as [|pr ps IH]; [reflexivity|].
  rewrite !count_state_cons. simpl List.filter. unfold unknown_state at 1.
  unfold state_is at 1 2 3 4.
  destruct (String.eqb_spec (Proc.State pr) "Running") as [E|E].
  - rewrite E. simpl. lia.
  - destruct (String.eqb (Proc.State pr) "Idle"); simpl; lia.
Qed.

Lemma anomalies_complete (ps : list PoolProcess) (c : LogCall) :
  In c (anomalies ps)
  <-> exists pr, In pr ps /\ Proc.State pr <> "Running"
                 /\ Proc.State pr <> "Idle" /\ c = anomaly pr.
Proof.
  unfold anomalies. rewrite in_map_iff. split.
  - intros (pr & <- & Hin). apply filter_In in Hin as [Hin Hu].
    exists pr. unfold unknown_state, state_is in Hu.
    apply andb_true_iff in Hu as [H1 H2].
    apply negb_true_iff in H1, H2. apply String.eqb_neq in H1, H2. tauto.
  - intros (pr & Hin & H1 & H2 & ->). exists pr. split; [reflexivity|].
    apply filter_In. split; [assumption|]. unfold unknown_state, state_is.
    apply String.eqb_neq in H1, H2. now rewrite H1, H2.
Qed.

(** Without a logger, the first process in an unknown state makes the
    call panic. *)
Lemma scoreboard_nil_logger (p : Pool) (st : State) :
  log st = None ->
  anomalies (elems (st_heap st) (Processes p)) <> [] ->
  CalculateProcessScoreboard p st = None.
Proof.
  intros Hlog. unfold CalculateProcessScoreboard, bind, get_heap.
  generalize (elems (st_heap st) (Processes p)) as ps.
  intros ps Han.
  assert (forall a i, scoreboard_loop ps a i st = None) as ->; [|reflexivity].
  induction ps as [|pr ps IH]; intros a i; [now destruct Han|].
  simpl. unfold anomalies, unknown_state, state_is in Han. simpl in Han.
  unfold PoolProcessRequestActive, PoolProcessRequestIdle.
  destruct (String.eqb (Proc.State pr) "Running"); simpl in Han; [now apply IH|].
  destruct (String.eqb (Proc.State pr) "Idle"); simpl in Han; [now apply IH|].
  unfold bind, log_call. now rewrite Hlog.
Qed.

(** C2. With a logger installed, [CalculateProcessScoreboard] returns
    [(active, idle, total)] where [active] counts the processes whose
    state is exactly ["Running"], [idle] those whose state is exactly
    ["Idle"], [total = active + idle <= len(processes)], with equality
    iff every state is ["Idle"] or ["Running"]; a process in any other
    state is counted in neither, and the logger receives one [Errorf]
    call for each such process, in order, and nothing else. *)
Theorem CalculateProcessScoreboard_spec (p : Pool) (st : State) (calls : list LogCall) :
  log st = Some calls ->
  Z.of_nat (length (elems (st_heap st) (Processes p))) <= Int64.max_int64 ->
  exists active idle total : Z,
    CalculateProcessScoreboard p st
    = Some ((active, idle, total),
            with_log st (calls ++ anomalies (elems (st_heap st) (Processes p))))
    /\ active = count_state "Running" (elems (st_heap st) (Processes p))
    /\ idle = count_state "Idle" (elems (st_heap st) (Processes p))
    /\ total = active + idle
    /\ active + idle <= Z.of_nat (length (elems (st_heap st) (Processes p)))
    /\ (active + idle = Z.of_nat (length (elems (st_heap st) (Processes p)))
        <-> Forall (fun pr => Proc.State pr = "Idle" \/ Proc.State pr = "Running")
                   (elems (st_heap st) (Processes p)))
    /\ active + idle
       + Z.of_nat (length (anomalies (elems (st_heap st) (Processes p))))
       = Z.of_nat (length (elems (st_heap st) (Processes p)))
    /\ (forall c, In c (anomalies (elems (st_heap st) (Processes p)))
        <-> exists pr, In pr (elems (st_heap st) (Processes p))
                       /\ Proc.State pr <> "Running"
                       /\ Proc.State pr <> "Idle" /\ c = anomaly pr).
Proof.
  intros Hlog Hlen. set (ps := elems (st_heap st) (Processes p)) in *.
  pose proof (counts_le_length ps) as Hle.
  pose proof (count_state_nonneg "Running" ps) as Hr.
  pose proof (count_state_nonneg "Idle" ps) as Hd.
  exists (count_state "Running" ps), (count_state "Idle" ps),
         (count_state "Running" ps + count_state "Idle" ps).
  split; [|repeat split; try reflexivity; try assumption].
  - unfold CalculateProcessScoreboard, bind, get_heap. fold ps.
    rewrite (scoreboard_loop_spec ps 0 0 st calls) by (try assumption; lia).
    rewrite !Z.add_0_l. unfold ret.
    rewrite Int64_wrap_id
      by (unfold Int64.in_range, Int64.min_int64, Int64.max_int64 in *; lia).
    reflexivity.
  - apply counts_eq_length.
  - apply counts_eq_length.
  - apply anomalies_length.
  - apply anomalies_complete.
  - apply anomalies_complete.
Qed.

Lemma CalculateProcessScoreboard_spec_witness :
  CalculateProcessScoreboard pool_of_three state_of_three
  = Some ((1, 1, 2),
          with_log state_of_three
            [log_Errorf "Unknown process state '%v'" [VString "Zombie"]]).
Proof.
  destruct (CalculateProcessScoreboard_spec pool_of_three state_of_three [])
    as (active & idle & total & Hrun & -> & -> & -> & _).
  - reflexivity.
  - vm_compute. discriminate.
  - exact Hrun.
Defined.

(** ** Decoding leaves the scrape metadata alone *)

Lemma same_meta_refl (p : Pool) : same_meta p p.
Proof. repeat split. Qed.

Lemma same_meta_trans (p q r : Pool) : same_meta p q -> same_meta q r -> same_meta p r.
Proof. unfold same_meta. intros (A & B & C) (D & E & F). repeat split; congruence. Qed.

Lemma store_pool_field_meta f raw v p h saved p' h' sv stop :
  store_pool_field f raw v p h saved = (p', h', sv, stop) -> same_meta p p'.
Proof.
  unfold store_pool_field.
  destruct f;
    repeat match goal with
           | |- context [store_int ?a ?b ?c ?d] => destruct (store_int a b c d)
           | |- context [store_string ?a ?b ?c] => destruct (store_string a b c)
           | |- context [timestamp_UnmarshalJSON ?a] => destruct (timestamp_UnmarshalJSON a)
           | |- context [store_processes ?a ?b ?c ?d] => destruct (store_processes a b c d) as [[? ?] ?]
           end;
    intros [= <- <- <- <-]; repeat split.
Qed.

Lemma store_pool_members_meta ms : forall p h saved p' h' sv stop,
  store_pool_members ms p h saved = (p', h', sv, stop) -> same_meta p p'.
Proof.
  induction ms as [|[[key raw] v] ms IH]; intros p h saved p' h' sv stop; simpl.
  - intros [= <- <- <- <-]. apply same_meta_refl.
  - destruct (find_field pool_fields key) as [f|]; [|apply IH].
    destruct (store_pool_field f raw v p h saved) as [[[p1 h1] sv1] [e|]] eqn:E.
    + intros [= <- <- <- <-]. eapply store_pool_field_meta, E.
    + intros H. eapply same_meta_trans; [eapply store_pool_field_meta, E|].
      eapply IH, H.
Qed.

(** [json.Unmarshal] never writes the fields tagged [json:"-"]. *)
Lemma Unmarshal_meta data p h p' h' err :
  Unmarshal data p h = (p', h', err) -> same_meta p p'.
Proof.
  unfold Unmarshal. destruct (json_parse data) as [[]|].
  all: try (intros [= <- <- <-]; apply same_meta_refl).
  destruct (store_pool_members members p h None) as [[[p1 h1] sv1] [e|]] eqn:E;
    intros [= <- <- <-]; eapply store_pool_members_meta, E.
Qed.

(** A text that is not well formed is refused before anything is stored. *)
Lemma Unmarshal_syntax data p h :
  json_parse data = None -> Unmarshal data p h = (p, h, Some json_SyntaxError).
Proof. unfold Unmarshal. now intros ->. Qed.

(** ** Pool.error and Pool.Update, step by step *)

Lemma Pool_error_run p err st calls :
  log st = Some calls ->
  Pool_error p err st
  = Some ((failed p err, Some err),
          after st (st_heap st) calls [log_Error [VError err]] []).
Proof.
  intros Hlog. unfold Pool_error, bind, log_call, ret, after. rewrite Hlog.
  simpl. now rewrite app_nil_r.
Qed.

Lemma Pool_error_nil_logger p err st :
  log st = None -> Pool_error p err st = None.
Proof. intros Hlog. unfold Pool_error, bind, log_call. now rewrite Hlog. Qed.

(** A scrape that fails before decoding. *)
Lemma Pool_Update_fetch_failed dial p st calls e evs closes :
  log st = Some calls ->
  fetch dial (Address p) = (inl e, evs, closes) ->
  Pool_Update dial p st
  = Some ((failed p e, Some e),
          after st (st_heap st) calls [log_Error [VError e]] (evs ++ closes)).
Proof.
  intros Hlog. unfold fetch, Pool_Update. cbv zeta.
  change (Address (set_ScrapeError None p)) with (Address p).
  destruct (url.Parse (Address p)) as [uri|uerr].
  - destruct (dial _ _ _) as [fcgi|derr].
    + destruct (Get fcgi env) as [resp|gerr].
      * destruct (ReadAll resp) as [content|rerr] eqn:Hread; intros [= <- <- <-].
        unfold defer, bind, emit, ret. simpl.
        unfold Pool_error, bind, log_call, ret. simpl. rewrite Hlog. simpl.
        unfold after. simpl. rewrite <- ?app_assoc, ?app_nil_r. reflexivity.
      * intros [= <- <- <-].
        unfold defer, bind, emit, ret. simpl.
        unfold Pool_error, bind, log_call, ret. simpl. rewrite Hlog. simpl.
        unfold after. simpl. rewrite <- ?app_assoc, ?app_nil_r. reflexivity.
    + intros [= <- <- <-].
      unfold defer, bind, emit, ret. simpl.
      unfold Pool_error, bind, log_call, ret. simpl. rewrite Hlog. simpl.
      unfold after. simpl. rewrite <- ?app_assoc, ?app_nil_r. reflexivity.
  - intros [= <- <- <-]. rewrite (Pool_error_run _ _ _ calls Hlog).
    unfold after. simpl. reflexivity.
Qed.

(** A scrape that gets a response body: the body is logged and decoded
    into the pool; [p.error] follows when decoding reports an error. *)
Lemma Pool_Update_fetched dial p st calls content evs closes p1 h1 err :
  log st = Some calls ->
  fetch dial (Address p) = (inr content, evs, closes) ->
  Unmarshal content (set_ScrapeError None p) (st_heap st) = (p1, h1, err) ->
  Pool_Update dial p st
  = Some ((match err with Some e => failed p1 e | None => p1 end, err),
          after st h1 calls
            (body_logged p content
             :: match err with
                | Some e => [log_Error [VError e]]
                | None => []
                end)
            (evs ++ closes)).
Proof.
  intros Hlog. unfold fetch, Pool_Update. cbv zeta.
  change (Address (set_ScrapeError None p)) with (Address p).
  destruct (url.Parse (Address p)) as [uri|uerr]; [|discriminate].
  destruct (dial _ _ _) as [fcgi|derr]; [|discriminate].
  destruct (Get fcgi env) as [resp|gerr]; [|discriminate].
  destruct (ReadAll resp) as [c|rerr] eqn:Hread; [|discriminate].
  intros [= <- <- <-] HU.
  unfold defer, bind, emit, ret. simpl.
  unfold log_call. simpl. rewrite Hlog.
  unfold json_Unmarshal, bind, get_heap, put_heap, ret. simpl. rewrite HU.
  destruct err as [e|].
  - unfold Pool_error, bind, log_call, ret. simpl.
    unfold after, body_logged. simpl. rewrite <- ?app_assoc, ?app_nil_r. reflexivity.
  - unfold after, body_logged. simpl. rewrite <- ?app_assoc, ?app_nil_r. reflexivity.
Qed.

(** Without a logger every scrape panics: each path through [Update]
    calls a method of [log]. *)
Lemma Pool_Update_nil_logger dial p st :
  log st = None -> Pool_Update dial p st = None.
Proof.
  intros Hlog. unfold Pool_Update. cbv zeta.
  destruct (url.Parse _) as [uri|uerr]; [|now apply Pool_error_nil_logger].
  unfold bind at 1. unfold emit at 1. cbv beta iota.
  destruct (dial _ _ _) as [fcgi|derr]; [|now apply Pool_error_nil_logger].
  unfold defer, bind, emit. cbv beta iota.
  destruct (Get fcgi env) as [resp|gerr];
    [|now rewrite Pool_error_nil_logger].
  destruct (ReadAll resp) as [content|rerr];
    [|now rewrite Pool_error_nil_logger].
  unfold log_call. simpl. now rewrite Hlog.
Qed.

(** With a logger installed, a scrape always returns; what it returns is
    fixed by [fetch] and, when a body was received, by [Unmarshal]. *)
Lemma Pool_Update_cases dial p st calls :
  log st = Some calls ->
  (exists e evs closes,
      fetch dial (Address p) = (inl e, evs, closes)
      /\ Pool_Update dial p st
         = Some ((failed p e, Some e),
                 after st (st_heap st) calls [log_Error [VError e]] (evs ++ closes)))
  \/ (exists content evs closes p1 h1 err,
      fetch dial (Address p) = (inr content, evs, closes)
      /\ Unmarshal content (set_ScrapeError None p) (st_heap st) = (p1, h1, err)
      /\ Pool_Update dial p st
         = Some ((match err with Some e => failed p1 e | None => p1 end, err),
                 after st h1 calls
                   (body_logged p content
                    :: match err with
                       | Some e => [log_Error [VError e]]
                       | None => []
                       end)
                   (evs ++ closes))).
Proof.
  intros Hlog.
  destruct (fetch dial (Address p)) as [[[e|content] evs] closes] eqn:Hf.
  - left. exists e, evs, closes. split; [reflexivity|].
    now apply Pool_Update_fetch_failed.
  - right.
    destruct (Unmarshal content (set_ScrapeError None p) (st_heap st))
      as [[p1 h1] err] eqn:HU.
    exists content, evs, closes, p1, h1, err.
    split; [reflexivity|]. split; [exact HU|].
    eapply Pool_Update_fetched; eassumption.
Qed.

Lemma failed_meta p e :
  Address (failed p e) = Address p /\ ScrapeError (failed p e) = Some e
  /\ ScrapeFailures (failed p e) = Int64.wrap (ScrapeFailures p + 1).
Proof. repeat split. Qed.

Lemma failed_snapshot h p e : snapshot h (failed p e) = snapshot h p.
Proof. reflexivity. Qed.

Lemma wrap_succ (n : Z) :
  Int64.min_int64 <= n < Int64.max_int64 -> Int64.wrap (n + 1) = n + 1.
Proof.
  intros H. apply Int64_wrap_id. unfold Int64.in_range. lia.
Qed.

(** C1, as the code has it.  With a logger installed and the failure
    counter below its maximum, a scrape returns, and what it returns and
    leaves on the pool is fixed by the step that fails.  When
    [url.Parse], [DialTimeout], [Get] or [ReadAll] fails with [e], the
    scrape returns [e] and the pool is the pool before with [e]
    recorded: the address is unchanged, the last error is [e], the
    counter is one higher, and every snapshot field, the process list
    and the heap of process arrays are as before.  When [json.Unmarshal]
    fails with [e] on the body received, having left the pool [p1], the
    scrape returns [e] and the pool is [p1] with [e] recorded: the
    address is unchanged, the last error is [e], the counter is one
    higher, and the snapshot is that of [p1], so that the fields stored
    before the failure keep their new values; when the body is not
    well-formed JSON nothing was stored, and the snapshot and the heap
    are as before the attempt.  When no step fails the scrape returns
    nil.  So whenever the scrape returns an error [e], the address is
    unchanged, the last error is [e] and the counter is one higher; and
    unless the error comes from storing a well-formed response body,
    every snapshot field, the process list and the heap of process
    arrays are as before. *)
Theorem Pool_Update_failure_frame dial p st calls :
  log st = Some calls ->
  Int64.min_int64 <= ScrapeFailures p < Int64.max_int64 ->
  exists p' err st',
    Pool_Update dial p st = Some ((p', err), st')
    /\ (forall e evs closes,
          fetch dial (Address p) = (inl e, evs, closes) ->
          err = Some e
          /\ p' = failed p e
          /\ Address p' = Address p
          /\ ScrapeError p' = Some e
          /\ ScrapeFailures p' = ScrapeFailures p + 1
          /\ st_heap st' = st_heap st
          /\ snapshot (st_heap st') p' = snapshot (st_heap st) p)
    /\ (forall content evs closes p1 h1 e,
          fetch dial (Address p) = (inr content, evs, closes) ->
          Unmarshal content (set_ScrapeError None p) (st_heap st)
          = (p1, h1, Some e) ->
          err = Some e
          /\ p' = failed p1 e
          /\ Address p' = Address p
          /\ ScrapeError p' = Some e
          /\ ScrapeFailures p' = ScrapeFailures p + 1
          /\ st_heap st' = h1
          /\ snapshot (st_heap st') p' = snapshot h1 p1
          /\ (json_parse content = None ->
              st_heap st' = st_heap st
              /\ snapshot (st_heap st') p' = snapshot (st_heap st) p))
    /\ (forall content evs closes p1 h1,
          fetch dial (Address p) = (inr content, evs, closes) ->
          Unmarshal content (set_ScrapeError None p) (st_heap st)
          = (p1, h1, None) ->
          err = None)
    /\ forall e, err = Some e ->
         Address p' = Address p
         /\ ScrapeError p' = Some e
         /\ ScrapeFailures p' = ScrapeFailures p + 1
         /\ (body_well_formed dial (Address p) = false ->
             st_heap st' = st_heap st
             /\ snapshot (st_heap st') p' = snapshot (st_heap st) p).
Proof.
  intros Hlog Hrange.
  destruct (Pool_Update_cases dial p st calls Hlog)
    as [(e & evs & closes & Hf & Hrun)
       |(content & evs & closes & p1 & h1 & err & Hf & HU & Hrun)].
  - eexists _, _, _. split; [exact Hrun|].
    assert (ScrapeFailures (failed p e) = ScrapeFailures p + 1) as Hcount
      by (simpl; now apply wrap_succ).
    split; [|split; [|split]].
    + intros e0 evs0 closes0 Hf0. rewrite Hf in Hf0. injection Hf0 as <- _ _.
      repeat split. exact Hcount.
    + intros content0 evs0 closes0 p1 h1 e0 Hf0. rewrite Hf in Hf0. discriminate Hf0.
    + intros content0 evs0 closes0 p1 h1 Hf0. rewrite Hf in Hf0. discriminate Hf0.
    + intros e' [= <-]. repeat split. exact Hcount.
  - destruct (Unmarshal_meta _ _ _ _ _ _ HU) as (HA & HE & HF).
    simpl in HA, HF.
    destruct err as [e'|].
    + eexists _, _, _. split; [exact Hrun|].
      assert (ScrapeFailures (failed p1 e') = ScrapeFailures p + 1) as Hcount
        by (simpl; rewrite HF; now apply wrap_succ).
      assert (json_parse content = None ->
              h1 = st_heap st
              /\ snapshot h1 (failed p1 e') = snapshot (st_heap st) p) as Hsyntax.
      { intros Hp. rewrite (Unmarshal_syntax _ _ _ Hp) in HU.
        injection HU as <- <-. split; reflexivity. }
      split; [|split; [|split]].
      * intros e0 evs0 closes0 Hf0. rewrite Hf in Hf0. discriminate Hf0.
      * intros content0 evs0 closes0 p2 h2 e0 Hf0 HU0.
        rewrite Hf in Hf0. injection Hf0 as <- _ _.
        rewrite HU in HU0. injection HU0 as <- <- <-.
        split; [reflexivity|]. split; [reflexivity|]. split; [exact HA|].
        split; [reflexivity|]. split; [exact Hcount|]. split; [reflexivity|].
        split; [reflexivity|]. exact Hsyntax.
      * intros content0 evs0 closes0 p2 h2 Hf0 HU0.
        rewrite Hf in Hf0. injection Hf0 as <- _ _.
        rewrite HU in HU0. discriminate HU0.
      * intros e [= <-].
        split; [exact HA|]. split; [reflexivity|]. split; [exact Hcount|].
        intros Hwf. unfold body_well_formed in Hwf. rewrite Hf in Hwf.
        destruct (json_parse content) eqn:Hp; [discriminate|].
        now apply Hsyntax.
    + eexists _, _, _. split; [exact Hrun|].
      split; [|split; [|split]].
      * intros e0 evs0 closes0 Hf0. rewrite Hf in Hf0. discriminate Hf0.
      * intros content0 evs0 closes0 p2 h2 e0 Hf0 HU0.
        rewrite Hf in Hf0. injection Hf0 as <- _ _.
        rewrite HU in HU0. discriminate HU0.
      * reflexivity.
      * intros e [=].
Qed.

Lemma Pool_Update_failure_frame_witness :
  exists p' err st',
    Pool_Update refuse pool_of_three state_of_three = Some ((p', err), st')
    /\ (forall e evs closes,
          fetch refuse (Address pool_of_three) = (inl e, evs, closes) ->
          err = Some e
          /\ p' = failed pool_of_three e
          /\ Address p' = Address pool_of_three
          /\ ScrapeError p' = Some e
          /\ ScrapeFailures p' = ScrapeFailures pool_of_three + 1
          /\ st_heap st' = st_heap state_of_three
          /\ snapshot (st_heap st') p'
             = snapshot (st_heap state_of_three) pool_of_three)
    /\ (forall content evs closes p1 h1 e,
          fetch refuse (Address pool_of_three) = (inr content, evs, closes) ->
          Unmarshal content (set_ScrapeError None pool_of_three)
            (st_heap state_of_three)
          = (p1, h1, Some e) ->
          err = Some e
          /\ p' = failed p1 e
          /\ Address p' = Address pool_of_three
          /\ ScrapeError p' = Some e
          /\ ScrapeFailures p' = ScrapeFailures pool_of_three + 1
          /\ st_heap st' = h1
          /\ snapshot (st_heap st') p' = snapshot h1 p1
          /\ (json_parse content = None ->
              st_heap st' = st_heap state_of_three
              /\ snapshot (st_heap st') p'
                 = snapshot (st_heap state_of_three) pool_of_three))
    /\ (forall content evs closes p1 h1,
          fetch refuse (Address pool_of_three) = (inr content, evs, closes) ->
          Unmarshal content (set_ScrapeError None pool_of_three)
            (st_heap state_of_three)
          = (p1, h1, None) ->
          err = None)
    /\ forall e, err = Some e ->
         Address p' = Address pool_of_three
         /\ ScrapeError p' = Some e
         /\ ScrapeFailures p' = ScrapeFailures pool_of_three + 1
         /\ (body_well_formed refuse (Address pool_of_three) = false ->
             st_heap st' = st_heap state_of_three
             /\ snapshot (st_heap st') p'
                = snapshot (st_heap state_of_three) pool_of_three).
Proof.
  apply (Pool_Update_failure_frame refuse pool_of_three state_of_three []).
  - reflexivity.
  - unfold Int64.min_int64, Int64.max_int64. simpl. lia.
Defined.

(** The refused connection of the witness is a failed attempt: the
    snapshot is kept, the error recorded, the counter goes from 0 to 1. *)
Example Pool_Update_refused :
  exists p' e st',
    Pool_Update refuse pool_of_three state_of_three = Some ((p', Some e), st')
    /\ snapshot (st_heap st') p' = snapshot (st_heap state_of_three) pool_of_three
    /\ ScrapeError p' = Some e /\ ScrapeFailures p' = 1
    /\ trace st' = [ev_DialTimeout "tcp" "127.0.0.1:9000" 3000000000].
Proof. eexists _, _, _. vm_compute. repeat split. Qed.

(** C1, as stated, fails: a scrape whose response body is well formed
    but has a start time that [timestamp.UnmarshalJSON] refuses returns
    an error after the pool name has been overwritten. *)
Lemma Pool_Update_failure_overwrites :
  exists p' e st',
    Pool_Update (serve body_with_bad_start_time) pool_of_three state_of_three
    = Some ((p', Some e), st')
    /\ Name pool_of_three = "www" /\ Name p' = "other"
    /\ snapshot (st_heap st') p' <> snapshot (st_heap state_of_three) pool_of_three.
Proof.
  eexists _, _, _. split; [vm_compute; reflexivity|].
  split; [reflexivity|]. split; [reflexivity|].
  intros H. apply (f_equal snap_Name) in H. vm_compute in H. discriminate H.
Qed.

(** C5. When a scrape returns without error, the last error of the pool
    is nil and its failure counter is what it was before the attempt. *)
Theorem Pool_Update_success dial p st p' st' :
  Pool_Update dial p st = Some ((p', None), st') ->
  ScrapeError p' = None /\ ScrapeFailures p' = ScrapeFailures p.
Proof.
  intros Hrun. destruct (log st) as [calls|] eqn:Hlog.
  - destruct (Pool_Update_cases dial p st calls Hlog)
      as [(e & evs & closes & Hf & Hrun')
         |(content & evs & closes & p1 & h1 & err & Hf & HU & Hrun')];
      rewrite Hrun' in Hrun.
    + discriminate Hrun.
    + destruct err as [e|]; [discriminate Hrun|]. injection Hrun as <- _.
      destruct (Unmarshal_meta _ _ _ _ _ _ HU) as (HA & HE & HF). now split.
  - rewrite Pool_Update_nil_logger in Hrun by assumption. discriminate Hrun.
Qed.

Lemma Pool_Update_success_witness :
  exists p' st',
    Pool_Update (serve scenario_body) pool_of_three state_of_three
    = Some ((p', None), st')
    /\ ScrapeError p' = None
    /\ ScrapeFailures p' = ScrapeFailures pool_of_three.
Proof.
  eexists _, _. split; [vm_compute; reflexivity|].
  eapply (Pool_Update_success (serve scenario_body) pool_of_three state_of_three).
  vm_compute. reflexivity.
Defined.

(** ** The address of a pool *)

Lemma fetch_parse_error dial a uerr :
  url.Parse a = inr uerr -> fetch dial a = (inl (url_Error uerr), [], []).
Proof. unfold fetch. now intros ->. Qed.

Lemma fetch_parsed dial a uri :
  url.Parse a = inl uri ->
  exists out rest closes,
    fetch dial a
    = (out,
       ev_DialTimeout (url.Scheme uri)
         (url.Hostname uri +:+ ":" +:+ url.Port uri) (3 * Second) :: rest,
       closes).
Proof.
  unfold fetch. intros ->.
  destruct (dial _ _ _) as [fcgi|derr]; [|now eexists _, _, _].
  destruct (Get fcgi env) as [resp|gerr]; now eexists _, _, _.
Qed.

(** An address that [url.Parse] refuses: the scrape fails with that
    error and the trace of calls is what it was. *)
Lemma Pool_Update_parse_refused dial p st calls uerr :
  log st = Some calls ->
  url.Parse (Address p) = inr uerr ->
  exists st',
    Pool_Update dial p st
    = Some ((failed p (url_Error uerr), Some (url_Error uerr)), st')
    /\ trace st' = trace st.
Proof.
  intros Hlog HP.
  destruct (Pool_Update_cases dial p st calls Hlog)
    as [(e & evs & closes & Hf & Hrun)
       |(content & evs & closes & p1 & h1 & err & Hf & HU & Hrun)];
    rewrite (fetch_parse_error dial _ _ HP) in Hf; [|discriminate Hf].
  injection Hf as <- <- <-.
  eexists. split; [exact Hrun|].
  unfold after. simpl. now rewrite app_nil_r.
Qed.

(** An address that [url.Parse] accepts: the first call of the scrape is
    [DialTimeout] on the scheme, host name and port of the URL. *)
Lemma Pool_Update_parse_accepted dial p st calls uri :
  log st = Some calls ->
  url.Parse (Address p) = inl uri ->
  exists p' err st' rest,
    Pool_Update dial p st = Some ((p', err), st')
    /\ trace st'
       = trace st
         ++ ev_DialTimeout (url.Scheme uri)
              (url.Hostname uri +:+ ":" +:+ url.Port uri) (3 * Second)
            :: rest.
Proof.
  intros Hlog HP.
  destruct (fetch_parsed dial _ _ HP) as (out & rest & closes' & Hf').
  destruct (Pool_Update_cases dial p st calls Hlog)
    as [(e & evs & closes & Hf & Hrun)
       |(content & evs & closes & p1 & h1 & err & Hf & HU & Hrun)];
    rewrite Hf' in Hf; injection Hf as _ <- _;
    eexists _, _, _, _; (split; [exact Hrun|]);
    unfold after; simpl; reflexivity.
Qed.

(** C6, as the code has it.  With a logger installed a scrape returns.
    When [url.Parse] refuses the address, the scrape fails with that
    error and makes no call on the FastCGI client.  When [url.Parse]
    accepts the address, whatever its scheme, the first call made is
    [DialTimeout] with the scheme as the network, the host name and port
    joined by a colon as the address and a timeout of three seconds. *)
Theorem Pool_Update_address dial p st calls :
  log st = Some calls ->
  exists p' err st',
    Pool_Update dial p st = Some ((p', err), st')
    /\ match url.Parse (Address p) with
       | inr uerr =>
           err = Some (url_Error uerr)
           /\ p' = failed p (url_Error uerr)
           /\ trace st' = trace st
       | inl uri =>
           exists rest,
             trace st'
             = trace st
               ++ ev_DialTimeout (url.Scheme uri)
                    (url.Hostname uri +:+ ":" +:+ url.Port uri) (3 * Second)
                  :: rest
       end.
Proof.
  intros Hlog.
  destruct (url.Parse (Address p)) as [uri|uerr] eqn:HP.
  - destruct (Pool_Update_parse_accepted dial p st calls uri Hlog HP)
      as (p' & err & st' & rest & Hrun & Htrace).
    exists p', err, st'. split; [exact Hrun|]. now exists rest.
  - destruct (Pool_Update_parse_refused dial p st calls uerr Hlog HP)
      as (st' & Hrun & Htrace).
    exists (failed p (url_Error uerr)), (Some (url_Error uerr)), st'.
    split; [exact Hrun|]. split; [reflexivity|]. split; [reflexivity|].
    exact Htrace.
Qed.

Lemma Pool_Update_address_witness :
  exists p' err st',
    Pool_Update refuse (Pool_with_Address "tcp://host:port") fresh_state
    = Some ((p', err), st')
    /\ match url.Parse (Address (Pool_with_Address "tcp://host:port")) with
       | inr uerr =>
           err = Some (url_Error uerr)
           /\ p' = failed (Pool_with_Address "tcp://host:port") (url_Error uerr)
           /\ trace st' = trace fresh_state
       | inl uri =>
           exists rest,
             trace st'
             = trace fresh_state
               ++ ev_DialTimeout (url.Scheme uri)
                    (url.Hostname uri +:+ ":" +:+ url.Port uri) (3 * Second)
                  :: rest
       end.
Proof.
  apply (Pool_Update_address refuse (Pool_with_Address "tcp://host:port")
           fresh_state []).
  reflexivity.
Defined.

(** An address that [url.Parse] refuses: the scrape fails with the error
    of [url.Parse] and nothing is dialled. *)
Example Pool_Update_bad_address :
  Pool_Update refuse (Pool_with_Address "tcp://host:port") fresh_state
  = Some ((failed (Pool_with_Address "tcp://host:port")
             (url_Error {| url.Op := "parse"; url.URL_ := "tcp://host:port";
                           url.Err_ := url.invalid_port ":port" |}),
           Some (url_Error {| url.Op := "parse"; url.URL_ := "tcp://host:port";
                              url.Err_ := url.invalid_port ":port" |})),
          {| st_heap := [];
             log := Some [log_Error
                            [VError (url_Error
                               {| url.Op := "parse"; url.URL_ := "tcp://host:port";
                                  url.Err_ := url.invalid_port ":port" |})]];
             trace := [] |}).
Proof. reflexivity. Qed.

(** C6, as stated, fails: for an address with the scheme [http], which
    [url.Parse] accepts, the scrape calls [DialTimeout] with the network
    [http]; the error it records is the one of the dialer, no address
    error. *)
Lemma unsupported_scheme_is_dialled :
  exists p' st',
    Pool_Update (dial_known_networks scenario_body)
      (Pool_with_Address "http://127.0.0.1:9000") fresh_state
    = Some ((p', Some (errorString "dial http: unknown network http")), st')
    /\ trace st' = [ev_DialTimeout "http" "127.0.0.1:9000" 3000000000].
Proof. eexists _, _. split; vm_compute; reflexivity. Qed.

(** C7: what the code does at [unix:///tmp/php-fpm.sock].  Whatever the
    dialer answers, the scrape asks it for the network [unix] and the
    address [:], the empty host name and port of the URL joined by a
    colon, and not for the socket path. *)
Theorem unix_socket_path_not_dialled dial st calls :
  log st = Some calls ->
  exists p' err st' rest,
    Pool_Update dial (Pool_with_Address "unix:///tmp/php-fpm.sock") st
    = Some ((p', err), st')
    /\ trace st' = trace st ++ ev_DialTimeout "unix" ":" (3 * Second) :: rest.
Proof.
  intros Hlog.
  assert (url.Parse (Address (Pool_with_Address "unix:///tmp/php-fpm.sock"))
          = inl {| url.Scheme := "unix"; url.Opaque := ""; url.User := None;
                   url.Host := ""; url.Path := "/tmp/php-fpm.sock";
                   url.ForceQuery := false; url.RawQuery := "";
                   url.Fragment := "" |}) as HP by reflexivity.
  destruct (Pool_Update_parse_accepted dial _ st calls _ Hlog HP)
    as (p' & err & st' & rest & Hrun & Htrace).
  exists p', err, st', rest. split; [exact Hrun|exact Htrace].
Qed.

Lemma unix_socket_path_not_dialled_witness :
  exists p' err st' rest,
    Pool_Update (serve scenario_body)
      (Pool_with_Address "unix:///tmp/php-fpm.sock") fresh_state
    = Some ((p', err), st')
    /\ trace st' = trace fresh_state ++ ev_DialTimeout "unix" ":" (3 * Second) :: rest.
Proof.
  apply (unix_socket_path_not_dialled (serve scenario_body) fresh_state []).
  reflexivity.
Defined.

(** ** PoolManager.Update *)

(** With a logger installed a scrape returns, the logger stays installed,
    and the outcome is recorded on the pool. *)
Lemma Pool_Update_recorded dial p st calls :
  log st = Some calls ->
  exists p' err st' logged,
    Pool_Update dial p st = Some ((p', err), st')
    /\ log st' = Some (calls ++ logged)
    /\ recorded p p' err.
Proof.
  intros Hlog.
  destruct (Pool_Update_cases dial p st calls Hlog)
    as [(e & evs & closes & Hf & Hrun)
       |(content & evs & closes & p1 & h1 & err & Hf & HU & Hrun)].
  - eexists _, _, _, _. split; [exact Hrun|]. split; [reflexivity|].
    repeat split.
  - eexists _, _, _, _. split; [exact Hrun|]. split; [reflexivity|].
    destruct (Unmarshal_meta _ _ _ _ _ _ HU) as (HA & HE & HF).
    simpl in HA, HE, HF. destruct err as [e|]; repeat split; simpl; congruence.
Qed.

Lemma run_goroutines_spec dials sched :
  NoDup sched ->
  forall pools st calls,
  log st = Some calls ->
  exists pools' st' logged,
    run_goroutines dials sched pools st = Some (pools', st')
    /\ log st' = Some (calls ++ logged)
    /\ length pools' = length pools
    /\ forall (idx : nat) (p : Pool), pools !! idx = Some p ->
         (idx ∉ sched -> pools' !! idx = Some p)
         /\ (idx ∈ sched ->
             exists p' err stb sta,
               pools' !! idx = Some p'
               /\ Pool_Update (dials idx) p stb = Some ((p', err), sta)
               /\ recorded p p' err).
Proof.
  induction sched as [|i sched IH]; intros Hnd pools st calls Hlog.
  - exists pools, st, []. simpl. unfold ret. rewrite app_nil_r.
    split; [reflexivity|]. split; [assumption|]. split; [reflexivity|].
    intros idx p Hp. split; [intros _; exact Hp|].
    intros Hin. now apply elem_of_nil in Hin.
  - apply NoDup_cons in Hnd as [Hni Hnd]. simpl.
    destruct (pools !! i) as [q|] eqn:Hq.
    + destruct (Pool_Update_recorded (dials i) q st calls Hlog)
        as (q' & err & st1 & logged1 & Hrun & Hlog1 & Hrec).
      destruct (IH Hnd (<[i:=q']> pools) st1 _ Hlog1)
        as (pools' & st' & logged & Hrun' & Hlog' & Hlen & Hall).
      exists pools', st', (logged1 ++ logged).
      unfold bind. rewrite Hrun. split; [exact Hrun'|].
      split; [now rewrite Hlog', app_assoc|].
      split; [now rewrite Hlen, length_insert|].
      intros idx p Hp. destruct (decide (idx = i)) as [->|Hne].
      * rewrite Hq in Hp. injection Hp as ->.
        assert (<[i:=q']> pools !! i = Some q') as Hi.
        { apply list_lookup_insert_eq. now apply lookup_lt_Some in Hq. }
        destruct (Hall i q' Hi) as [Hout _]. split.
        -- intros Hnot. exfalso. apply Hnot. apply elem_of_cons. now left.
        -- intros _. exists q', err, st, st1. split; [now apply Hout|].
           split; assumption.
      * assert (<[i:=q']> pools !! idx = Some p) as Hi.
        { rewrite list_lookup_insert_ne by congruence. exact Hp. }
        destruct (Hall idx p Hi) as [Hout Hin]. split.
        -- intros Hnot. apply Hout. intros Hin'. apply Hnot. apply elem_of_cons. now right.
        -- intros Hin'. apply Hin. apply elem_of_cons in Hin' as [->|Hin']; [congruence|assumption].
    + destruct (IH Hnd pools st calls Hlog)
        as (pools' & st' & logged & Hrun' & Hlog' & Hlen & Hall).
      exists pools', st', logged. split; [exact Hrun'|].
      split; [exact Hlog'|]. split; [exact Hlen|].
      intros idx p Hp. destruct (Hall idx p Hp) as [Hout Hin].
      assert (idx <> i) as Hne by (intros ->; congruence). split.
      * intros Hnot. apply Hout. intros Hin'. apply Hnot. apply elem_of_cons. now right.
      * intros Hin'. apply Hin. apply elem_of_cons in Hin' as [->|Hin']; [congruence|assumption].
Qed.

Lemma schedule_NoDup n sched : schedule n sched -> NoDup sched.
Proof. unfold schedule. intros H. rewrite H. apply NoDup_seq. Qed.

Lemma schedule_elem n sched idx :
  schedule n sched -> (idx < n)%nat -> idx ∈ sched.
Proof.
  unfold schedule. intros H Hlt. rewrite H. apply elem_of_seq. lia.
Qed.

(** The scenario of the refused pool: after [Update] the first pool
    holds the connect error and one failure, the second pool holds the
    scraped data and no error, and the manager returned nil. *)
Example PoolManager_Update_two_pools :
  exists p0 p1 st',
    PoolManager_Update first_refused [1; 0]%nat 5 two_pools fresh_state
    = Some (({| Pools := [p0; p1] |}, None), st')
    /\ ScrapeError p0
       = Some (errorString "dial tcp 127.0.0.1:1: connect: connection refused")
    /\ ScrapeFailures p0 = 1
    /\ ScrapeError p1 = None /\ ScrapeFailures p1 = 0 /\ Name p1 = "www"
    /\ length (elems (st_heap st') (Processes p1)) = 3%nat.
Proof. eexists _, _, _. vm_compute. repeat split. Qed.

Example PoolManager_Update_no_pools :
  PoolManager_Update first_refused [] 5 {| Pools := [] |} fresh_state
  = Some (({| Pools := [] |}, None),
          {| st_heap := [];
             log := Some [log_Debugf "Updated %v pool(s) in %v"
                            [VInt 0; VDuration 5]];
             trace := [] |}).
Proof. reflexivity. Qed.

(** Without a logger [PoolManager.Update] panics. *)
Example PoolManager_Update_nil_logger :
  PoolManager_Update first_refused [] 5 {| Pools := [] |}
    {| st_heap := []; log := None; trace := [] |} = None.
Proof. reflexivity. Qed.

(** ** The failure counter *)

(** The counters along four attempts, the second of which succeeds:
    1, 1, 2, 3. *)
Example failures_history :
  exists hist st',
    history [refuse; serve scenario_body; serve body_with_bad_start_time; refuse]
      pool_of_three state_of_three = Some (hist, st')
    /\ map (fun pe => ScrapeFailures (fst pe)) hist = [1; 1; 2; 3]
    /\ map (fun pe => match snd pe with Some _ => true | None => false end) hist
       = [true; false; true; true].
Proof. eexists _, _. vm_compute. repeat split. Qed.

(** At the limit of the counter the increment of [p.error] wraps around:
    this is why the properties of the counter ask for room in it. *)
Example failures_wrap_at_limit e :
  ScrapeFailures (failed (set_ScrapeFailures Int64.max_int64 pool_of_three) e)
  = Int64.min_int64.
Proof. reflexivity. Qed.

(** The same for the calls on a manager: along every run of [Add] and
    [Update] calls, the entry of a pool stays at its index, keeps its
    address, and its counter never goes down; it goes up by at most one
    per call. *)
Lemma run_failures_monotone ops : forall pm st calls,
  log st = Some calls ->
  schedules_ok ops (length (Pools pm)) ->
  Z.of_nat (length ops) <= Int64.max_int64 ->
  (forall (idx : nat) (p : Pool), Pools pm !! idx = Some p ->
     Int64.min_int64 <= ScrapeFailures p
     /\ ScrapeFailures p + Z.of_nat (length ops) <= Int64.max_int64) ->
  exists pm' st' logged,
    run ops pm st = Some (pm', st')
    /\ log st' = Some (calls ++ logged)
    /\ forall (idx : nat) (p : Pool), Pools pm !! idx = Some p ->
         exists p', Pools pm' !! idx = Some p'
                    /\ Address p' = Address p
                    /\ ScrapeFailures p <= ScrapeFailures p'
                       <= ScrapeFailures p + Z.of_nat (length ops).
Proof.
  induction ops as [|op ops IH]; intros pm st calls Hlog Hsched Hlen Hrange.
  - exists pm, st, []. simpl. unfold ret. rewrite app_nil_r.
    split; [reflexivity|]. split; [assumption|].
    intros idx p Hp. exists p. split; [exact Hp|]. split; [reflexivity|]. simpl. lia.
  - simpl length in *. destruct op as [uri|dials sched elapsed].
    + simpl in Hsched.
      destruct (IH (snd (PoolManager_Add uri pm)) st calls Hlog)
        as (pm' & st' & logged & Hrun & Hlog' & Hall).
      { simpl. rewrite length_app. simpl.
        now replace (length (Pools pm) + 1)%nat with (S (length (Pools pm))) by lia. }
      { lia. }
      { simpl. intros idx p Hp. apply lookup_app_Some in Hp as [Hp|[_ Hp]].
        - destruct (Hrange idx p Hp). lia.
        - destruct (idx - length (Pools pm))%nat; [|discriminate Hp].
          injection Hp as <-. unfold Int64.min_int64. simpl. lia. }
      exists pm', st', logged. simpl. unfold bind, ret at 1.
      split; [exact Hrun|]. split; [exact Hlog'|].
      intros idx p Hp.
      destruct (Hall idx p) as (p' & Hp' & HA & HF).
      { simpl. now apply lookup_app_l_Some. }
      exists p'. repeat split; try assumption; lia.
    + simpl in Hsched. destruct Hsched as [Hs Hsched].
      destruct (run_goroutines_spec dials sched (schedule_NoDup _ _ Hs)
                  (Pools pm) st calls Hlog)
        as (pools1 & st1 & logged1 & Hrun1 & Hlog1 & Hlen1 & Hall1).
      assert (forall (idx : nat) (p : Pool), Pools pm !! idx = Some p ->
                exists p1, pools1 !! idx = Some p1 /\ Address p1 = Address p
                           /\ ScrapeFailures p <= ScrapeFailures p1
                              <= ScrapeFailures p + 1) as Hstep.
      { intros idx p Hp. destruct (Hall1 idx p Hp) as [_ Hin].
        destruct Hin as (p1 & err & stb & sta & Hp1 & _ & HA & HE & HF).
        { eapply schedule_elem; [exact Hs|]. now apply lookup_lt_Some in Hp. }
        exists p1. split; [exact Hp1|]. split; [exact HA|].
        destruct (Hrange idx p Hp). rewrite HF.
        destruct err; [rewrite wrap_succ by lia|]; lia. }
      destruct (IH {| Pools := pools1 |}
                  {| st_heap := st_heap st1;
                     log := Some ((calls ++ logged1)
                                  ++ [log_Debugf "Updated %v pool(s) in %v"
                                        [VInt (Z.of_nat (length pools1));
                                         VDuration elapsed]]);
                     trace := trace st1 |}
                  ((calls ++ logged1)
                   ++ [log_Debugf "Updated %v pool(s) in %v"
                         [VInt (Z.of_nat (length pools1)); VDuration elapsed]]))
        as (pm' & st' & logged & Hrun & Hlog' & Hall).
      { reflexivity. }
      { simpl. now rewrite Hlen1. }
      { lia. }
      { simpl. intros idx p1 Hp1.
        assert (idx < length (Pools pm))%nat as Hlt.
        { rewrite <- Hlen1. now apply lookup_lt_Some in Hp1. }
        destruct (lookup_lt_is_Some_2 _ _ Hlt) as [p Hp].
        destruct (Hstep idx p Hp) as (p1' & Hp1' & _ & HF).
        rewrite Hp1 in Hp1'. injection Hp1' as <-.
        destruct (Hrange idx p Hp). lia. }
      eexists pm', _, _. simpl. unfold bind.
      unfold PoolManager_Update, bind. rewrite Hrun1.
      unfold log_call. rewrite Hlog1. unfold ret at 1 2.
      split; [exact Hrun|]. split.
      { rewrite Hlog', <- !app_assoc. reflexivity. }
      intros idx p Hp. destruct (Hstep idx p Hp) as (p1 & Hp1 & HA1 & HF1).
      destruct (Hall idx p1 Hp1) as (p' & Hp' & HA & HF).
      exists p'. split; [exact Hp'|]. split; [congruence|]. lia.
Qed.

(** ** The scenario of the status page *)

Example scenario_body_parsed :
  json_parse scenario_body
  = Some (JObject
            [("pool", json_text "'www'", JString "www");
             ("start time", "1000000000", JNumber "1000000000");
             ("processes",
              json_text "[{'pid':1,'state':'Idle'},{'pid':2,'state':'Running'},{'pid':3,'state':'Zombie'}]",
              JArray
                [JObject [("pid", "1", JNumber "1");
                          ("state", json_text "'Idle'", JString "Idle")];
                 JObject [("pid", "2", JNumber "2");
                          ("state", json_text "'Running'", JString "Running")];
                 JObject [("pid", "3", JNumber "3");
                          ("state", json_text "'Zombie'", JString "Zombie")]])]).
Proof. vm_compute. reflexivity. Qed.

(** C9. Decoding the scenario body into a new pool gives, without error,
    a pool named ["www"], started at the epoch second 1000000000, whose
    process list has the three processes of the body; the scoreboard of
    that pool is [(active, idle, total) = (1, 1, 2)] and the logger
    receives one diagnostic, for the state of the process with pid 3. *)
Theorem scenario_decoded (uri : string) :
  exists (p' : Pool) (h' : heap),
    Unmarshal scenario_body (Pool_with_Address uri) [] = (p', h', None)
    /\ Name p' = "www"
    /\ time.Time_Unix (StartTime p') = 1000000000
    /\ length (elems h' (Processes p')) = 3%nat
    /\ elems h' (Processes p')
       = [process_in_state 1 "Idle"; process_in_state 2 "Running";
          process_in_state 3 "Zombie"]
    /\ CalculateProcessScoreboard p' {| st_heap := h'; log := Some []; trace := [] |}
       = Some ((1, 1, 2),
               {| st_heap := h';
                  log := Some [log_Errorf "Unknown process state '%v'"
                                 [VString "Zombie"]];
                  trace := [] |})
    /\ anomalies (elems h' (Processes p'))
       = [anomaly (process_in_state 3 "Zombie")].
Proof.
  eexists _, _. split; [vm_compute; reflexivity|].
  repeat (split; [vm_compute; reflexivity|]). vm_compute. reflexivity.
Qed.

(** The same through a scrape: the pool of a manager after one [Update]
    that is served the scenario body. *)
Example scenario_scraped :
  exists p' st',
    Pool_Update (serve scenario_body) (Pool_with_Address "tcp://127.0.0.1:9000")
      fresh_state = Some ((p', None), st')
    /\ Name p' = "www"
    /\ length (elems (st_heap st') (Processes p')) = 3%nat
    /\ trace st'
       = [ev_DialTimeout "tcp" "127.0.0.1:9000" 3000000000; ev_Get env;
          ev_ReadAll; ev_Body_Close; ev_Close].
Proof.
  eexists _, _. split; [vm_compute; reflexivity|].
  repeat (split; [vm_compute; reflexivity|]). vm_compute. reflexivity.
Qed.

(** ** PoolManager.Add *)

Lemma snapshot_nil_slice h p :
  Processes p = nil_slice -> snap_Processes (snapshot h p) = [].
Proof. intros Hp. unfold snapshot, elems, backing. simpl. rewrite Hp. reflexivity. Qed.

(** C10. [Add(uri)] puts one entry at the end of [Pools], after the
    entries that were there, which keep their order and content.  The
    entry has the address [uri] and every other field at its zero value.
    The pool returned is equal to that entry, and it holds no reference
    to a backing array (its process slice is nil): read under any heap
    its snapshot is the zero snapshot, so that after any later calls on
    the manager, whatever they store in the entry and the heap, the
    snapshot read through the copy is what it was. *)
Theorem PoolManager_Add_spec (uri : string) (pm : PoolManager) :
  let p := fst (PoolManager_Add uri pm) in
  let pm' := snd (PoolManager_Add uri pm) in
  Pools pm' = Pools pm ++ [p]
  /\ length (Pools pm') = S (length (Pools pm))
  /\ (forall (i : nat) (q : Pool), Pools pm !! i = Some q -> Pools pm' !! i = Some q)
  /\ Pools pm' !! length (Pools pm) = Some p
  /\ p = {| Address := uri; ScrapeError := None; ScrapeFailures := 0;
            Name := ""; ProcessManager := ""; StartTime := time.zero;
            StartSince := 0; AcceptedConnections := 0; ListenQueue := 0;
            MaxListenQueue := 0; ListenQueueLength := 0; IdleProcesses := 0;
            ActiveProcesses := 0; TotalProcesses := 0; MaxActiveProcesses := 0;
            MaxChildrenReached := 0; SlowRequests := 0;
            Processes := {| arr := None; len := 0 |} |}
  /\ (forall h : heap, snapshot h p = zero_snapshot)
  /\ (forall (ops : list Op) (st st2 : State) (pm2 : PoolManager),
        run ops pm' st = Some (pm2, st2) ->
        snapshot (st_heap st2) p = snapshot (st_heap st) p).
Proof.
  simpl. split; [reflexivity|]. split; [rewrite length_app; simpl; lia|].
  split; [intros i q Hq; now apply lookup_app_l_Some|].
  split; [now rewrite list_lookup_middle|].
  split; [reflexivity|]. split; [reflexivity|]. reflexivity.
Qed.

(** A run after [Add] in which the entry does change while the copy
    returned by [Add] reads as before. *)
Example Add_then_Update :
  let p := fst (PoolManager_Add "tcp://127.0.0.1:9000" {| Pools := [] |}) in
  let pm' := snd (PoolManager_Add "tcp://127.0.0.1:9000" {| Pools := [] |}) in
  exists entry st2,
    run [op_Update (fun _ => serve scenario_body) [0%nat] 5] pm' fresh_state
    = Some ({| Pools := [entry] |}, st2)
    /\ Name entry = "www"
    /\ length (elems (st_heap st2) (Processes entry)) = 3%nat
    /\ snapshot (st_heap st2) p = zero_snapshot.
Proof.
  eexists _, _. split; [vm_compute; reflexivity|].
  repeat (split; [vm_compute; reflexivity|]). vm_compute. reflexivity.
Qed.

(** By contrast a copy of an entry made after a scrape shares the
    backing array of its process list with the entry: a later scrape
    that stores a shorter list writes into that array, and the copy
    reads the new first process. *)
Example copy_after_scrape_is_aliased :
  exists copy st1 entry st2,
    run [op_Update (fun _ => serve scenario_body) [0%nat] 5]
      (snd (PoolManager_Add "tcp://127.0.0.1:9000" {| Pools := [] |})) fresh_state
    = Some ({| Pools := [copy] |}, st1)
    /\ run [op_Update (fun _ => serve second_body) [0%nat] 5]
         {| Pools := [copy] |} st1
       = Some ({| Pools := [entry] |}, st2)
    /\ map Proc.PID (elems (st_heap st1) (Processes copy)) = [1; 2; 3]
    /\ map Proc.PID (elems (st_heap st2) (Processes entry)) = [7]
    /\ map Proc.PID (elems (st_heap st2) (Processes copy)) = [7; 2; 3].
Proof.
  eexists _, _, _, _. split; [vm_compute; reflexivity|].
  repeat (split; [vm_compute; reflexivity|]). vm_compute. reflexivity.
Qed.

(** ** Every address of a unix socket *)

Lemma substring_all (s : string) : substring 0 (String.length s) s = s.
Proof. induction s as [|c s IH]; simpl; [reflexivity|now rewrite IH]. Qed.

(** The query part leaves the three slashes where they are. *)
Lemma split_query_slashes (X : string) :
  exists Y force query, url.split_query ("///" +:+ X) = ("///" +:+ Y, force, query).
Proof.
  unfold url.split_query.
  destruct (url.HasSuffix ("///" +:+ X) "?" && _)%bool eqn:Hs.
  - apply andb_true_iff in Hs as [Hs _].
    destruct X as [|c X].
    + discriminate Hs.
    + eexists (substring 0 (String.length X) (String c X)), _, _.
      simpl. reflexivity.
  - unfold url.Cut.
    change ("///" +:+ X) with (String "/" (String "/" (String "/" X))).
    simpl url.IndexByte.
    destruct (url.IndexByte "?" X) as [i|].
    + eexists (url.upto i X), _, _. reflexivity.
    + eexists X, _, _. reflexivity.
Qed.

(** After three slashes the authority is empty and the path starts at
    the third slash. *)
Lemma split_authority_slashes (Y : string) :
  url.split_authority "unix" ("///" +:+ Y) = inl (None, EmptyString, "/" +:+ Y).
Proof.
  change ("///" +:+ Y) with (String "/" (String "/" (String "/" Y))).
  unfold url.split_authority. simpl. unfold url.from. simpl.
  rewrite !substring_all. reflexivity.
Qed.

Lemma parse_unix (X : string) (u : url.URL) :
  url.parse ("unix:///" +:+ X) = inl u ->
  url.Scheme u = "unix" /\ url.Host u = "".
Proof.
  unfold url.parse.
  destruct (url.stringContainsCTLByte _); [discriminate|].
  change (String.eqb ("unix:///" +:+ X) "*") with false. cbv iota.
  change (url.getScheme ("unix:///" +:+ X))
    with (@inl (string * string) url.Err ("unix", "///" +:+ X)).
  cbv iota beta. change (url.ToLower "unix") with "unix".
  destruct (split_query_slashes X) as (Y & force & query & ->).
  cbv iota beta zeta.
  change (url.HasPrefix ("///" +:+ Y) "/") with true. cbv iota beta. simpl negb.
  cbv iota. rewrite split_authority_slashes.
  destruct (url.Unescape _ _); [|discriminate].
  intros [= <-]. split; reflexivity.
Qed.

(** [url.Parse] on an address [unix:///...]: when it accepts the address,
    the scheme is [unix] and the host is empty, whatever the path. *)
Lemma Parse_unix (path : string) (u : url.URL) :
  url.Parse ("unix:///" +:+ path) = inl u ->
  url.Scheme u = "unix" /\ url.Host u = "" /\ url.Hostname u = ""
  /\ url.Port u = "".
Proof.
  assert (forall v, url.Scheme v = "unix" /\ url.Host v = "" ->
                    url.Scheme v = "unix" /\ url.Host v = ""
                    /\ url.Hostname v = "" /\ url.Port v = "") as Hmore.
  { intros v [H1 H2]. unfold url.Hostname, url.Port. rewrite H2. now repeat split. }
  unfold url.Parse, url.Cut.
  assert (url.IndexByte "#" ("unix:///" +:+ path)
          = match url.IndexByte "#" path with
            | Some i => Some (8 + i)%nat
            | None => None
            end) as ->.
  { cbv [String.append]. simpl. now destruct (url.IndexByte "#" path). }
  destruct (url.IndexByte "#" path) as [i|].
  - change (url.upto (8 + i) ("unix:///" +:+ path))
      with ("unix:///" +:+ url.upto i path).
    destruct (url.parse _) as [v|] eqn:Hv; [|discriminate].
    apply parse_unix in Hv.
    destruct (String.eqb _ ""); [intros [= <-]; now apply Hmore|].
    destruct (url.Unescape _ _); [|discriminate].
    intros [= <-]. now apply Hmore.
  - destruct (url.parse _) as [v|] eqn:Hv; [|discriminate].
    apply parse_unix in Hv. simpl. intros [= <-]. now apply Hmore.
Qed.

(** X9. Whatever the socket path of an address [unix:///path], a scrape
    either stops at [url.Parse] or asks the dialer for the network [unix]
    at the address [:]; the path is never what it dials. *)
Theorem unix_addresses_dial_colon (path : string) dial st calls :
  log st = Some calls ->
  exists p' err st',
    Pool_Update dial (Pool_with_Address ("unix:///" +:+ path)) st
    = Some ((p', err), st')
    /\ (trace st' = trace st
        \/ exists rest,
             trace st' = trace st ++ ev_DialTimeout "unix" ":" (3 * Second) :: rest).
Proof.
  intros Hlog.
  destruct (url.Parse ("unix:///" +:+ path)) as [u|uerr] eqn:HP.
  - destruct (Pool_Update_parse_accepted dial
                (Pool_with_Address ("unix:///" +:+ path)) st calls u Hlog HP)
      as (p' & err & st' & rest & Hrun & Htrace).
    exists p', err, st'. split; [exact Hrun|]. right. exists rest.
    destruct (Parse_unix _ _ HP) as (HS & _ & HH & HPt).
    now rewrite HS, HH, HPt in Htrace.
  - destruct (Pool_Update_parse_refused dial
                (Pool_with_Address ("unix:///" +:+ path)) st calls uerr Hlog HP)
      as (st' & Hrun & Htrace).
    eexists _, _, st'. split; [exact Hrun|]. now left.
Qed.

Lemma unix_addresses_dial_colon_witness :
  exists p' err st',
    Pool_Update (serve scenario_body)
      (Pool_with_Address ("unix:///" +:+ "var/run/php-fpm.sock")) fresh_state
    = Some ((p', err), st')
    /\ (trace st' = trace fresh_state
        \/ exists rest,
             trace st'
             = trace fresh_state ++ ev_DialTimeout "unix" ":" (3 * Second) :: rest).
Proof.
  apply (unix_addresses_dial_colon "var/run/php-fpm.sock" (serve scenario_body)
           fresh_state []).
  reflexivity.
Defined.

(** ** The logger *)

(** Without a logger the goroutines of [PoolManager.Update] either panic
    or, when no index of the schedule names a pool, do nothing. *)
Lemma run_goroutines_nil_logger dials sched : forall pools st,
  log st = None ->
  run_goroutines dials sched pools st = None
  \/ run_goroutines dials sched pools st = Some (pools, st).
Proof.
  induction sched as [|idx sched IH]; intros pools st Hlog; simpl.
  - now right.
  - destruct (pools !! idx) as [p|]; [|now apply IH].
    left. unfold bind. now rewrite Pool_Update_nil_logger.
Qed.

Lemma PoolManager_Update_panics dials sched elapsed pm st :
  log st = None -> PoolManager_Update dials sched elapsed pm st = None.
Proof.
  intros Hlog. unfold PoolManager_Update, bind.
  destruct (run_goroutines_nil_logger dials sched (Pools pm) st Hlog) as [-> | ->];
    [reflexivity|].
  unfold log_call. now rewrite Hlog.
Qed.

(** X1. [Pool.Update] returns exactly when a logger is installed: on
    every path through the function a method of [log] is called, so with
    the nil logger the call panics whatever the address and whatever the
    dialer answers, and with a logger it always returns. *)
Theorem Pool_Update_returns_iff_logger (dial : Dialer) (p : Pool) (st : State) :
  Pool_Update dial p st = None <-> log st = None.
Proof.
  split.
  - intros Hrun. destruct (log st) as [calls|] eqn:Hlog; [|reflexivity].
    destruct (Pool_Update_cases dial p st calls Hlog)
      as [(e & evs & closes & _ & Hrun')
         |(content & evs & closes & p1 & h1 & err & _ & _ & Hrun')];
      rewrite Hrun' in Hrun; discriminate Hrun.
  - apply Pool_Update_nil_logger.
Qed.

(** X2. [SetLogger] followed by [PoolManager.Update].  After
    [SetLogger(nil)] the update panics, also for a manager without pools.
    After [SetLogger(l)] for a logger [l] it returns nil, the calls are
    received by [l] (what an earlier logger had received plays no part),
    and the last call [l] receives is the [Debugf] that reports the
    number of pools and the elapsed time. *)
Theorem SetLogger_then_Update logger dials sched elapsed pm st :
  schedule (length (Pools pm)) sched ->
  match logger with
  | None =>
      (SetLogger None ;; PoolManager_Update dials sched elapsed pm) st = None
  | Some received =>
      exists pm' st' logged,
        (SetLogger (Some received) ;; PoolManager_Update dials sched elapsed pm) st
        = Some ((pm', None), st')
        /\ log st'
           = Some (received ++ logged
                   ++ [log_Debugf "Updated %v pool(s) in %v"
                         [VInt (Z.of_nat (length (Pools pm))); VDuration elapsed]])
  end.
Proof.
  intros Hsched. destruct logger as [received|].
  - unfold bind at 1. unfold SetLogger.
    destruct (run_goroutines_spec dials sched (schedule_NoDup _ _ Hsched)
                (Pools pm)
                {| st_heap := st_heap st; log := Some received; trace := trace st |}
                received eq_refl)
      as (pools' & st1 & logged & Hrun & Hlog1 & Hlen & _).
    exists {| Pools := pools' |}.
    unfold PoolManager_Update, bind. rewrite Hrun.
    unfold log_call. rewrite Hlog1. unfold ret.
    eexists _, logged. split; [reflexivity|].
    simpl. now rewrite Hlen, app_assoc.
  - unfold bind at 1. unfold SetLogger. now apply PoolManager_Update_panics.
Qed.

Lemma SetLogger_then_Update_witness :
  exists pm' st' logged,
    (SetLogger (Some []) ;; PoolManager_Update first_refused [1; 0]%nat 5 two_pools)
      {| st_heap := []; log := None; trace := [] |}
    = Some ((pm', None), st')
    /\ log st'
       = Some ([] ++ logged
               ++ [log_Debugf "Updated %v pool(s) in %v"
                     [VInt (Z.of_nat (length (Pools two_pools))); VDuration 5]]).
Proof.
  apply (SetLogger_then_Update (Some []) first_refused [1; 0]%nat 5 two_pools
           {| st_heap := []; log := None; trace := [] |}).
  unfold schedule. simpl. apply perm_swap.
Defined.

(** A list of processes whose states are all known. *)
Lemma scoreboard_loop_known (ps : list PoolProcess) :
  forall (a0 i0 : Z) (st : State),
  anomalies ps = [] ->
  0 <= a0 -> 0 <= i0 ->
  a0 + i0 + Z.of_nat (length ps) <= Int64.max_int64 ->
  scoreboard_loop ps a0 i0 st
  = Some ((a0 + count_state "Running" ps, i0 + count_state "Idle" ps), st).
Proof.
  induction ps as [|pr ps IH]; intros a0 i0 st Han Ha Hi Hlen.
  - simpl. unfold ret, count_state. simpl. now rewrite !Z.add_0_r.
  - simpl scoreboard_loop. rewrite !count_state_cons.
    unfold anomalies, unknown_state, state_is in Han. simpl List.filter in Han.
    simpl length in Hlen.
    pose proof (counts_le_length ps) as Hle.
    pose proof (count_state_nonneg "Running" ps) as Hr.
    pose proof (count_state_nonneg "Idle" ps) as Hd.
    unfold PoolProcessRequestActive, PoolProcessRequestIdle, state_is.
    destruct (String.eqb_spec (Proc.State pr) "Running") as [E|E].
    + rewrite E in *. simpl String.eqb in *. simpl in Han.
      rewrite Int64_wrap_id
        by (unfold Int64.in_range, Int64.min_int64, Int64.max_int64 in *; lia).
      rewrite IH by (try assumption; lia).
      apply result_eq; [lia | lia | reflexivity].
    + destruct (String.eqb_spec (Proc.State pr) "Idle") as [E'|E'].
      * simpl in Han.
        rewrite Int64_wrap_id
          by (unfold Int64.in_range, Int64.min_int64, Int64.max_int64 in *; lia).
        rewrite IH by (try assumption; lia).
        apply result_eq; [lia | lia | reflexivity].
      * simpl in Han. discriminate Han.
Qed.

(** X3. [CalculateProcessScoreboard] without a logger.  When every
    process of the pool is in the state ["Idle"] or ["Running"] the
    function never touches [log]: it returns the counts, with a total
    equal to the number of processes, and leaves the state as it was.
    When some process is in another state the call panics. *)
Theorem CalculateProcessScoreboard_without_logger (p : Pool) (st : State) :
  log st = None ->
  Z.of_nat (length (elems (st_heap st) (Processes p))) <= Int64.max_int64 ->
  match anomalies (elems (st_heap st) (Processes p)) with
  | [] =>
      CalculateProcessScoreboard p st
      = Some ((count_state "Running" (elems (st_heap st) (Processes p)),
               count_state "Idle" (elems (st_heap st) (Processes p)),
               Z.of_nat (length (elems (st_heap st) (Processes p)))), st)
  | _ :: _ => CalculateProcessScoreboard p st = None
  end.
Proof.
  intros Hlog Hlen.
  destruct (anomalies (elems (st_heap st) (Processes p))) as [|c cs] eqn:Han.
  - unfold CalculateProcessScoreboard, bind, get_heap.
    set (ps := elems (st_heap st) (Processes p)) in *.
    pose proof (anomalies_length ps) as Hall. rewrite Han in Hall. simpl in Hall.
    rewrite (scoreboard_loop_known ps 0 0 st Han) by lia.
    rewrite !Z.add_0_l. unfold ret.
    rewrite Int64_wrap_id
      by (unfold Int64.in_range, Int64.min_int64, Int64.max_int64 in *;
          pose proof (count_state_nonneg "Running" ps);
          pose proof (count_state_nonneg "Idle" ps); lia).
    do 2 f_equal. f_equal. lia.
  - apply scoreboard_nil_logger; [exact Hlog|]. now rewrite Han.
Qed.

Lemma CalculateProcessScoreboard_without_logger_witness :
  CalculateProcessScoreboard pool_of_three
    {| st_heap := [three_processes]; log := None; trace := [] |} = None.
Proof.
  apply (CalculateProcessScoreboard_without_logger pool_of_three
           {| st_heap := [three_processes]; log := None; trace := [] |}).
  - reflexivity.
  - vm_compute. discriminate.
Defined.

(** ** The calls of a scrape *)

(** X4. The calls [Pool.Update] makes on the FastCGI client library, in
    order.  Nothing is called when [url.Parse] refuses the address.
    Otherwise one [DialTimeout] is made, with a timeout of three seconds;
    when it fails nothing follows.  When it succeeds, one [Get] with the
    five parameters of the status request follows and the client is
    closed as the last call; when [Get] succeeds the body is read once and
    closed before the client is, whether or not reading and decoding
    succeed. *)
Theorem Pool_Update_client_calls (dial : Dialer) (p : Pool) (st : State)
    (calls : list LogCall) :
  log st = Some calls ->
  exists p' err st',
    Pool_Update dial p st = Some ((p', err), st')
    /\ trace st'
       = trace st
         ++ match url.Parse (Address p) with
            | inr _ => []
            | inl uri =>
                ev_DialTimeout (url.Scheme uri)
                  (url.Hostname uri +:+ ":" +:+ url.Port uri) (3 * Second)
                :: match dial (url.Scheme uri)
                           (url.Hostname uri +:+ ":" +:+ url.Port uri)
                           (3 * Second) with
                   | inr _ => []
                   | inl fcgi =>
                       ev_Get env
                       :: match Get fcgi env with
                          | inr _ => [ev_Close]
                          | inl _ => [ev_ReadAll; ev_Body_Close; ev_Close]
                          end
                   end
            end.
Proof.
  intros Hlog.
  assert (forall out evs closes,
            fetch dial (Address p) = (out, evs, closes) ->
            evs ++ closes
            = match url.Parse (Address p) with
              | inr _ => []
              | inl uri =>
                  ev_DialTimeout (url.Scheme uri)
                    (url.Hostname uri +:+ ":" +:+ url.Port uri) (3 * Second)
                  :: match dial (url.Scheme uri)
                             (url.Hostname uri +:+ ":" +:+ url.Port uri)
                             (3 * Second) with
                     | inr _ => []
                     | inl fcgi =>
                         ev_Get env
                         :: match Get fcgi env with
                            | inr _ => [ev_Close]
                            | inl _ => [ev_ReadAll; ev_Body_Close; ev_Close]
                            end
                     end
              end) as Hevs.
  { intros out evs closes. unfold fetch.
    destruct (url.Parse (Address p)) as [uri|uerr]; [|now intros [= <- <- <-]].
    destruct (dial _ _ _) as [fcgi|derr]; [|now intros [= <- <- <-]].
    destruct (Get fcgi env) as [resp|gerr]; now intros [= <- <- <-]. }
  destruct (Pool_Update_cases dial p st calls Hlog)
    as [(e & evs & closes & Hf & Hrun)
       |(content & evs & closes & p1 & h1 & err & Hf & HU & Hrun)];
    eexists _, _, _; (split; [exact Hrun|]);
    unfold after; simpl; now rewrite (Hevs _ _ _ Hf).
Qed.

Lemma Pool_Update_client_calls_witness :
  exists p' err st',
    Pool_Update (serve scenario_body) (Pool_with_Address "tcp://127.0.0.1:9000")
      fresh_state = Some ((p', err), st')
    /\ trace st'
       = [ev_DialTimeout "tcp" "127.0.0.1:9000" (3 * Second); ev_Get env;
          ev_ReadAll; ev_Body_Close; ev_Close].
Proof.
  apply (Pool_Update_client_calls (serve scenario_body)
           (Pool_with_Address "tcp://127.0.0.1:9000") fresh_state []).
  reflexivity.
Defined.

(** X5. What [Pool.Update] logs.  The logger receives a [Debugf] with
    the address of the pool and the body exactly when a body was read,
    and after it an [Error] with the error returned exactly when the
    call returns an error; it receives nothing else, and a call that
    returns nil logs no error. *)
Theorem Pool_Update_logged (dial : Dialer) (p : Pool) (st : State)
    (calls : list LogCall) :
  log st = Some calls ->
  exists p' err st',
    Pool_Update dial p st = Some ((p', err), st')
    /\ log st'
       = Some (calls
               ++ match fst (fst (fetch dial (Address p))) with
                  | inr content =>
                      [log_Debugf "Pool[%v]: %v"
                         [VString (Address p); VString content]]
                  | inl _ => []
                  end
               ++ match err with
                  | Some e => [log_Error [VError e]]
                  | None => []
                  end).
Proof.
  intros Hlog.
  destruct (Pool_Update_cases dial p st calls Hlog)
    as [(e & evs & closes & Hf & Hrun)
       |(content & evs & closes & p1 & h1 & err & Hf & HU & Hrun)];
    eexists _, _, _; (split; [exact Hrun|]); rewrite Hf; reflexivity.
Qed.

Lemma Pool_Update_logged_witness :
  exists p' err st',
    Pool_Update (serve body_with_bad_start_time) pool_of_three state_of_three
    = Some ((p', err), st')
    /\ log st'
       = Some ([]
               ++ match fst (fst (fetch (serve body_with_bad_start_time)
                                    (Address pool_of_three))) with
                  | inr content =>
                      [log_Debugf "Pool[%v]: %v"
                         [VString (Address pool_of_three); VString content]]
                  | inl _ => []
                  end
               ++ match err with
                  | Some e => [log_Error [VError e]]
                  | None => []
                  end).
Proof.
  apply (Pool_Update_logged (serve body_with_bad_start_time) pool_of_three
           state_of_three []).
  reflexivity.
Defined.

(** ** The timestamp codec, the other way round *)

(** X6. Encoding then decoding a timestamp.  For every timestamp [t],
    whatever its wall and ext words and its location, [UnmarshalJSON]
    accepts what [MarshalJSON] printed; the result is the time
    [time.Unix(t.Unix(), 0)]: it has the Unix second of [t], and it
    prints as [t] does. *)
Theorem timestamp_Marshal_then_Unmarshal (t : timestamp) :
  timestamp_UnmarshalJSON (timestamp_MarshalJSON t)
  = inl (time.Unix (time.Time_Unix t) 0)
  /\ time.Time_Unix (time.Unix (time.Time_Unix t) 0) = time.Time_Unix t
  /\ timestamp_MarshalJSON (time.Unix (time.Time_Unix t) 0)
     = timestamp_MarshalJSON t.
Proof.
  assert (Int64.in_range (time.Time_Unix t)) as Hr
    by (unfold time.Time_Unix; apply Int64_wrap_range).
  split; [|split].
  - unfold timestamp_UnmarshalJSON, timestamp_MarshalJSON.
    now rewrite Atoi_FormatInt.
  - now apply Time_Unix_Unix.
  - unfold timestamp_MarshalJSON. now rewrite Time_Unix_Unix.
Qed.

(** ** What [strconv.Atoi] accepts *)

Lemma is_digit_val (c : ascii) :
  strconv.is_digit c = true -> 0 <= strconv.digit_val c <= 9.
Proof.
  unfold strconv.is_digit, strconv.digit_val. cbv zeta.
  intros H. apply andb_true_iff in H as [H1 H2].
  apply Z.leb_le in H1, H2. lia.
Qed.

Lemma all_digits_cons (c : ascii) (s : string) :
  all_digits (String c s) = strconv.is_digit c && all_digits s.
Proof. reflexivity. Qed.

Lemma digits_value_mono (s : string) : forall n,
  all_digits s = true -> 0 <= n -> n <= digits_value s n.
Proof.
  induction s as [|c s IH]; intros n Hd Hn; [simpl; lia|].
  rewrite all_digits_cons in Hd. apply andb_true_iff in Hd as [Hc Hd].
  pose proof (is_digit_val c Hc). simpl.
  specialize (IH (n * 10 + strconv.digit_val c) Hd ltac:(lia)). lia.
Qed.

(** The loop of [ParseUint] on a text of digits: the value, or the range
    error when the value does not fit a uint64. *)
Lemma ParseUint_loop_all_digits (s : string) : forall n,
  0 <= n <= Int64.max_uint64 -> all_digits s = true ->
  strconv.ParseUint_loop s n
  = if digits_value s n <=? Int64.max_uint64
    then (digits_value s n, None)
    else (Int64.max_uint64, Some strconv.ErrRange).
Proof.
  unfold Int64.max_uint64.
  induction s as [|c s IH]; intros n Hn Hd.
  - simpl. destruct (Z.leb_spec n (2 ^ 64 - 1)); [reflexivity|lia].
  - rewrite all_digits_cons in Hd. apply andb_true_iff in Hd as [Hc Hd].
    pose proof (is_digit_val c Hc) as Hv.
    pose proof (digits_value_mono s (n * 10 + strconv.digit_val c) Hd ltac:(lia)) as Hm.
    cbn [strconv.ParseUint_loop digits_value]. rewrite Hc. cbn [negb].
    unfold strconv.cutoff, Int64.max_uint64, Int64.wrapu, Int64.modulus.
    change ((2 ^ 64 - 1) / 10 + 1) with 1844674407370955162.
    change (2 ^ 64) with 18446744073709551616 in *.
    destruct (Z.leb_spec 1844674407370955162 n) as [Hcut|Hcut].
    + destruct (Z.leb_spec (digits_value s (n * 10 + strconv.digit_val c))
                  (18446744073709551616 - 1)); [lia|reflexivity].
    + rewrite (Z.mod_small (n * 10)) by lia. cbv zeta.
      destruct (Z.le_gt_cases (n * 10 + strconv.digit_val c) 18446744073709551615)
        as [Hfit|Hover].
      * rewrite (Z.mod_small (n * 10 + strconv.digit_val c)) by lia.
        assert ((n * 10 + strconv.digit_val c <? n * 10) = false) as ->
          by (apply Z.ltb_ge; lia).
        assert ((18446744073709551616 - 1 <? n * 10 + strconv.digit_val c) = false)
          as -> by (apply Z.ltb_ge; lia).
        cbn [orb]. apply IH; [lia|exact Hd].
      * replace (n * 10 + strconv.digit_val c)
          with ((n * 10 + strconv.digit_val c - 18446744073709551616)
                + 1 * 18446744073709551616) at 1 by lia.
        rewrite Z_mod_plus_full, Z.mod_small by lia.
        assert ((n * 10 + strconv.digit_val c - 18446744073709551616 <? n * 10) = true)
          as -> by (apply Z.ltb_lt; lia).
        cbn [orb].
        destruct (Z.leb_spec (digits_value s (n * 10 + strconv.digit_val c))
                    (18446744073709551616 - 1)); [lia|reflexivity].
Qed.

(** On any other text the loop reports an error. *)
Lemma ParseUint_loop_not_digits (s : string) : forall n,
  all_digits s = false ->
  exists v e, strconv.ParseUint_loop s n = (v, Some e).
Proof.
  induction s as [|c s IH]; intros n Hd; [discriminate Hd|].
  rewrite all_digits_cons in Hd. cbn [strconv.ParseUint_loop].
  destruct (strconv.is_digit c); cbn [negb andb] in *; [|now eexists _, _].
  destruct (strconv.cutoff <=? n); [now eexists _, _|].
  destruct (_ || _); [now eexists _, _|]. now apply IH.
Qed.

Lemma ParseUint_loop_range (s : string) : forall n v,
  strconv.ParseUint_loop s n = (v, Some strconv.ErrRange) -> v = Int64.max_uint64.
Proof.
  induction s as [|c s IH]; intros n v; cbn [strconv.ParseUint_loop];
    [discriminate|].
  destruct (negb (strconv.is_digit c)); [discriminate|].
  destruct (strconv.cutoff <=? n); [now intros [= <-]|].
  destruct (_ || _); [now intros [= <-]|]. apply IH.
Qed.

(** [ParseInt] on a text whose magnitude part [rest] is known. *)
Lemma ParseInt_magnitude (s rest : string) (c : ascii) (s' : string) (neg : bool) :
  s = String c s' ->
  neg = Ascii.eqb c "-"%char ->
  rest = (if Ascii.eqb c "+"%char || neg then s' else s) ->
  forall i,
  strconv.ParseInt s = inl i
  <-> rest <> "" /\ all_digits rest = true
      /\ i = (if neg then - digits_value rest 0 else digits_value rest 0)
      /\ Int64.in_range i.
Proof.
  intros -> -> -> i. unfold strconv.ParseInt.
  set (neg := Ascii.eqb c "-"%char).
  set (rest := if Ascii.eqb c "+"%char || neg then s' else String c s').
  unfold Int64.in_range, Int64.min_int64, Int64.max_int64.
  destruct rest as [|d r] eqn:Hrest.
  { simpl. split; [discriminate|]. intros (H & _). now destruct H. }
  rewrite <- Hrest. clearbody rest.
  assert (strconv.ParseUint rest = strconv.ParseUint_loop rest 0) as ->
    by (now rewrite Hrest).
  destruct (all_digits rest) eqn:Hd.
  - rewrite ParseUint_loop_all_digits
      by (try assumption; unfold Int64.max_uint64; lia).
    pose proof (digits_value_mono rest 0 Hd ltac:(lia)) as Hpos.
    unfold Int64.max_uint64.
    destruct (Z.leb_spec (digits_value rest 0) (2 ^ 64 - 1)) as [Hfit|Hover].
    + destruct neg; cbn [negb andb].
      * destruct (Z.ltb_spec (2 ^ 63) (digits_value rest 0)) as [Hbig|Hsmall].
        -- split; [discriminate|]. intros (_ & _ & -> & H). lia.
        -- split.
           ++ intros [= <-]. split; [now rewrite Hrest|]. split; [reflexivity|].
              assert (Int64.wrap (- Int64.wrap (digits_value rest 0))
                      = - digits_value rest 0) as ->; [|split; [reflexivity|lia]].
              destruct (Z.eq_dec (digits_value rest 0) (2 ^ 63)) as [->|Hne];
                [reflexivity|].
              rewrite (Int64_wrap_id (digits_value rest 0))
                by (unfold Int64.in_range, Int64.min_int64, Int64.max_int64; lia).
              apply Int64_wrap_id.
              unfold Int64.in_range, Int64.min_int64, Int64.max_int64; lia.
           ++ intros (_ & _ & -> & H). f_equal.
              destruct (Z.eq_dec (digits_value rest 0) (2 ^ 63)) as [->|Hne];
                [reflexivity|].
              rewrite (Int64_wrap_id (digits_value rest 0))
                by (unfold Int64.in_range, Int64.min_int64, Int64.max_int64; lia).
              apply Int64_wrap_id.
              unfold Int64.in_range, Int64.min_int64, Int64.max_int64; lia.
      * destruct (Z.leb_spec (2 ^ 63) (digits_value rest 0)) as [Hbig|Hsmall].
        -- split; [discriminate|]. intros (_ & _ & -> & H). lia.
        -- split.
           ++ intros [= <-]. split; [now rewrite Hrest|]. split; [reflexivity|].
              rewrite Int64_wrap_id
                by (unfold Int64.in_range, Int64.min_int64, Int64.max_int64; lia).
              split; [reflexivity|lia].
           ++ intros (_ & _ & -> & H). f_equal. apply Int64_wrap_id.
              unfold Int64.in_range, Int64.min_int64, Int64.max_int64; lia.
    + change (2 ^ 64 - 1) with 18446744073709551615.
      destruct neg; cbn [negb andb];
        (split; [discriminate|]); intros (_ & _ & -> & H); lia.
  - destruct (ParseUint_loop_not_digits rest 0 Hd) as (v & e & Hloop).
    rewrite Hloop. destruct e.
    + split; [discriminate|]. intros (_ & H & _). discriminate H.
    + apply ParseUint_loop_range in Hloop. subst v. unfold Int64.max_uint64.
      change (2 ^ 64 - 1) with 18446744073709551615.
      destruct neg; cbn [negb andb];
        (split; [discriminate|]); intros (_ & H & _); discriminate H.
Qed.

(** X7. What [timestamp.UnmarshalJSON] accepts.  The bytes are accepted
    exactly when they are an optional sign [+] or [-] followed by one or
    more decimal digits (leading zeros allowed) that denote a number of
    the int64 range; the timestamp stored is then that Unix second.
    Every other text (empty, [null], a quoted number, a number with a
    fraction or an exponent, surrounding white space) is an error. *)
Theorem timestamp_UnmarshalJSON_accepts (b : string) (t : timestamp) :
  timestamp_UnmarshalJSON b = inl t
  <-> exists sign ds : string,
        b = sign +:+ ds
        /\ (sign = "" \/ sign = "+" \/ sign = "-")
        /\ ds <> ""
        /\ all_digits ds = true
        /\ Int64.in_range (signed sign (digits_value ds 0))
        /\ t = time.Unix (signed sign (digits_value ds 0)) 0.
Proof.
  unfold timestamp_UnmarshalJSON, strconv.Atoi. split.
  - destruct (strconv.ParseInt b) as [i|e] eqn:HP; [|discriminate].
    intros [= <-]. destruct b as [|c s']; [discriminate HP|].
    apply (ParseInt_magnitude (String c s') _ c s' _ eq_refl eq_refl eq_refl) in HP.
    destruct HP as (Hne & Hd & Hi & Hr).
    subst i.
    destruct (Ascii.eqb_spec c "-"%char) as [->|Hminus].
    + exists "-", s'. cbn [orb] in *. rewrite Bool.orb_true_r in *.
      split; [reflexivity|]. split; [now right; right|]. split; [exact Hne|].
      split; [exact Hd|]. split; [exact Hr|reflexivity].
    + destruct (Ascii.eqb_spec c "+"%char) as [->|Hplus]; cbn [orb] in *.
      * exists "+", s'.
        split; [reflexivity|]. split; [now right; left|]. split; [exact Hne|].
        split; [exact Hd|]. split; [exact Hr|reflexivity].
      * exists "", (String c s').
        split; [reflexivity|]. split; [now left|]. split; [exact Hne|].
        split; [exact Hd|]. split; [exact Hr|reflexivity].
  - intros (sign & ds & -> & Hsign & Hne & Hd & Hr & ->).
    destruct ds as [|d ds']; [now destruct Hne|].
    assert (strconv.is_digit d = true) as Hdig.
    { rewrite all_digits_cons in Hd. now apply andb_true_iff in Hd as [Hd _]. }
    destruct (is_digit_not_sign d Hdig) as [Hplus Hminus].
    destruct Hsign as [-> | [-> | ->]]; unfold signed in *; simpl String.eqb in *.
    + assert (strconv.ParseInt ("" +:+ String d ds') = inl (digits_value (String d ds') 0))
        as ->; [|reflexivity].
      apply (ParseInt_magnitude _ (String d ds') d ds' false); try reflexivity.
      * now rewrite Hminus.
      * now rewrite Hplus.
      * split; [discriminate|]. split; [exact Hd|]. split; [reflexivity|exact Hr].
    + assert (strconv.ParseInt ("+" +:+ String d ds') = inl (digits_value (String d ds') 0))
        as ->; [|reflexivity].
      apply (ParseInt_magnitude _ (String d ds') "+"%char (String d ds') false);
        try reflexivity.
      split; [discriminate|]. split; [exact Hd|]. split; [reflexivity|exact Hr].
    + assert (strconv.ParseInt ("-" +:+ String d ds')
              = inl (- digits_value (String d ds') 0)) as ->; [|reflexivity].
      apply (ParseInt_magnitude _ (String d ds') "-"%char (String d ds') true);
        try reflexivity.
      split; [discriminate|]. split; [exact Hd|]. split; [reflexivity|exact Hr].
Qed.

(** ** The text [MarshalJSON] prints *)

Lemma is_digit_cases (c : ascii) :
  strconv.is_digit c = true ->
  In c ["0"; "1"; "2"; "3"; "4"; "5"; "6"; "7"; "8"; "9"]%char.
Proof.
  destruct c as [[] [] [] [] [] [] [] []]; intros H; try discriminate H;
    simpl; tauto.
Qed.

Lemma append_nil_r (s : string) : s +:+ "" = s.
Proof.
  induction s as [|c s IH]; [reflexivity|].
  change (String c s +:+ "") with (String c (s +:+ "")). now rewrite IH.
Qed.

Lemma span_digits_all (s : string) :
  all_digits s = true -> span_digits s = (s, "").
Proof.
  induction s as [|c s IH]; [reflexivity|].
  rewrite all_digits_cons. intros H. apply andb_true_iff in H as [Hc Hs].
  cbn [span_digits]. now rewrite Hc, IH.
Qed.

Lemma scan_number_digits (c : ascii) (s : string) :
  In c ["1"; "2"; "3"; "4"; "5"; "6"; "7"; "8"; "9"]%char ->
  all_digits s = true ->
  scan_number (String c s) = Some (String c s, "").
Proof.
  intros Hc Hs.
  assert (span_digits (String c s) = (String c s, "")) as Hspan.
  { apply span_digits_all. rewrite all_digits_cons, Hs.
    simpl in Hc. decompose [or] Hc; subst; try reflexivity; contradiction. }
  simpl in Hc. decompose [or] Hc; subst; try contradiction;
    unfold scan_number; rewrite Hspan; cbn; now rewrite append_nil_r.
Qed.

Lemma scan_number_negative (c : ascii) (s : string) :
  In c ["1"; "2"; "3"; "4"; "5"; "6"; "7"; "8"; "9"]%char ->
  all_digits s = true ->
  scan_number (String "-" (String c s)) = Some (String "-" (String c s), "").
Proof.
  intros Hc Hs.
  assert (span_digits (String c s) = (String c s, "")) as Hspan.
  { apply span_digits_all. rewrite all_digits_cons, Hs.
    simpl in Hc. decompose [or] Hc; subst; try reflexivity; contradiction. }
  simpl in Hc. decompose [or] Hc; subst; try contradiction;
    unfold scan_number; rewrite Hspan; cbn; now rewrite append_nil_r.
Qed.

Lemma scan_value_number (f : nat) (c : ascii) (s : string) :
  In c ["-"; "0"; "1"; "2"; "3"; "4"; "5"; "6"; "7"; "8"; "9"]%char ->
  skip_ws (String c s) = String c s
  /\ scan_value (S f) (String c s)
     = match scan_number (String c s) with
       | Some (lit, r') => Some (JNumber lit, r')
       | None => None
       end.
Proof.
  intros Hc. simpl in Hc.
  decompose [or] Hc; subst; try contradiction; split; reflexivity.
Qed.

Lemma json_parse_number (c : ascii) (s lit : string) :
  In c ["-"; "0"; "1"; "2"; "3"; "4"; "5"; "6"; "7"; "8"; "9"]%char ->
  scan_number (String c s) = Some (lit, "") ->
  json_parse (String c s) = Some (JNumber lit).
Proof.
  intros Hc Hs. unfold json_parse.
  destruct (scan_value_number (String.length (String c s)) c s Hc) as [-> ->].
  now rewrite Hs.
Qed.

Lemma all_digits_app (s t : string) :
  all_digits (s +:+ t) = all_digits s && all_digits t.
Proof.
  induction s as [|c s IH]; [reflexivity|].
  change (String c s +:+ t) with (String c (s +:+ t)).
  now rewrite !all_digits_cons, IH, andb_assoc.
Qed.

Lemma digit_char_nonzero (d : Z) :
  1 <= d < 10 ->
  In (strconv.digit_char d) ["1"; "2"; "3"; "4"; "5"; "6"; "7"; "8"; "9"]%char.
Proof.
  intros H.
  assert (d = 1 \/ d = 2 \/ d = 3 \/ d = 4 \/ d = 5 \/ d = 6
          \/ d = 7 \/ d = 8 \/ d = 9) as Hd by lia.
  decompose [or] Hd; subst; simpl; tauto.
Qed.

(** The digits of a positive number start with a digit that is not zero. *)
Lemma digits_shape (fuel : nat) : forall u,
  1 <= u < 10 ^ Z.of_nat fuel ->
  exists c s,
    strconv.digits fuel u = String c s
    /\ In c ["1"; "2"; "3"; "4"; "5"; "6"; "7"; "8"; "9"]%char
    /\ all_digits s = true.
Proof.
  induction fuel as [|f IH]; intros u Hu; [simpl in Hu; lia|].
  cbn [strconv.digits]. destruct (Z.ltb_spec u 10) as [Hs|Hs].
  - eexists _, _. split; [reflexivity|]. split; [|reflexivity].
    apply digit_char_nonzero. lia.
  - rewrite Nat2Z.inj_succ, Z.pow_succ_r in Hu by lia.
    destruct (IH (u / 10)) as (c & s & -> & Hc & Hds).
    { split; [apply Z.div_le_lower_bound; lia|apply Z.div_lt_upper_bound; lia]. }
    exists c, (s +:+ String (strconv.digit_char (u mod 10)) EmptyString).
    split; [reflexivity|]. split; [exact Hc|].
    rewrite all_digits_app, Hds, all_digits_cons.
    destruct (digit_char_ok (u mod 10)) as [-> _]; [|reflexivity].
    apply Z.mod_pos_bound. lia.
Qed.

(** X8. What [timestamp.MarshalJSON] returns is, for every timestamp, a
    well-formed JSON text: one number, the text itself, without leading
    zeros, fraction or exponent.  (This is what [encoding/json] asks of
    a [Marshaler]: it refuses to encode a value whose [MarshalJSON]
    returns anything else.) *)
Theorem timestamp_MarshalJSON_is_a_number (t : timestamp) :
  json_parse (timestamp_MarshalJSON t) = Some (JNumber (timestamp_MarshalJSON t)).
Proof.
  unfold timestamp_MarshalJSON. cbv zeta.
  pose proof (Int64_wrap_range (time.sec t + time.internalToUnix)) as Hr.
  fold (time.Time_Unix t) in Hr. generalize dependent (time.Time_Unix t).
  intros i Hr. unfold Int64.in_range, Int64.min_int64, Int64.max_int64 in Hr.
  unfold strconv.FormatInt.
  destruct (Z.ltb_spec i 0) as [Hneg|Hpos].
  - rewrite Int64_wrapu_id by (unfold Int64.max_uint64; lia).
    destruct (digits_shape 20 (- i)) as (c & s & -> & Hc & Hs).
    { change (10 ^ Z.of_nat 20) with 100000000000000000000. lia. }
    apply json_parse_number; [simpl; tauto|].
    now apply scan_number_negative.
  - rewrite Int64_wrapu_id by (unfold Int64.max_uint64; lia).
    destruct (Z.eq_dec i 0) as [->|Hnz]; [reflexivity|].
    destruct (digits_shape 20 i) as (c & s & -> & Hc & Hs).
    { change (10 ^ Z.of_nat 20) with 100000000000000000000. lia. }
    apply json_parse_number; [simpl in *; tauto|].
    now apply scan_number_digits.
Qed.

(** ** Addresses of TCP pools *)

Lemma authority_char_facts (c : ascii) :
  authority_char c = true ->
  ((url.code c <? 32) || (url.code c =? 127)) = false
  /\ Ascii.eqb c "#"%char = false /\ Ascii.eqb c "?"%char = false
  /\ Ascii.eqb c "/"%char = false /\ Ascii.eqb c "@"%char = false
  /\ Ascii.eqb c "%"%char = false /\ Ascii.eqb c "+"%char = false
  /\ Ascii.eqb c "["%char = false
  /\ ((url.code c <? 128) && url.shouldEscape c url.encodeHost) = false.
Proof.
  destruct c as [[] [] [] [] [] [] [] []]; intros H; try discriminate H;
    repeat split; reflexivity.
Qed.

Lemma plain_authority_cons (c : ascii) (s : string) :
  plain_authority (String c s) = authority_char c && plain_authority s.
Proof. reflexivity. Qed.

Lemma append_cons (c : ascii) (s t : string) :
  String c s +:+ t = String c (s +:+ t).
Proof. reflexivity. Qed.

Lemma plain_authority_app (s t : string) :
  plain_authority (s +:+ t) = plain_authority s && plain_authority t.
Proof.
  induction s as [|c s IH]; [reflexivity|].
  now rewrite append_cons, !plain_authority_cons, IH, andb_assoc.
Qed.

Lemma host_name_plain (s : string) : host_name s = true -> plain_authority s = true.
Proof.
  unfold host_name, plain_authority, authority_char.
  induction s as [|c s IH]; [reflexivity|]. simpl.
  intros H. apply andb_true_iff in H as [-> H]. now rewrite IH.
Qed.

Lemma port_number_plain (s : string) :
  port_number s = true -> plain_authority s = true.
Proof.
  unfold port_number, plain_authority, authority_char, host_char.
  induction s as [|c s IH]; [reflexivity|]. simpl.
  intros H. apply andb_true_iff in H as [-> H]. rewrite IH by assumption.
  now rewrite orb_true_r.
Qed.

Lemma host_port_plain (host port : string) :
  host_name host = true -> port_number port = true ->
  plain_authority (host +:+ ":" +:+ port) = true.
Proof.
  intros Hh Hp. rewrite plain_authority_app, (host_name_plain _ Hh).
  rewrite append_cons, plain_authority_cons. simpl.
  now apply port_number_plain.
Qed.

(** A byte that is no character of an authority does not occur in one. *)
Lemma plain_IndexByte (c : ascii) (s : string) :
  authority_char c = false -> plain_authority s = true ->
  url.IndexByte c s = None /\ url.LastIndexByte c s = None.
Proof.
  intros Hc. induction s as [|d s IH]; [now split|].
  rewrite plain_authority_cons. intros H. apply andb_true_iff in H as [Hd Hs].
  destruct (IH Hs) as [H1 H2]. simpl. rewrite H1, H2.
  destruct (Ascii.eqb_spec d c) as [->|]; [congruence|now split].
Qed.

Lemma colon_not_in_name (s : string) :
  host_name s = true \/ port_number s = true ->
  url.LastIndexByte ":" s = None.
Proof.
  unfold host_name, port_number.
  induction s as [|d s IH]; [reflexivity|]. simpl.
  intros [H|H]; apply andb_true_iff in H as [Hd Hs];
    (rewrite IH by tauto);
    (destruct (Ascii.eqb_spec d ":") as [->|]; [discriminate Hd|reflexivity]).
Qed.

Lemma LastIndexByte_middle (c : ascii) (a b : string) :
  url.LastIndexByte c b = None ->
  url.LastIndexByte c (a +:+ String c b) = Some (String.length a).
Proof.
  intros Hb. induction a as [|d a IH].
  - simpl. rewrite Hb. now rewrite Ascii.eqb_refl.
  - rewrite append_cons. simpl. now rewrite IH.
Qed.

Lemma length_append (a b : string) :
  String.length (a +:+ b) = (String.length a + String.length b)%nat.
Proof. induction a as [|c a IH]; [reflexivity|]. rewrite append_cons. simpl. now rewrite IH. Qed.

Lemma upto_append (a b : string) : url.upto (String.length a) (a +:+ b) = a.
Proof.
  unfold url.upto. induction a as [|c a IH].
  - destruct b; reflexivity.
  - rewrite append_cons. simpl. now rewrite IH.
Qed.

Lemma from_append (a b : string) : url.from (String.length a) (a +:+ b) = b.
Proof.
  unfold url.from. rewrite length_append.
  replace (String.length a + String.length b - String.length a)%nat
    with (String.length b) by lia.
  induction a as [|c a IH]; [apply substring_all|].
  rewrite append_cons. simpl. exact IH.
Qed.

Lemma from_append_S (a b : string) (c : ascii) :
  url.from (S (String.length a)) (a +:+ String c b) = b.
Proof.
  replace (S (String.length a)) with (String.length (a +:+ String c "")).
  - replace (a +:+ String c b) with ((a +:+ String c "") +:+ b).
    + apply from_append.
    + induction a as [|d a IH]; [reflexivity|]. rewrite !append_cons. now rewrite IH.
  - rewrite length_append. simpl. lia.
Qed.

Lemma Unescape_plain (s : string) :
  plain_authority s = true -> url.Unescape s url.encodeHost = inl s.
Proof.
  unfold url.Unescape. induction s as [|c s IH]; [reflexivity|].
  rewrite plain_authority_cons. intros H. apply andb_true_iff in H as [Hc Hs].
  destruct (authority_char_facts c Hc) as (_ & _ & _ & _ & _ & Hpc & Hplus & _ & Hesc).
  cbn [String.length url.unescape]. rewrite Hpc, Hplus.
  cbn [andb]. rewrite Hesc. now rewrite IH.
Qed.

Lemma prefix_bracket (s : string) :
  plain_authority s = true -> url.HasPrefix s "[" = false.
Proof.
  unfold url.HasPrefix. destruct s as [|c s]; [reflexivity|].
  rewrite plain_authority_cons. intros H. apply andb_true_iff in H as [Hc _].
  destruct (authority_char_facts c Hc) as (_ & _ & _ & _ & _ & _ & _ & Hb & _).
  destruct (String.prefix "[" (String c s)) eqn:E; [|reflexivity].
  apply String.prefix_correct in E. simpl in E. injection E as -> _.
  discriminate Hb.
Qed.

Lemma validOptionalPort_port (port : string) :
  port_number port = true -> url.validOptionalPort (String ":" port) = true.
Proof. intros H. exact H. Qed.

Lemma parseHost_host_port (host port : string) :
  host_name host = true -> port_number port = true ->
  url.parseHost (host +:+ ":" +:+ port) = inl (host +:+ ":" +:+ port).
Proof.
  intros Hh Hp. pose proof (host_port_plain host port Hh Hp) as Hpl.
  unfold url.parseHost. rewrite (prefix_bracket _ Hpl).
  change (host +:+ ":" +:+ port) with (host +:+ String ":" port).
  rewrite LastIndexByte_middle by (apply colon_not_in_name; now right).
  rewrite from_append, (validOptionalPort_port port Hp). cbn [negb].
  now apply Unescape_plain.
Qed.

Lemma splitHostPort_host_port (host port : string) :
  host_name host = true -> port_number port = true ->
  url.splitHostPort (host +:+ ":" +:+ port) = (host, port).
Proof.
  intros Hh Hp. unfold url.splitHostPort.
  change (host +:+ ":" +:+ port) with (host +:+ String ":" port).
  rewrite LastIndexByte_middle by (apply colon_not_in_name; now right).
  rewrite from_append, (validOptionalPort_port port Hp).
  rewrite upto_append, from_append_S.
  now rewrite (prefix_bracket host (host_name_plain _ Hh)).
Qed.

Lemma CTL_plain (s : string) :
  plain_authority s = true -> url.stringContainsCTLByte s = false.
Proof.
  unfold url.stringContainsCTLByte. induction s as [|c s IH]; [reflexivity|].
  rewrite plain_authority_cons. intros H. apply andb_true_iff in H as [Hc Hs].
  destruct (authority_char_facts c Hc) as (Hctl & _). simpl.
  now rewrite Hctl, IH.
Qed.

Lemma split_query_none (s : string) :
  url.IndexByte "?" s = None -> url.LastIndexByte "?" s = None ->
  url.split_query s = (s, false, "").
Proof.
  intros H1 H2. unfold url.split_query, url.HasSuffix, url.Cut.
  now rewrite H1, H2.
Qed.

(** [url.Parse] on an address [tcp://host:port]. *)
Lemma Parse_tcp (host port : string) :
  host_name host = true -> port_number port = true ->
  url.Parse ("tcp://" +:+ host +:+ ":" +:+ port)
  = inl {| url.Scheme := "tcp"; url.Opaque := ""; url.User := None;
           url.Host := host +:+ ":" +:+ port; url.Path := "";
           url.ForceQuery := false; url.RawQuery := ""; url.Fragment := "" |}.
Proof.
  intros Hh Hp.
  pose proof (host_port_plain host port Hh Hp) as Hpl.
  pose proof (parseHost_host_port host port Hh Hp) as HH.
  set (hp := host +:+ ":" +:+ port) in *. clearbody hp.
  destruct (plain_IndexByte "#" hp eq_refl Hpl) as [Hhash _].
  destruct (plain_IndexByte "?" hp eq_refl Hpl) as [Hq1 Hq2].
  destruct (plain_IndexByte "/" hp eq_refl Hpl) as [Hslash _].
  destruct (plain_IndexByte "@" hp eq_refl Hpl) as [_ Hat].
  pose proof (CTL_plain hp Hpl) as Hctl.
  change ("tcp://" +:+ hp)
    with (String "t" (String "c" (String "p" (String ":" (String "/" (String "/" hp)))))).
  unfold url.Parse, url.Cut. simpl url.IndexByte. rewrite Hhash. cbv iota beta.
  unfold url.parse.
  assert (url.stringContainsCTLByte
            (String "t" (String "c" (String "p" (String ":" (String "/" (String "/" hp))))))
          = false) as ->.
  { unfold url.stringContainsCTLByte in *. simpl. exact Hctl. }
  change (String.eqb
            (String "t" (String "c" (String "p" (String ":" (String "/" (String "/" hp))))))
            "*") with false.
  cbv iota.
  change (url.getScheme
            (String "t" (String "c" (String "p" (String ":" (String "/" (String "/" hp)))))))
    with (@inl (string * string) url.Err ("tcp", String "/" (String "/" hp))).
  cbv iota beta. change (url.ToLower "tcp") with "tcp".
  rewrite split_query_none by (simpl; now rewrite ?Hq1, ?Hq2).
  cbv iota beta zeta.
  change (url.HasPrefix (String "/" (String "/" hp)) "/") with true.
  cbn [negb andb]. cbv iota.
  assert (url.split_authority "tcp" (String "/" (String "/" hp)) = inl (None, hp, ""))
    as ->.
  { unfold url.split_authority.
    assert (url.HasPrefix (String "/" (String "/" hp)) "//" = true) as ->
      by (unfold url.HasPrefix; apply String.prefix_correct; simpl;
          now destruct hp).
    change (negb (String.eqb "tcp" "")) with true. cbn [orb andb]. cbv iota.
    assert (url.from 2 (String "/" (String "/" hp)) = hp) as ->.
    { unfold url.from. simpl. rewrite Nat.sub_0_r. apply substring_all. }
    rewrite Hslash. unfold url.parseAuthority. rewrite Hat, HH. reflexivity. }
  reflexivity.
Qed.

(** X10. An address [tcp://host:port], for a host name of letters,
    digits, hyphens and dots and a port of digits: [url.Parse] accepts
    it and the scrape dials the network [tcp] at [host:port], with a
    timeout of three seconds, as its first call on the client library. *)
Theorem tcp_address_dialled (host port : string) (dial : Dialer) (p : Pool)
    (st : State) (calls : list LogCall) :
  log st = Some calls ->
  host_name host = true ->
  port_number port = true ->
  Address p = "tcp://" +:+ host +:+ ":" +:+ port ->
  exists p' err st' rest,
    Pool_Update dial p st = Some ((p', err), st')
    /\ trace st'
       = trace st
         ++ ev_DialTimeout "tcp" (host +:+ ":" +:+ port) (3 * Second) :: rest.
Proof.
  intros Hlog Hh Hp HA.
  pose proof (Parse_tcp host port Hh Hp) as HP. rewrite <- HA in HP.
  destruct (Pool_Update_parse_accepted dial p st calls _ Hlog HP)
    as (p' & err & st' & rest & Hrun & Htrace).
  exists p', err, st', rest. split; [exact Hrun|].
  rewrite Htrace. unfold url.Hostname, url.Port. cbn [url.Host url.Scheme].
  now rewrite (splitHostPort_host_port host port Hh Hp).
Qed.

Lemma tcp_address_dialled_witness :
  exists p' err st' rest,
    Pool_Update refuse pool_of_three state_of_three = Some ((p', err), st')
    /\ trace st'
       = trace state_of_three
         ++ ev_DialTimeout "tcp" ("127.0.0.1" +:+ ":" +:+ "9000") (3 * Second)
            :: rest.
Proof.
  apply (tcp_address_dialled "127.0.0.1" "9000" refuse pool_of_three
           state_of_three []); reflexivity.
Defined.

(** ** Registering pools *)

(** X11. A sequence of [Add] calls registers one pool per call, in the
    order of the calls, after the pools that were there.  No address is
    checked and none is looked up among the pools there are: an address
    [url.Parse] will refuse and an address given twice each get their
    entry.  [Add] needs no logger and leaves the state as it is. *)
Theorem Add_many (uris : list string) (pm : PoolManager) (st : State) :
  run (map op_Add uris) pm st
  = Some ({| Pools := Pools pm ++ map Pool_with_Address uris |}, st).
Proof.
  revert pm. induction uris as [|uri uris IH]; intros pm.
  - simpl. unfold ret. rewrite app_nil_r. now destruct pm.
  - simpl map. cbn [run]. unfold bind. cbn [run_op]. unfold ret at 1.
    rewrite IH. simpl. now rewrite <- app_assoc.
Qed.

(** ** Bodies that are no object *)

(** X12. A scrape whose response body is well-formed JSON but no
    object.  For the body [null] the call returns nil although nothing
    was decoded: the snapshot the pool held stays and the last error is
    cleared.  For any other value (an array, a string, a number, a
    boolean) it returns a type error that names the kind of the value
    and [phpfpm.Pool], and the snapshot and the heap are as before. *)
Theorem Pool_Update_body_not_an_object (dial : Dialer) (p : Pool) (st : State)
    (calls : list LogCall) (content : string) (v : json)
    (evs closes : list Event) :
  log st = Some calls ->
  fetch dial (Address p) = (inr content, evs, closes) ->
  json_parse content = Some v ->
  not_an_object v = true ->
  exists p' st',
    Pool_Update dial p st = Some ((p', not_a_pool v), st')
    /\ ScrapeError p' = not_a_pool v
    /\ st_heap st' = st_heap st
    /\ snapshot (st_heap st') p' = snapshot (st_heap st) p.
Proof.
  intros Hlog Hf Hparse Hno.
  assert (Unmarshal content (set_ScrapeError None p) (st_heap st)
          = (set_ScrapeError None p, st_heap st, not_a_pool v)) as HU.
  { unfold Unmarshal. rewrite Hparse. destruct v; try reflexivity. discriminate Hno. }
  rewrite (Pool_Update_fetched dial p st calls content evs closes _ _ _ Hlog Hf HU).
  eexists _, _. split; [reflexivity|].
  destruct (not_a_pool v) as [e|]; repeat split.
Qed.

Lemma Pool_Update_body_not_an_object_witness :
  exists p' st',
    Pool_Update (serve "null") pool_of_three state_of_three
    = Some ((p', not_a_pool JNull), st')
    /\ ScrapeError p' = not_a_pool JNull
    /\ st_heap st' = st_heap state_of_three
    /\ snapshot (st_heap st') p' = snapshot (st_heap state_of_three) pool_of_three.
Proof.
  apply (Pool_Update_body_not_an_object (serve "null") pool_of_three
           state_of_three [] "null" JNull
           [ev_DialTimeout "tcp" "127.0.0.1:9000" (3 * Second); ev_Get env; ev_ReadAll]
           [ev_Body_Close; ev_Close]); reflexivity.
Defined.

(** ** Fields the body does not mention *)

(** Storing a member in the field [g] leaves every other field as it is,
    and the process slice and the heap too unless [g] is the process
    list. *)
Lemma store_pool_field_frame f g raw v p h saved p' h' sv stop :
  PoolField_eqb f g = false ->
  store_pool_field g raw v p h saved = (p', h', sv, stop) ->
  field f h' p' = field f h p
  /\ (PoolField_eqb F_Processes g = false -> Processes p' = Processes p /\ h' = h).
Proof.
  intros Hfg. unfold store_pool_field.
  destruct g;
    repeat match goal with
           | |- context [store_int ?a ?b ?c ?d] => destruct (store_int a b c d)
           | |- context [store_string ?a ?b ?c] => destruct (store_string a b c)
           | |- context [timestamp_UnmarshalJSON ?a] => destruct (timestamp_UnmarshalJSON a)
           | |- context [store_processes ?a ?b ?c ?d] => destruct (store_processes a b c d) as [[? ?] ?]
           end;
    intros [= <- <- <- <-];
    (split; [destruct f; try discriminate Hfg; reflexivity
            |intros Hg; try discriminate Hg; now split]).
Qed.

Lemma store_pool_members_frame f ms : forall p h saved p' h' sv stop,
  mentions f ms = false ->
  store_pool_members ms p h saved = (p', h', sv, stop) ->
  field f h' p' = field f h p
  /\ (f = F_Processes -> Processes p' = Processes p /\ h' = h).
Proof.
  induction ms as [|[[key raw] v] ms IH]; intros p h saved p' h' sv stop Hm; simpl.
  - intros [= <- <- <- <-]. now split.
  - simpl in Hm. apply orb_false_iff in Hm as [Hsel Hm].
    unfold selects in Hsel. apply orb_false_iff in Hsel as [_ Hsel].
    destruct (find_field pool_fields key) as [g|]; [|now apply IH].
    destruct (store_pool_field g raw v p h saved) as [[[p1 h1] sv1] [e|]] eqn:E.
    + intros [= <- <- <- <-].
      destruct (store_pool_field_frame f g _ _ _ _ _ _ _ _ _ Hsel E) as [H1 H2].
      split; [exact H1|]. intros ->. now apply H2.
    + intros H.
      destruct (store_pool_field_frame f g _ _ _ _ _ _ _ _ _ Hsel E) as [H1 H2].
      destruct (IH _ _ _ _ _ _ _ Hm H) as [H3 H4].
      split; [congruence|]. intros ->.
      destruct (H2 Hsel) as [HA HB]. destruct (H4 eq_refl) as [HC HD].
      split; congruence.
Qed.

(** X13. A field the body does not mention keeps its value.  When the
    body is an object none of whose keys selects the field [f] (by its
    name, whatever the case of its letters), decoding leaves [f] as it
    was, whether it ends with an error or not: [Update] does not reset
    the snapshot first, so what an earlier scrape stored stays.  For the
    process list the slice header and the heap stay too. *)
Theorem Unmarshal_keeps_absent_field (f : PoolField) (data : string)
    (ms : list (string * string * json)) (p : Pool) (h : heap) :
  json_parse data = Some (JObject ms) ->
  mentions f ms = false ->
  let '(p', h', _) := Unmarshal data p h in
  field f h' p' = field f h p
  /\ (f = F_Processes -> Processes p' = Processes p /\ h' = h).
Proof.
  intros Hparse Hm. unfold Unmarshal. rewrite Hparse.
  destruct (store_pool_members ms p h None) as [[[p1 h1] sv1] [e|]] eqn:E;
    eapply store_pool_members_frame; eassumption.
Qed.

Lemma Unmarshal_keeps_absent_field_witness :
  let '(p', h', _) := Unmarshal second_body pool_of_three [three_processes] in
  field F_Name h' p' = field F_Name [three_processes] pool_of_three
  /\ (F_Name = F_Processes ->
      Processes p' = Processes pool_of_three /\ h' = [three_processes]).
Proof.
  eapply (Unmarshal_keeps_absent_field F_Name second_body _ pool_of_three
            [three_processes]).
  - vm_compute. reflexivity.
  - vm_compute. reflexivity.
Defined.

(** ** The process list a body stores *)

(** The value stored in a field of a process does not depend on the
    error saved so far, and the error saved does not depend on what the
    process held. *)
Lemma store_process_field_indep f v p q saved saved' :
  fst (store_process_field f v p saved) = fst (store_process_field f v p saved')
  /\ snd (store_process_field f v p saved) = snd (store_process_field f v q saved).
Proof.
  unfold store_process_field, store_int, store_string, store_float64.
  destruct f, v; cbn;
    try destruct (strconv.ParseInt lit); try destruct (ParseFloat lit);
    split; reflexivity.
Qed.

Lemma store_process_members_indep ms : forall p q saved saved',
  fst (store_process_members ms p saved) = fst (store_process_members ms p saved')
  /\ snd (store_process_members ms p saved) = snd (store_process_members ms q saved).
Proof.
  induction ms as [|[[key raw] v] ms IH]; intros p q saved saved'; [now split|].
  simpl. destruct (find_field process_fields key) as [f|]; [|apply IH].
  destruct (store_process_field_indep f v p q saved saved') as [H1 H2].
  destruct (store_process_field f v p saved) as [p1 sv1].
  destruct (store_process_field f v p saved') as [p2 sv2].
  destruct (store_process_field f v q saved) as [q1 sv3].
  simpl in H1, H2. subst. split.
  - apply (IH p2 p2 sv3 sv2).
  - apply (IH p2 q1 sv3 sv3).
Qed.

Lemma store_process_indep v p q saved saved' :
  fst (store_process v p saved) = fst (store_process v p saved')
  /\ snd (store_process v p saved) = snd (store_process v q saved).
Proof.
  destruct v; try (now split). apply store_process_members_indep.
Qed.

(** *** The backing arrays *)

Lemma backing_lookup (h : heap) (s : slice) (a : nat) (B : list PoolProcess) :
  arr s = Some a -> h !! a = Some B -> backing h s = B.
Proof. unfold backing. now intros -> ->. Qed.

Lemma backing_nonempty (h : heap) (s : slice) :
  (0 < cap h s)%nat ->
  exists a, arr s = Some a /\ h !! a = Some (backing h s).
Proof.
  unfold cap, backing. destruct (arr s) as [a|]; [|simpl; lia].
  destruct (h !! a) as [B|] eqn:E; [|simpl; lia]. intros _. exists a.
  split; [reflexivity|exact E].
Qed.

(** One element of the array stored at the cell [i] of a slice whose
    array [B1] has room for it. *)
Lemma store_elements_spec (vs : list json) :
  forall (i : nat) (s : slice) (h : heap) (saved : option error)
         (i' : nat) (s' : slice) (h' : heap) (saved' : option error),
  (len s <= cap h s)%nat -> (i <= len s)%nat ->
  store_elements vs i s h saved = (i', s', h', saved') ->
  i' = (i + length vs)%nat
  /\ len s' = Nat.max (len s) (i + length vs)
  /\ (len s' <= cap h' s')%nat
  /\ (forall j, (j < i)%nat -> backing h' s' !! j = backing h s !! j)
  /\ (forall j v, vs !! j = Some v ->
        backing h' s' !! (i + j)%nat
        = Some (fst (store_process v
                       (default Proc.zero (backing h s !! (i + j)%nat)) None)))
  /\ (length h <= length h')%nat
  /\ (forall b, (b < length h)%nat -> arr s <> Some b -> h' !! b = h !! b)
  /\ (vs = [] -> h' = h /\ s' = s).
Proof.
  induction vs as [|v vs IH]; intros i s h saved i' s' h' saved' Hwf Hi.
  - simpl. intros [= <- <- <- <-].
    split; [lia|]. split; [lia|]. split; [exact Hwf|].
    split; [reflexivity|]. split; [intros j v Hv; discriminate Hv|].
    split; [lia|]. split; [reflexivity|]. now split.
  - assert (forall (s1 : slice) (h1 : heap) (a : nat) (B1 : list PoolProcess),
              arr s1 = Some a -> h1 !! a = Some B1 ->
              (i < length B1)%nat -> (len s <= length B1)%nat ->
              len s1 = len s ->
              (forall j, (j < len s)%nat -> B1 !! j = backing h s !! j) ->
              (forall j, default Proc.zero (B1 !! j)
                         = default Proc.zero (backing h s !! j)) ->
              (length h <= length h1)%nat ->
              (forall b, (b < length h)%nat -> h1 !! b = h !! b) ->
              ((a < length h)%nat -> arr s = Some a) ->
              (let s2 := if (len s1 <=? i)%nat
                         then {| arr := arr s1; len := S i |} else s1 in
               let '(x, sv) :=
                 store_process v (default Proc.zero (backing h1 s2 !! i)) saved in
               store_elements vs (S i) s2 (write h1 s2 i x) sv)
              = (i', s', h', saved') ->
              i' = (i + length (v :: vs))%nat
              /\ len s' = Nat.max (len s) (i + length (v :: vs))
              /\ (len s' <= cap h' s')%nat
              /\ (forall j, (j < i)%nat -> backing h' s' !! j = backing h s !! j)
              /\ (forall j v0, (v :: vs) !! j = Some v0 ->
                    backing h' s' !! (i + j)%nat
                    = Some (fst (store_process v0
                                   (default Proc.zero (backing h s !! (i + j)%nat))
                                   None)))
              /\ (length h <= length h')%nat
              /\ (forall b, (b < length h)%nat -> arr s <> Some b -> h' !! b = h !! b)
              /\ (v :: vs = [] -> h' = h /\ s' = s)) as Hcont.
    { intros s1 h1 a B1 Ha HB1 HiB HlenB Hlen1 Hold Hdef Hgrow Hframe Hmine.
      set (s2 := if (len s1 <=? i)%nat then {| arr := arr s1; len := S i |} else s1).
      assert (arr s2 = Some a) as Ha2 by (unfold s2; now destruct (len s1 <=? i)%nat).
      assert (len s2 = Nat.max (len s) (S i)) as Hlen2.
      { unfold s2. destruct (Nat.leb_spec (len s1) i); simpl; lia. }
      cbv zeta. rewrite (backing_lookup h1 s2 a B1 Ha2 HB1).
      destruct (store_process v (default Proc.zero (B1 !! i)) saved) as [x sv] eqn:Hx.
      assert (write h1 s2 i x = <[a := <[i := x]> B1]> h1) as ->.
      { unfold write. now rewrite Ha2, (backing_lookup h1 s2 a B1 Ha2 HB1). }
      pose proof (lookup_lt_Some _ _ _ HB1) as Hah1.
      assert (backing (<[a := <[i := x]> B1]> h1) s2 = <[i := x]> B1) as Hb2.
      { apply (backing_lookup _ _ a); [exact Ha2|].
        now apply list_lookup_insert_eq. }
      intros Hrun.
      destruct (IH (S i) s2 (<[a := <[i := x]> B1]> h1) sv i' s' h' saved')
        as (E1 & E2 & E3 & E4 & E5 & E6 & E7 & _).
      { unfold cap. rewrite Hb2, length_insert. lia. }
      { lia. }
      { exact Hrun. }
      assert (length (<[a := <[i := x]> B1]> h1) = length h1) as Hlen_h2
        by apply length_insert.
      rewrite Hb2 in E4, E5. rewrite Hlen_h2 in E6, E7.
      split; [simpl; lia|]. split; [simpl length; lia|]. split; [exact E3|].
      split.
      { intros j Hj. rewrite E4 by lia.
        rewrite list_lookup_insert_ne by lia. apply Hold. lia. }
      split.
      { intros j v0 Hv0. destruct j as [|k].
        - injection Hv0 as <-. rewrite Nat.add_0_r, E4 by lia.
          rewrite list_lookup_insert_eq by exact HiB. f_equal.
          replace x with (fst (store_process v (default Proc.zero (B1 !! i)) saved))
            by (now rewrite Hx).
          rewrite Hdef.
          apply (store_process_indep v _ Proc.zero saved None).
        - simpl in Hv0. replace (i + S k)%nat with (S i + k)%nat by lia.
          rewrite (E5 k v0 Hv0).
          rewrite list_lookup_insert_ne by lia. now rewrite Hdef. }
      split; [lia|]. split.
      { intros b Hb Hnot. rewrite E7.
        - transitivity (h1 !! b); [|now apply Hframe].
          apply list_lookup_insert_ne.
          intros ->. apply Hnot. now apply Hmine.
        - lia.
        - rewrite Ha2. intros [= ->]. apply Hnot. now apply Hmine. }
      intros Hnil. discriminate Hnil. }
    cbn [store_elements].
    destruct (Nat.leb_spec (cap h s) i) as [Hcap|Hcap].
    + (* the slice is grown *)
      assert (len s = cap h s /\ i = len s) as [Hfull Hieq] by lia.
      set (c := if (cap h s + cap h s / 2 <? 4)%nat then 4%nat
                else (cap h s + cap h s / 2)%nat).
      assert (cap h s < c)%nat as Hc.
      { unfold c. destruct (Nat.ltb_spec (cap h s + cap h s / 2) 4); [lia|].
        assert (2 <= cap h s)%nat.
        { destruct (cap h s) as [|[|n]]; simpl in *; lia. }
        pose proof (Nat.div_str_pos (cap h s) 2 ltac:(lia)). lia. }
      cbv zeta. fold c. unfold grow, alloc.
      assert (elems h s = backing h s) as ->.
      { unfold elems. apply take_ge. unfold cap in Hfull. lia. }
      apply (Hcont _ _ (length h) (backing h s ++ replicate (c - len s) Proc.zero)).
      * reflexivity.
      * now apply list_lookup_middle.
      * rewrite length_app, length_replicate. unfold cap in *. lia.
      * rewrite length_app. unfold cap in *. lia.
      * reflexivity.
      * intros j Hj. apply lookup_app_l. unfold cap in *. lia.
      * intros j. destruct (Nat.lt_ge_cases j (length (backing h s))) as [Hj|Hj].
        -- now rewrite lookup_app_l.
        -- rewrite lookup_app_r, (lookup_ge_None_2 (backing h s)) by exact Hj.
           destruct (Nat.lt_ge_cases (j - length (backing h s)) (c - len s)) as [Hr|Hr].
           ++ now rewrite lookup_replicate_2.
           ++ rewrite lookup_ge_None_2; [reflexivity|]. now rewrite length_replicate.
      * rewrite length_app. lia.
      * intros b Hb. now apply lookup_app_l.
      * lia.
    + (* there is room *)
      destruct (backing_nonempty h s ltac:(lia)) as (a & Ha & Hh).
      apply (Hcont s h a (backing h s));
        [exact Ha | exact Hh | unfold cap in *; lia | unfold cap in *; lia
        | reflexivity | reflexivity | reflexivity | lia | reflexivity
        | intros _; exact Ha].
Qed.

(** An array stored in a slice of processes: the slice gets the length
    of the array; the element [j] is the value [j] stored over what the
    cell [j] of the backing array held (the zero process where the array
    had no such cell); no other array of the heap is written. *)
Lemma store_processes_array (vs : list json) (s : slice) (h : heap)
    (saved : option error) (s' : slice) (h' : heap) (sv : option error) :
  valid_slice h s ->
  store_processes (JArray vs) s h saved = (s', h', sv) ->
  length (elems h' s') = length vs
  /\ (forall j v, vs !! j = Some v ->
        elems h' s' !! j
        = Some (fst (store_process v
                       (default Proc.zero (backing h s !! j)) None)))
  /\ (length h <= length h')%nat
  /\ (forall b, (b < length h)%nat -> arr s <> Some b -> h' !! b = h !! b)
  /\ valid_slice h' s'.
Proof.
  unfold valid_slice. intros Hwf. unfold store_processes.
  destruct (store_elements vs 0 s h saved) as [[[i s1] h1] sv1] eqn:E.
  apply store_elements_spec in E; [|exact Hwf|lia].
  destruct E as (E1 & E2 & E3 & _ & E5 & E6 & E7 & E8).
  simpl in E1, E2. subst i.
  destruct vs as [|v0 vs0].
  - destruct (E8 eq_refl) as [-> ->]. simpl.
    destruct (0 <? len s)%nat; intros [= <- <- <-].
    all: split; [reflexivity|]; split; [intros j v Hv; discriminate Hv|];
      (split; [rewrite length_app; simpl; lia|]);
      (split; [intros b Hb _; now apply lookup_app_l|]); simpl; lia.
  - set (n := length (v0 :: vs0)) in *.
    assert (0 < n)%nat as Hn by (unfold n; simpl; lia).
    destruct (Nat.eqb_spec n 0) as [Hz|_]; [lia|].
    set (s2 := if (n <? len s1)%nat then {| arr := arr s1; len := n |} else s1).
    assert (len s2 = n /\ backing h1 s2 = backing h1 s1) as [Hlen2 Hb2].
    { unfold s2. destruct (Nat.ltb_spec n (len s1)); simpl; split;
        try reflexivity; lia. }
    intros [= <- <- <-].
    unfold elems. rewrite Hlen2, Hb2. unfold cap in E3.
    split; [rewrite length_take; lia|].
    split.
    { intros j v Hv. pose proof (lookup_lt_Some _ _ _ Hv) as Hj. fold n in Hj.
      rewrite lookup_take_lt by exact Hj. apply (E5 j v Hv). }
    split; [exact E6|]. split; [exact E7|].
    unfold cap. rewrite ?Hb2, ?Hlen2. lia.
Qed.

(** *** Decoding, member after member *)

Lemma store_pool_members_app ms1 : forall ms2 p h saved,
  store_pool_members (ms1 ++ ms2) p h saved
  = match store_pool_members ms1 p h saved with
    | (p1, h1, sv1, None) => store_pool_members ms2 p1 h1 sv1
    | stopped => stopped
    end.
Proof.
  induction ms1 as [|[[key raw] v] ms1 IH]; intros ms2 p h saved; [reflexivity|].
  simpl. destruct (find_field pool_fields key) as [f|]; [|apply IH].
  destruct (store_pool_field f raw v p h saved) as [[[p1 h1] sv1] [e|]];
    [reflexivity|apply IH].
Qed.

(** Only [timestamp.UnmarshalJSON] stops the decoder. *)
Lemma store_pool_members_stop ms : forall p h saved p' h' sv e,
  store_pool_members ms p h saved = (p', h', sv, Some e) ->
  aborted (Some e) = true.
Proof.
  induction ms as [|[[key raw] v] ms IH]; intros p h saved p' h' sv e; simpl;
    [discriminate|].
  destruct (find_field pool_fields key) as [f|]; [|apply IH].
  destruct (store_pool_field f raw v p h saved) as [[[p1 h1] sv1] [e1|]] eqn:E;
    [|apply IH].
  intros [= <- <- <- <-]. revert E. unfold store_pool_field.
  destruct f;
    repeat match goal with
           | |- context [store_int ?a ?b ?c ?d] => destruct (store_int a b c d)
           | |- context [store_string ?a ?b ?c] => destruct (store_string a b c)
           | |- context [timestamp_UnmarshalJSON ?a] => destruct (timestamp_UnmarshalJSON a)
           | |- context [store_processes ?a ?b ?c ?d] => destruct (store_processes a b c d) as [[? ?] ?]
           end;
    intros [= <- <- <- <-]; reflexivity.
Qed.

(** The one member for the process list of a body: what decoding the
    body does to the process list is what storing its array does. *)
Lemma Unmarshal_processes_step (data : string)
    (before after : list (string * string * json)) (key raw : string)
    (vs : list json) (p : Pool) (h : heap)
    (p' : Pool) (h' : heap) (err : option error) :
  json_parse data = Some (JObject (before ++ (key, raw, JArray vs) :: after)) ->
  find_field pool_fields key = Some F_Processes ->
  mentions F_Processes before = false ->
  mentions F_Processes after = false ->
  Unmarshal data p h = (p', h', err) ->
  aborted err = false ->
  exists sv1 sv2,
    store_processes (JArray vs) (Processes p) h sv1 = (Processes p', h', sv2).
Proof.
  intros Hparse Hkey Hbefore Hafter. unfold Unmarshal. rewrite Hparse.
  rewrite store_pool_members_app.
  destruct (store_pool_members before p h None) as [[[p1 h1] sv1] [e1|]] eqn:E1.
  { intros [= <- <- <-] Hab.
    rewrite (store_pool_members_stop _ _ _ _ _ _ _ _ E1) in Hab. discriminate Hab. }
  destruct (store_pool_members_frame F_Processes _ _ _ _ _ _ _ _ Hbefore E1)
    as [_ Hsame]. destruct (Hsame eq_refl) as [HP1 ->]. clear Hsame.
  cbn [store_pool_members]. rewrite Hkey. cbn [store_pool_field].
  destruct (store_processes (JArray vs) (Processes p1) h sv1) as [[s2 h2] sv2] eqn:E2.
  rewrite HP1 in E2.
  destruct (store_pool_members after (set_Processes s2 p1) h2 sv2)
    as [[[p3 h3] sv3] [e3|]] eqn:E3.
  { intros [= <- <- <-] Hab.
    rewrite (store_pool_members_stop _ _ _ _ _ _ _ _ E3) in Hab. discriminate Hab. }
  destruct (store_pool_members_frame F_Processes _ _ _ _ _ _ _ _ Hafter E3)
    as [_ Hsame]. destruct (Hsame eq_refl) as [HP3 ->]. clear Hsame.
  simpl in HP3. intros [= <- <- <-] _. rewrite HP3. now exists sv1, sv2.
Qed.

(** X14. The process list a body stores.  When the body is an object
    with one member for the process list, an array, and decoding is not
    stopped by the start time, the pool has as many processes as the
    array has elements, whatever it held before.  The process [j] is
    the element [j] stored over what the cell [j] of the backing array
    of the old list held, so that a field the element does not mention
    keeps what an earlier scrape left in that cell (the zero value when
    there was no such cell).  No backing array of the heap but the one
    of the old list is written. *)
Theorem Unmarshal_processes (data : string)
    (before after : list (string * string * json)) (key raw : string)
    (vs : list json) (p : Pool) (h : heap)
    (p' : Pool) (h' : heap) (err : option error) :
  json_parse data = Some (JObject (before ++ (key, raw, JArray vs) :: after)) ->
  find_field pool_fields key = Some F_Processes ->
  ascii_key key = true ->
  mentions F_Processes before = false ->
  mentions F_Processes after = false ->
  valid_slice h (Processes p) ->
  Unmarshal data p h = (p', h', err) ->
  aborted err = false ->
  length (elems h' (Processes p')) = length vs
  /\ (forall j v, vs !! j = Some v ->
        elems h' (Processes p') !! j
        = Some (fst (store_process v
                       (default Proc.zero (backing h (Processes p) !! j)) None)))
  /\ (forall b, (b < length h)%nat -> arr (Processes p) <> Some b ->
        h' !! b = h !! b)
  /\ valid_slice h' (Processes p').
Proof.
  intros Hparse Hkey _ Hbefore Hafter Hwf HU Hab.
  destruct (Unmarshal_processes_step data before after key raw vs p h p' h' err
              Hparse Hkey Hbefore Hafter HU Hab) as (sv1 & sv2 & E).
  destruct (store_processes_array vs _ _ _ _ _ _ Hwf E) as (A1 & A2 & A3 & A4 & A5).
  split; [exact A1|]. split; [exact A2|]. split; [exact A4|exact A5].
Qed.

Lemma Unmarshal_processes_witness :
  exists (p' : Pool) (h' : heap) (err : option error),
    Unmarshal scenario_body (Pool_with_Address "tcp://127.0.0.1:9000") []
    = (p', h', err)
    /\ length (elems h' (Processes p')) = 3%nat.
Proof.
  eexists _, _, _. split; [vm_compute; reflexivity|].
  eapply (Unmarshal_processes scenario_body
            [("pool", json_text "'www'", JString "www");
             ("start time", "1000000000", JNumber "1000000000")]
            []
            "processes"
            (json_text "[{'pid':1,'state':'Idle'},{'pid':2,'state':'Running'},{'pid':3,'state':'Zombie'}]")
            [JObject [("pid", "1", JNumber "1");
                      ("state", json_text "'Idle'", JString "Idle")];
             JObject [("pid", "2", JNumber "2");
                      ("state", json_text "'Running'", JString "Running")];
             JObject [("pid", "3", JNumber "3");
                      ("state", json_text "'Zombie'", JString "Zombie")]]
            (Pool_with_Address "tcp://127.0.0.1:9000") []).
  - vm_compute. reflexivity.
  - reflexivity.
  - reflexivity.
  - reflexivity.
  - reflexivity.
  - unfold valid_slice. simpl. lia.
  - vm_compute. reflexivity.
  - reflexivity.
Defined.

(** ** The order of the goroutines *)

(** The error an array of processes leaves saved depends on the array
    only, not on the slice it is stored in. *)
Lemma store_elements_error (vs : list json) :
  forall i s h i2 s2 h2 saved,
  snd (store_elements vs i s h saved) = snd (store_elements vs i2 s2 h2 saved).
Proof.
  induction vs as [|v vs IH]; intros i s h i2 s2 h2 saved; [reflexivity|].
  cbn [store_elements].
  destruct (if (cap h s <=? i)%nat then _ else _) as [sa ha].
  destruct (if (cap h2 s2 <=? i2)%nat then _ else _) as [sb hb].
  cbv zeta.
  match goal with
  | |- context [store_process v ?o1 saved] =>
      match goal with
      | |- context [store_process v ?o2 saved] =>
          lazymatch o1 with
          | o2 => fail
          | _ => pose proof (proj2 (store_process_indep v o1 o2 saved saved)) as Hsv;
                 destruct (store_process v o1 saved) as [x1 sv1];
                 destruct (store_process v o2 saved) as [x2 sv2]
          end
      end
  end.
  simpl in Hsv. subst sv2. apply IH.
Qed.

Lemma store_processes_error (v : json) (s s2 : slice) (h h2 : heap)
    (saved : option error) :
  snd (store_processes v s h saved) = snd (store_processes v s2 h2 saved).
Proof.
  destruct v; try reflexivity. unfold store_processes.
  pose proof (store_elements_error elements 0 s h 0 s2 h2 saved) as H.
  destruct (store_elements elements 0 s h saved) as [[[i a] b] sv].
  destruct (store_elements elements 0 s2 h2 saved) as [[[i2 a2] b2] sv2].
  simpl in H. subst sv2.
  destruct (i =? 0)%nat, (i2 =? 0)%nat; reflexivity.
Qed.

Lemma flat_fields (p q : Pool) :
  flat p = flat q ->
  Address p = Address q /\ ScrapeError p = ScrapeError q
  /\ ScrapeFailures p = ScrapeFailures q /\ Name p = Name q
  /\ ProcessManager p = ProcessManager q /\ StartTime p = StartTime q
  /\ StartSince p = StartSince q
  /\ AcceptedConnections p = AcceptedConnections q
  /\ ListenQueue p = ListenQueue q /\ MaxListenQueue p = MaxListenQueue q
  /\ ListenQueueLength p = ListenQueueLength q
  /\ IdleProcesses p = IdleProcesses q /\ ActiveProcesses p = ActiveProcesses q
  /\ TotalProcesses p = TotalProcesses q
  /\ MaxActiveProcesses p = MaxActiveProcesses q
  /\ MaxChildrenReached p = MaxChildrenReached q
  /\ SlowRequests p = SlowRequests q.
Proof.
  intros H.
  repeat split;
    match goal with |- ?g p = ?g q => exact (f_equal g H) end.
Qed.

Lemma flat_intro (p q : Pool) :
  Address p = Address q -> ScrapeError p = ScrapeError q ->
  ScrapeFailures p = ScrapeFailures q -> Name p = Name q ->
  ProcessManager p = ProcessManager q -> StartTime p = StartTime q ->
  StartSince p = StartSince q ->
  AcceptedConnections p = AcceptedConnections q ->
  ListenQueue p = ListenQueue q -> MaxListenQueue p = MaxListenQueue q ->
  ListenQueueLength p = ListenQueueLength q ->
  IdleProcesses p = IdleProcesses q -> ActiveProcesses p = ActiveProcesses q ->
  TotalProcesses p = TotalProcesses q ->
  MaxActiveProcesses p = MaxActiveProcesses q ->
  MaxChildrenReached p = MaxChildrenReached q ->
  SlowRequests p = SlowRequests q ->
  flat p = flat q.
Proof. unfold flat, set_Processes. intros. f_equal; assumption. Qed.

(** Storing a member in two pools that differ in their process lists
    only: the pools afterwards differ in their process lists only, and
    the errors are the same. *)
Lemma store_pool_field_flat f raw v p q h1 h2 saved :
  flat p = flat q ->
  flat (fst (fst (fst (store_pool_field f raw v p h1 saved))))
  = flat (fst (fst (fst (store_pool_field f raw v q h2 saved))))
  /\ snd (fst (store_pool_field f raw v p h1 saved))
     = snd (fst (store_pool_field f raw v q h2 saved))
  /\ snd (store_pool_field f raw v p h1 saved)
     = snd (store_pool_field f raw v q h2 saved).
Proof.
  intros Hpq. pose proof (flat_fields p q Hpq) as Hf.
  decompose [and] Hf. clear Hf.
  unfold store_pool_field.
  destruct f;
    try match goal with
        | H : ?g p = ?g q |- context [store_int _ _ (?g p) _] =>
            rewrite H; destruct (store_int "int64" v (g q) saved)
        | H : ?g p = ?g q |- context [store_string _ (?g p) _] =>
            rewrite H; destruct (store_string v (g q) saved)
        end;
    try (cbn; split; [apply flat_intro; cbn; congruence|now split]).
  - destruct (timestamp_UnmarshalJSON raw);
      (cbn; split; [apply flat_intro; cbn; congruence|now split]).
  - pose proof (store_processes_error v (Processes p) (Processes q) h1 h2 saved) as He.
    destruct (store_processes v (Processes p) h1 saved) as [[s1 h1'] sv1].
    destruct (store_processes v (Processes q) h2 saved) as [[s2 h2'] sv2].
    cbn in He. subst sv2.
    cbn; split; [apply flat_intro; cbn; congruence|now split].
Qed.

Lemma store_pool_members_flat ms : forall p q h1 h2 saved,
  flat p = flat q ->
  flat (fst (fst (fst (store_pool_members ms p h1 saved))))
  = flat (fst (fst (fst (store_pool_members ms q h2 saved))))
  /\ snd (fst (store_pool_members ms p h1 saved))
     = snd (fst (store_pool_members ms q h2 saved))
  /\ snd (store_pool_members ms p h1 saved)
     = snd (store_pool_members ms q h2 saved).
Proof.
  induction ms as [|[[key raw] v] ms IH]; intros p q h1 h2 saved Hpq.
  - now repeat split.
  - simpl. destruct (find_field pool_fields key) as [f|]; [|now apply IH].
    destruct (store_pool_field_flat f raw v p q h1 h2 saved Hpq) as (A & B & C).
    destruct (store_pool_field f raw v p h1 saved) as [[[p1 h1'] sv1] st1].
    destruct (store_pool_field f raw v q h2 saved) as [[[q1 h2'] sv2] st2].
    cbn in A, B, C. subst sv2 st2.
    destruct st1 as [e|]; [now repeat split|]. now apply IH.
Qed.

(** The error [json.Unmarshal] returns, and every field it leaves but
    the process list, depend on the body and on those fields of the
    pool only. *)
Lemma Unmarshal_flat data p q h1 h2 :
  flat p = flat q ->
  flat (fst (fst (Unmarshal data p h1))) = flat (fst (fst (Unmarshal data q h2)))
  /\ snd (Unmarshal data p h1) = snd (Unmarshal data q h2).
Proof.
  intros Hpq. unfold Unmarshal. destruct (json_parse data) as [[]|];
    try (now split).
  destruct (store_pool_members_flat members p q h1 h2 None Hpq) as (A & B & C).
  destruct (store_pool_members members p h1 None) as [[[p1 h1'] sv1] st1].
  destruct (store_pool_members members q h2 None) as [[[q1 h2'] sv2] st2].
  cbn in A, B, C. subst sv2 st2. destruct st1; now split.
Qed.

Lemma flat_failed p q e : flat p = flat q -> flat (failed p e) = flat (failed q e).
Proof.
  intros Hpq. pose proof (flat_fields p q Hpq) as Hf. decompose [and] Hf.
  apply flat_intro; cbn; congruence.
Qed.

(** Two runs of a scrape of the same pool, in any two states: the same
    error is returned and the pools afterwards differ in their process
    lists only. *)
Lemma Pool_Update_flat dial p st1 st2 p1 p2 e1 e2 st1' st2' :
  Pool_Update dial p st1 = Some ((p1, e1), st1') ->
  Pool_Update dial p st2 = Some ((p2, e2), st2') ->
  flat p1 = flat p2 /\ e1 = e2.
Proof.
  intros H1 H2.
  destruct (log st1) as [c1|] eqn:L1;
    [|rewrite Pool_Update_nil_logger in H1 by assumption; discriminate H1].
  destruct (log st2) as [c2|] eqn:L2;
    [|rewrite Pool_Update_nil_logger in H2 by assumption; discriminate H2].
  destruct (Pool_Update_cases dial p st1 c1 L1)
    as [(e & evs & closes & Hf & Hrun)
       |(content & evs & closes & q1 & h1 & err & Hf & HU & Hrun)];
    destruct (Pool_Update_cases dial p st2 c2 L2)
      as [(e' & evs' & closes' & Hf' & Hrun')
         |(content' & evs' & closes' & q2 & h2 & err' & Hf' & HU' & Hrun')];
    rewrite Hf in Hf'; try discriminate Hf';
    rewrite Hrun in H1; rewrite Hrun' in H2.
  - injection Hf' as <- _ _. injection H1 as <- <- _. injection H2 as <- <- _.
    now split.
  - injection Hf' as <- _ _. injection H1 as <- <- _. injection H2 as <- <- _.
    destruct (Unmarshal_flat content (set_ScrapeError None p) (set_ScrapeError None p)
                (st_heap st1) (st_heap st2) eq_refl) as [A B].
    rewrite HU, HU' in A, B. cbn in A, B. subst err'.
    destruct err as [e|]; [|now split]. split; [now apply flat_failed|reflexivity].
Qed.

(** X15. The order of the goroutines does not matter to what
    [PoolManager.Update] records.  For any two orders in which the
    goroutines of one call may run, and from any two states (whatever
    the heap holds and the logger has received), both runs return nil,
    and each pool ends with the same address, the same last error, the
    same failure counter and the same decoded fields; only the process
    lists, which live in the heap, are left out of the comparison. *)
Theorem PoolManager_Update_schedule_independent (dials : nat -> Dialer)
    (sched1 sched2 : list nat) (elapsed1 elapsed2 : Z) (pm : PoolManager)
    (st1 st2 : State) (calls1 calls2 : list LogCall) :
  log st1 = Some calls1 -> log st2 = Some calls2 ->
  schedule (length (Pools pm)) sched1 ->
  schedule (length (Pools pm)) sched2 ->
  exists pm1 pm2 st1' st2',
    PoolManager_Update dials sched1 elapsed1 pm st1 = Some ((pm1, None), st1')
    /\ PoolManager_Update dials sched2 elapsed2 pm st2 = Some ((pm2, None), st2')
    /\ length (Pools pm1) = length (Pools pm)
    /\ length (Pools pm2) = length (Pools pm)
    /\ forall (idx : nat) (p1 p2 : Pool),
         Pools pm1 !! idx = Some p1 -> Pools pm2 !! idx = Some p2 ->
         flat p1 = flat p2.
Proof.
  intros L1 L2 S1 S2.
  destruct (run_goroutines_spec dials sched1 (schedule_NoDup _ _ S1)
              (Pools pm) st1 calls1 L1)
    as (pools1 & sa & logged1 & Hrun1 & Hlog1 & Hlen1 & Hall1).
  destruct (run_goroutines_spec dials sched2 (schedule_NoDup _ _ S2)
              (Pools pm) st2 calls2 L2)
    as (pools2 & sb & logged2 & Hrun2 & Hlog2 & Hlen2 & Hall2).
  exists {| Pools := pools1 |}, {| Pools := pools2 |}.
  unfold PoolManager_Update, bind. rewrite Hrun1, Hrun2.
  unfold log_call. rewrite Hlog1, Hlog2. unfold ret.
  eexists _, _. split; [reflexivity|]. split; [reflexivity|].
  split; [exact Hlen1|]. split; [exact Hlen2|].
  cbn [Pools]. intros idx p1 p2 Hp1 Hp2.
  assert (idx < length (Pools pm))%nat as Hlt
    by (rewrite <- Hlen1; now apply lookup_lt_Some in Hp1).
  destruct (lookup_lt_is_Some_2 _ _ Hlt) as [p Hp].
  destruct (Hall1 idx p Hp) as [_ Hin1]. destruct (Hall2 idx p Hp) as [_ Hin2].
  destruct Hin1 as (q1 & err1 & stb1 & sta1 & Hq1 & Hu1 & _);
    [eapply schedule_elem; eassumption|].
  destruct Hin2 as (q2 & err2 & stb2 & sta2 & Hq2 & Hu2 & _);
    [eapply schedule_elem; eassumption|].
  rewrite Hp1 in Hq1. rewrite Hp2 in Hq2. injection Hq1 as <-. injection Hq2 as <-.
  now destruct (Pool_Update_flat _ _ _ _ _ _ _ _ _ _ Hu1 Hu2).
Qed.

Lemma PoolManager_Update_schedule_independent_witness :
  exists pm1 pm2 st1' st2',
    PoolManager_Update first_refused [1; 0]%nat 5 two_pools fresh_state
    = Some ((pm1, None), st1')
    /\ PoolManager_Update first_refused [0; 1]%nat 7 two_pools state_of_three
       = Some ((pm2, None), st2')
    /\ length (Pools pm1) = length (Pools two_pools)
    /\ length (Pools pm2) = length (Pools two_pools)
    /\ forall (idx : nat) (p1 p2 : Pool),
         Pools pm1 !! idx = Some p1 -> Pools pm2 !! idx = Some p2 ->
         flat p1 = flat p2.
Proof.
  apply (PoolManager_Update_schedule_independent first_refused
           [1; 0]%nat [0; 1]%nat 5 7 two_pools fresh_state state_of_three [] []).
  - reflexivity.
  - reflexivity.
  - unfold schedule. simpl. apply perm_swap.
  - unfold schedule. simpl. apply Permutation_refl.
Defined.

(** ** The fields a body stores *)

Lemma store_pool_field_decoded f raw v p h saved fv :
  decoded f raw v = Some fv ->
  exists p', store_pool_field f raw v p h saved = (p', h, saved, None)
             /\ forall h', field f h' p' = fv.
Proof.
  unfold decoded, store_pool_field, store_int, store_string.
  destruct f; try discriminate;
    try (destruct v; try discriminate; intros [= <-]; eexists; split;
         [reflexivity|reflexivity]);
    try (destruct v; try discriminate;
         destruct (strconv.ParseInt lit); try discriminate;
         intros [= <-]; eexists; split; [reflexivity|reflexivity]).
  destruct (timestamp_UnmarshalJSON raw); try discriminate.
  intros [= <-]. eexists. split; reflexivity.
Qed.

(** X16. The value a body stores in a field.  When the body is an
    object, the last of its members that selects the field [f] (a field
    other than the process list) has a value the field accepts, and
    decoding is not stopped by the start time, the field holds that
    value afterwards, whatever the other members are and whatever type
    errors they raise: a type error is recorded and decoding goes on. *)
Theorem Unmarshal_stores_field (f : PoolField) (data : string)
    (before after : list (string * string * json)) (key raw : string)
    (v : json) (fv : field_value) (p : Pool) (h : heap)
    (p' : Pool) (h' : heap) (err : option error) :
  json_parse data = Some (JObject (before ++ (key, raw, v) :: after)) ->
  find_field pool_fields key = Some f ->
  ascii_key key = true ->
  mentions f after = false ->
  decoded f raw v = Some fv ->
  Unmarshal data p h = (p', h', err) ->
  aborted err = false ->
  field f h' p' = fv.
Proof.
  intros Hparse Hkey _ Hafter Hdec. unfold Unmarshal. rewrite Hparse.
  rewrite store_pool_members_app.
  destruct (store_pool_members before p h None) as [[[p1 h1] sv1] [e1|]] eqn:E1.
  { intros [= <- <- <-] Hab.
    rewrite (store_pool_members_stop _ _ _ _ _ _ _ _ E1) in Hab. discriminate Hab. }
  cbn [store_pool_members]. rewrite Hkey.
  destruct (store_pool_field_decoded f raw v p1 h1 sv1 fv Hdec) as (p2 & -> & Hfv).
  destruct (store_pool_members after p2 h1 sv1) as [[[p3 h3] sv3] [e3|]] eqn:E3.
  { intros [= <- <- <-] Hab.
    rewrite (store_pool_members_stop _ _ _ _ _ _ _ _ E3) in Hab. discriminate Hab. }
  destruct (store_pool_members_frame f _ _ _ _ _ _ _ _ Hafter E3) as [Hkeep _].
  intros [= <- <- <-] _. now rewrite Hkeep.
Qed.

Lemma Unmarshal_stores_field_witness :
  exists (p' : Pool) (h' : heap) (err : option error),
    Unmarshal scenario_body pool_of_three [three_processes] = (p', h', err)
    /\ field F_StartTime h' p' = fv_time (time.Unix 1000000000 0).
Proof.
  eexists _, _, _. split; [vm_compute; reflexivity|].
  eapply (Unmarshal_stores_field F_StartTime scenario_body
            [("pool", json_text "'www'", JString "www")]
            [("processes",
              json_text "[{'pid':1,'state':'Idle'},{'pid':2,'state':'Running'},{'pid':3,'state':'Zombie'}]",
              JArray
                [JObject [("pid", "1", JNumber "1");
                          ("state", json_text "'Idle'", JString "Idle")];
                 JObject [("pid", "2", JNumber "2");
                          ("state", json_text "'Running'", JString "Running")];
                 JObject [("pid", "3", JNumber "3");
                          ("state", json_text "'Zombie'", JString "Zombie")]])]
            "start time" "1000000000" (JNumber "1000000000")
            (fv_time (time.Unix 1000000000 0)) pool_of_three [three_processes]).
  - vm_compute. reflexivity.
  - reflexivity.
  - reflexivity.
  - reflexivity.
  - reflexivity.
  - vm_compute. reflexivity.
  - reflexivity.
Defined.

(** ** Copies of a pool and the backing array *)

(** An array that fits the capacity of the slice is stored in place: no
    array is allocated and the slice keeps its array. *)
Lemma store_elements_in_place (vs : list json) :
  forall (i : nat) (s : slice) (h : heap) (saved : option error)
         (i' : nat) (s' : slice) (h' : heap) (saved' : option error),
  (i + length vs <= cap h s)%nat ->
  store_elements vs i s h saved = (i', s', h', saved') ->
  arr s' = arr s /\ length h' = length h.
Proof.
  induction vs as [|v vs IH]; intros i s h saved i' s' h' saved' Hfit.
  - simpl. now intros [= <- <- <- <-].
  - cbn [store_elements]. simpl length in Hfit.
    destruct (Nat.leb_spec (cap h s) i) as [Hcap|Hcap]; [lia|].
    cbv zeta.
    set (s2 := if (len s <=? i)%nat then {| arr := arr s; len := S i |} else s).
    assert (arr s2 = arr s) as Ha2 by (unfold s2; now destruct (len s <=? i)%nat).
    assert (backing h s2 = backing h s) as Hb2 by (unfold backing; now rewrite Ha2).
    destruct (store_process v (default Proc.zero (backing h s2 !! i)) saved)
      as [x sv].
    destruct (backing_nonempty h s ltac:(lia)) as (a & Ha & Hh).
    assert (write h s2 i x = <[a := <[i := x]> (backing h s)]> h) as ->.
    { unfold write. now rewrite Ha2, Ha, Hb2. }
    intros Hrun. apply IH in Hrun.
    + destruct Hrun as [-> Hlen]. split; [exact Ha2|].
      rewrite Hlen. apply length_insert.
    + unfold cap.
      rewrite (backing_lookup _ s2 a (<[i := x]> (backing h s)));
        [rewrite length_insert; unfold cap in Hfit; lia
        |now rewrite Ha2
        |apply list_lookup_insert_eq; now apply lookup_lt_Some in Hh].
Qed.

Lemma store_processes_in_place (vs : list json) (s : slice) (h : heap)
    (saved : option error) (s' : slice) (h' : heap) (sv : option error) :
  valid_slice h s ->
  (0 < length vs <= cap h s)%nat ->
  store_processes (JArray vs) s h saved = (s', h', sv) ->
  arr s' = arr s /\ length h' = length h.
Proof.
  intros Hwf [Hpos Hfit]. unfold store_processes.
  destruct (store_elements vs 0 s h saved) as [[[i s1] h1] sv1] eqn:E.
  pose proof E as E'. apply store_elements_in_place in E'; [|simpl; lia].
  destruct E' as [Ha Hl].
  apply store_elements_spec in E; [|exact Hwf|lia].
  destruct E as (-> & _). simpl.
  destruct (Nat.eqb_spec (length vs) 0) as [Hz|_]; [lia|].
  intros [= <- <- <-]. split; [|exact Hl].
  now destruct (length vs <? len s1)%nat.
Qed.

(** X17. A copy of a pool made before a scrape shares the backing
    array of its process list with the pool.  When the body stores an
    array that fits the capacity of the old list, no array is allocated:
    the pool keeps the array it had and the elements are written into
    it, so that the old slice header, read after the scrape, shows the
    new processes in the cells it covers. *)
Theorem Unmarshal_processes_in_place (data : string)
    (before after : list (string * string * json)) (key raw : string)
    (vs : list json) (p : Pool) (h : heap)
    (p' : Pool) (h' : heap) (err : option error) :
  json_parse data = Some (JObject (before ++ (key, raw, JArray vs) :: after)) ->
  find_field pool_fields key = Some F_Processes ->
  ascii_key key = true ->
  mentions F_Processes before = false ->
  mentions F_Processes after = false ->
  valid_slice h (Processes p) ->
  (0 < length vs <= cap h (Processes p))%nat ->
  Unmarshal data p h = (p', h', err) ->
  aborted err = false ->
  arr (Processes p') = arr (Processes p)
  /\ length h' = length h
  /\ forall j v, vs !! j = Some v -> (j < len (Processes p))%nat ->
       elems h' (Processes p) !! j
       = Some (fst (store_process v
                      (default Proc.zero (backing h (Processes p) !! j)) None)).
Proof.
  intros Hparse Hkey _ Hbefore Hafter Hwf Hfit HU Hab.
  destruct (Unmarshal_processes_step data before after key raw vs p h p' h' err
              Hparse Hkey Hbefore Hafter HU Hab) as (sv1 & sv2 & E).
  destruct (store_processes_in_place vs _ _ _ _ _ _ Hwf Hfit E) as [Harr Hlen].
  destruct (store_processes_array vs _ _ _ _ _ _ Hwf E) as (A1 & A2 & _).
  split; [exact Harr|]. split; [exact Hlen|].
  intros j v Hv Hj. rewrite <- (A2 j v Hv).
  pose proof (lookup_lt_Some _ _ _ Hv) as Hjn.
  unfold elems in *. rewrite length_take in A1.
  assert (backing h' (Processes p) = backing h' (Processes p')) as ->
    by (unfold backing; now rewrite Harr).
  rewrite !lookup_take_lt by lia. reflexivity.
Qed.

Lemma Unmarshal_processes_in_place_witness :
  exists (p' : Pool) (h' : heap) (err : option error),
    Unmarshal second_body pool_of_three [three_processes] = (p', h', err)
    /\ arr (Processes p') = arr (Processes pool_of_three)
    /\ length h' = length [three_processes]
    /\ forall j v,
         [JObject [("pid", "7", JNumber "7");
                   ("state", json_text "'Busy'", JString "Busy")]] !! j = Some v ->
         (j < len (Processes pool_of_three))%nat ->
         elems h' (Processes pool_of_three) !! j
         = Some (fst (store_process v
                        (default Proc.zero
                           (backing [three_processes] (Processes pool_of_three) !! j))
                        None)).
Proof.
  eexists _, _, _. split; [vm_compute; reflexivity|].
  eapply (Unmarshal_processes_in_place second_body [] [] "processes"
            (json_text "[{'pid':7,'state':'Busy'}]")
            [JObject [("pid", "7", JNumber "7");
                      ("state", json_text "'Busy'", JString "Busy")]]
            pool_of_three [three_processes]).
  - vm_compute. reflexivity.
  - reflexivity.
  - reflexivity.
  - reflexivity.
  - reflexivity.
  - unfold valid_slice. vm_compute. lia.
  - vm_compute. lia.
  - vm_compute. reflexivity.
  - reflexivity.
Defined.

(** ** The fields of a process *)

Lemma store_process_field_frame g g' v p saved :
  ProcField_eqb g g' = false ->
  proc_field g (fst (store_process_field g' v p saved)) = proc_field g p.
Proof.
  intros Hg. unfold store_process_field, store_int, store_string, store_float64.
  destruct g', v; cbn;
    try destruct (strconv.ParseInt lit); try destruct (ParseFloat lit);
    destruct g; try discriminate Hg; reflexivity.
Qed.

Lemma store_process_members_frame g ms : forall p saved,
  mentions_proc g ms = false ->
  proc_field g (fst (store_process_members ms p saved)) = proc_field g p.
Proof.
  induction ms as [|[[key raw] v] ms IH]; intros p saved Hm; [reflexivity|].
  simpl in Hm. apply orb_false_iff in Hm as [Hsel Hm].
  unfold selects_proc in Hsel. apply orb_false_iff in Hsel as [_ Hsel].
  simpl. destruct (find_field process_fields key) as [g'|]; [|now apply IH].
  pose proof (store_process_field_frame g g' v p saved Hsel) as Hf.
  destruct (store_process_field g' v p saved) as [p1 sv1]. simpl in Hf.
  now rewrite IH.
Qed.

Lemma store_process_members_app ms1 : forall ms2 p saved,
  store_process_members (ms1 ++ ms2) p saved
  = store_process_members ms2 (fst (store_process_members ms1 p saved))
      (snd (store_process_members ms1 p saved)).
Proof.
  induction ms1 as [|[[key raw] v] ms1 IH]; intros ms2 p saved; [reflexivity|].
  simpl. destruct (find_field process_fields key) as [g|]; [|apply IH].
  destruct (store_process_field g v p saved) as [p1 sv1]. apply IH.
Qed.

Lemma store_process_field_decoded g v p saved pv :
  proc_decoded g v = Some pv ->
  proc_field g (fst (store_process_field g v p saved)) = pv.
Proof.
  unfold proc_decoded, store_process_field, store_int, store_string, store_float64.
  destruct g, v; try discriminate; cbn;
    try destruct (strconv.ParseInt lit); try destruct (ParseFloat lit);
    try discriminate; now intros [= <-].
Qed.

(** X18. A field of a process that the element does not mention keeps
    the value the cell held: an element of the array is stored over the
    process that was in its cell, field by field, and a field none of
    its keys selects is left as it was. *)
Theorem store_process_keeps_absent_field (g : ProcField)
    (ms : list (string * string * json)) (old : PoolProcess)
    (saved : option error) :
  mentions_proc g ms = false ->
  proc_field g (fst (store_process (JObject ms) old saved)) = proc_field g old.
Proof. intros Hm. simpl. now apply store_process_members_frame. Qed.

Lemma store_process_keeps_absent_field_witness :
  proc_field pf_State
    (fst (store_process (JObject [("pid", "7", JNumber "7")])
            (process_in_state 3 "Zombie") None))
  = proc_field pf_State (process_in_state 3 "Zombie").
Proof.
  apply (store_process_keeps_absent_field pf_State [("pid", "7", JNumber "7")]
           (process_in_state 3 "Zombie") None).
  reflexivity.
Defined.

(** X19. The value an element stores in a field of a process.  When
    the last member of the element that selects the field [g] has a
    value the field accepts (a string in a string field, an integer
    literal of the int64 range in an integer field, a number in the
    float field), the process has that value in [g] afterwards, whatever
    the other members are and whatever the cell held. *)
Theorem store_process_stores_field (g : ProcField)
    (before after : list (string * string * json)) (key raw : string)
    (v : json) (pv : proc_value) (old : PoolProcess) (saved : option error) :
  find_field process_fields key = Some g ->
  ascii_key key = true ->
  mentions_proc g after = false ->
  proc_decoded g v = Some pv ->
  proc_field g
    (fst (store_process (JObject (before ++ (key, raw, v) :: after)) old saved))
  = pv.
Proof.
  intros Hkey _ Hafter Hdec. cbn [store_process].
  rewrite store_process_members_app. cbn [store_process_members]. rewrite Hkey.
  set (p1 := fst (store_process_members before old saved)).
  set (sv1 := snd (store_process_members before old saved)).
  pose proof (store_process_field_decoded g v p1 sv1 pv Hdec) as Hpv.
  destruct (store_process_field g v p1 sv1) as [p2 sv2]. simpl in Hpv.
  now rewrite store_process_members_frame.
Qed.

Lemma store_process_stores_field_witness :
  proc_field pf_State
    (fst (store_process
            (JObject ([("pid", "3", JNumber "3")]
                      ++ ("state", json_text "'Idle'", JString "Idle") :: []))
            (process_in_state 3 "Zombie") None))
  = pv_string "Idle".
Proof.
  apply (store_process_stores_field pf_State [("pid", "3", JNumber "3")] []
           "state" (json_text "'Idle'") (JString "Idle") (pv_string "Idle")
           (process_in_state 3 "Zombie") None); reflexivity.
Defined.

(** ** Addresses with an IP literal in brackets *)

Lemma bracket_char_facts (c : ascii) :
  bracket_char c = true ->
  ((url.code c <? 32) || (url.code c =? 127)) = false
  /\ Ascii.eqb c "#"%char = false /\ Ascii.eqb c "?"%char = false
  /\ Ascii.eqb c "/"%char = false /\ Ascii.eqb c "@"%char = false
  /\ Ascii.eqb c "%"%char = false /\ Ascii.eqb c "+"%char = false
  /\ ((url.code c <? 128) && url.shouldEscape c url.encodeHost) = false.
Proof.
  destruct c as [[] [] [] [] [] [] [] []]; intros H; try discriminate H;
    repeat split; reflexivity.
Qed.

Lemma bracket_authority_cons (c : ascii) (s : string) :
  bracket_authority (String c s) = bracket_char c && bracket_authority s.
Proof. reflexivity. Qed.

Lemma bracket_authority_app (s t : string) :
  bracket_authority (s +:+ t) = bracket_authority s && bracket_authority t.
Proof.
  induction s as [|c s IH]; [reflexivity|].
  now rewrite append_cons, !bracket_authority_cons, IH, andb_assoc.
Qed.

Lemma plain_bracket (s : string) :
  plain_authority s = true -> bracket_authority s = true.
Proof.
  unfold plain_authority, bracket_authority, bracket_char.
  induction s as [|c s IH]; [reflexivity|]. simpl.
  intros H. apply andb_true_iff in H as [-> H]. now rewrite IH.
Qed.

Lemma bracket_IndexByte (c : ascii) (s : string) :
  bracket_char c = false -> bracket_authority s = true ->
  url.IndexByte c s = None /\ url.LastIndexByte c s = None.
Proof.
  intros Hc. induction s as [|d s IH]; [now split|].
  rewrite bracket_authority_cons. intros H. apply andb_true_iff in H as [Hd Hs].
  destruct (IH Hs) as [H1 H2]. simpl. rewrite H1, H2.
  destruct (Ascii.eqb_spec d c) as [->|]; [congruence|now split].
Qed.

Lemma CTL_bracket (s : string) :
  bracket_authority s = true -> url.stringContainsCTLByte s = false.
Proof.
  unfold url.stringContainsCTLByte. induction s as [|c s IH]; [reflexivity|].
  rewrite bracket_authority_cons. intros H. apply andb_true_iff in H as [Hc Hs].
  destruct (bracket_char_facts c Hc) as (Hctl & _). simpl.
  now rewrite Hctl, IH.
Qed.

Lemma Unescape_bracket (s : string) :
  bracket_authority s = true -> url.Unescape s url.encodeHost = inl s.
Proof.
  unfold url.Unescape. induction s as [|c s IH]; [reflexivity|].
  rewrite bracket_authority_cons. intros H. apply andb_true_iff in H as [Hc Hs].
  destruct (bracket_char_facts c Hc) as (_ & _ & _ & _ & _ & Hpc & Hplus & Hesc).
  cbn [String.length url.unescape]. rewrite Hpc, Hplus.
  cbn [andb]. rewrite Hesc. now rewrite IH.
Qed.

(** [url.Parse] on [tcp://] followed by an authority without user
    information that [parseHost] accepts as it stands. *)
Lemma Parse_tcp_authority (hp : string) :
  bracket_authority hp = true ->
  url.parseHost hp = inl hp ->
  url.Parse ("tcp://" +:+ hp)
  = inl {| url.Scheme := "tcp"; url.Opaque := ""; url.User := None;
           url.Host := hp; url.Path := "";
           url.ForceQuery := false; url.RawQuery := ""; url.Fragment := "" |}.
Proof.
  intros Hpl HH.
  destruct (bracket_IndexByte "#" hp eq_refl Hpl) as [Hhash _].
  destruct (bracket_IndexByte "?" hp eq_refl Hpl) as [Hq1 Hq2].
  destruct (bracket_IndexByte "/" hp eq_refl Hpl) as [Hslash _].
  destruct (bracket_IndexByte "@" hp eq_refl Hpl) as [_ Hat].
  pose proof (CTL_bracket hp Hpl) as Hctl.
  change ("tcp://" +:+ hp)
    with (String "t" (String "c" (String "p" (String ":" (String "/" (String "/" hp)))))).
  unfold url.Parse, url.Cut. simpl url.IndexByte. rewrite Hhash. cbv iota beta.
  unfold url.parse.
  assert (url.stringContainsCTLByte
            (String "t" (String "c" (String "p" (String ":" (String "/" (String "/" hp))))))
          = false) as ->.
  { unfold url.stringContainsCTLByte in *. simpl. exact Hctl. }
  change (String.eqb
            (String "t" (String "c" (String "p" (String ":" (String "/" (String "/" hp))))))
            "*") with false.
  cbv iota.
  change (url.getScheme
            (String "t" (String "c" (String "p" (String ":" (String "/" (String "/" hp)))))))
    with (@inl (string * string) url.Err ("tcp", String "/" (String "/" hp))).
  cbv iota beta. change (url.ToLower "tcp") with "tcp".
  rewrite split_query_none by (simpl; now rewrite ?Hq1, ?Hq2).
  cbv iota beta zeta.
  change (url.HasPrefix (String "/" (String "/" hp)) "/") with true.
  cbn [negb andb]. cbv iota.
  assert (url.split_authority "tcp" (String "/" (String "/" hp)) = inl (None, hp, ""))
    as ->.
  { unfold url.split_authority.
    assert (url.HasPrefix (String "/" (String "/" hp)) "//" = true) as ->
      by (unfold url.HasPrefix; apply String.prefix_correct; simpl;
          now destruct hp).
    change (negb (String.eqb "tcp" "")) with true. cbn [orb andb]. cbv iota.
    assert (url.from 2 (String "/" (String "/" hp)) = hp) as ->.
    { unfold url.from. simpl. rewrite Nat.sub_0_r. apply substring_all. }
    rewrite Hslash. unfold url.parseAuthority. rewrite Hat, HH. reflexivity. }
  reflexivity.
Qed.

Lemma index_no_percent (s : string) :
  url.IndexByte "%" s = None -> String.index 0 "%25" s = None.
Proof.
  induction s as [|c s IH]; [reflexivity|].
  simpl url.IndexByte. destruct (Ascii.eqb_spec c "%") as [->|Hc]; [discriminate|].
  destruct (url.IndexByte "%" s); [discriminate|]. intros _.
  cbn [String.index].
  destruct (String.prefix "%25" (String c s)) eqn:E.
  - apply String.prefix_correct in E. simpl in E. injection E as E _. congruence.
  - now rewrite IH.
Qed.

Lemma percent_not_in_authority (s : string) :
  bracket_authority s = true -> url.IndexByte "%" s = None.
Proof. intros H. now apply (bracket_IndexByte "%" s eq_refl H). Qed.

Lemma append_assoc (a b c : string) : (a +:+ b) +:+ c = a +:+ b +:+ c.
Proof.
  induction a as [|x a IH]; [reflexivity|]. rewrite !append_cons. now rewrite IH.
Qed.

(** [parseHost] and [splitHostPort] on [[literal]:port]. *)
Lemma parseHost_bracketed (lit port : string) :
  plain_authority lit = true -> port_number port = true ->
  url.parseHost ("[" +:+ lit +:+ "]:" +:+ port) = inl ("[" +:+ lit +:+ "]:" +:+ port)
  /\ url.splitHostPort ("[" +:+ lit +:+ "]:" +:+ port) = (lit, port)
  /\ bracket_authority ("[" +:+ lit +:+ "]:" +:+ port) = true.
Proof.
  intros Hl Hp.
  assert (bracket_authority ("[" +:+ lit +:+ "]:" +:+ port) = true) as Hb.
  { change ("[" +:+ lit +:+ "]:" +:+ port)
      with (String "[" (lit +:+ String "]" (String ":" port))).
    rewrite bracket_authority_cons, bracket_authority_app,
      !bracket_authority_cons.
    rewrite (plain_bracket lit Hl), (plain_bracket port (port_number_plain _ Hp)).
    reflexivity. }
  assert (url.LastIndexByte "]" (String ":" port) = None) as Hnb.
  { apply (plain_IndexByte "]" (String ":" port) eq_refl).
    rewrite plain_authority_cons. now rewrite (port_number_plain _ Hp). }
  assert (url.LastIndexByte ":" port = None) as Hnc
    by (apply colon_not_in_name; now right).
  set (open := String "[" lit).
  assert ("[" +:+ lit +:+ "]:" +:+ port = open +:+ String "]" (String ":" port)) as E1
    by reflexivity.
  assert ("[" +:+ lit +:+ "]:" +:+ port
          = (open +:+ String "]" "") +:+ String ":" port) as E2.
  { unfold open. rewrite append_assoc. reflexivity. }
  split; [|split; [|exact Hb]].
  - unfold url.parseHost. rewrite E1. rewrite E1 in Hb.
    assert (url.HasPrefix (open +:+ String "]" (String ":" port)) "[" = true) as ->.
    { unfold url.HasPrefix, open. rewrite append_cons.
      apply String.prefix_correct. simpl.
      now destruct (lit +:+ String "]" (String ":" port)). }
    rewrite (LastIndexByte_middle "]" open _ Hnb).
    rewrite from_append_S. rewrite (validOptionalPort_port port Hp). cbn [negb].
    rewrite upto_append.
    rewrite index_no_percent.
    + now apply Unescape_bracket.
    + apply percent_not_in_authority. unfold open.
      rewrite bracket_authority_cons. now rewrite (plain_bracket lit Hl).
  - unfold url.splitHostPort. rewrite E2.
    rewrite (LastIndexByte_middle ":" _ _ Hnc).
    rewrite from_append, (validOptionalPort_port port Hp).
    rewrite upto_append, from_append_S.
    assert (url.HasPrefix (open +:+ String "]" "") "[" = true) as ->
      by (unfold url.HasPrefix; apply String.prefix_correct; simpl;
          now destruct (lit +:+ String "]" "")).
    assert (url.HasSuffix (open +:+ String "]" "") "]" = true) as ->.
    { unfold url.HasSuffix. rewrite (LastIndexByte_middle "]" open "" eq_refl).
      apply Nat.eqb_eq. rewrite length_append. simpl String.length. lia. }
    cbn [andb]. f_equal.
    rewrite length_append. unfold open. simpl String.length.
    replace (S (String.length lit) + 1 - 2)%nat with (String.length lit) by lia.
    change (String "[" lit +:+ String "]" "") with (String "[" (lit +:+ String "]" "")).
    simpl substring. fold (url.upto (String.length lit) (lit +:+ String "]" "")).
    apply upto_append.
Qed.

(** X20. An address with an IP literal in brackets, [tcp://[literal]:port]
    (the form of an IPv6 address): [url.Parse] accepts it, and the
    scrape dials the network [tcp] at [literal:port], the literal without
    its brackets, because the address is put together from
    [uri.Hostname()] and [uri.Port()]. *)
Theorem bracketed_address_dialled (lit port : string) (dial : Dialer) (p : Pool)
    (st : State) (calls : list LogCall) :
  log st = Some calls ->
  plain_authority lit = true ->
  port_number port = true ->
  Address p = "tcp://" +:+ "[" +:+ lit +:+ "]:" +:+ port ->
  exists p' err st' rest,
    Pool_Update dial p st = Some ((p', err), st')
    /\ trace st'
       = trace st
         ++ ev_DialTimeout "tcp" (lit +:+ ":" +:+ port) (3 * Second) :: rest.
Proof.
  intros Hlog Hl Hp HA.
  destruct (parseHost_bracketed lit port Hl Hp) as (HH & Hsplit & Hb).
  pose proof (Parse_tcp_authority _ Hb HH) as HP. rewrite <- HA in HP.
  destruct (Pool_Update_parse_accepted dial p st calls _ Hlog HP)
    as (p' & err & st' & rest & Hrun & Htrace).
  exists p', err, st', rest. split; [exact Hrun|].
  rewrite Htrace. unfold url.Hostname, url.Port. cbn [url.Host url.Scheme].
  now rewrite Hsplit.
Qed.

Lemma bracketed_address_dialled_witness :
  exists p' err st' rest,
    Pool_Update refuse (Pool_with_Address "tcp://[::1]:9000") fresh_state
    = Some ((p', err), st')
    /\ trace st'
       = trace fresh_state
         ++ ev_DialTimeout "tcp" ("::1" +:+ ":" +:+ "9000") (3 * Second) :: rest.
Proof.
  apply (bracketed_address_dialled "::1" "9000" refuse
           (Pool_with_Address "tcp://[::1]:9000") fresh_state []); reflexivity.
Defined.

(** ** From the body to the scoreboard *)

Lemma count_state_states (s : string) (ps : list PoolProcess) :
  count_state s ps = count_of s (map Proc.State ps).
Proof.
  unfold count_state, count_of, state_is. f_equal.
  induction ps as [|pr ps IH]; [reflexivity|]. simpl.
  destruct (String.eqb (Proc.State pr) s); simpl; now rewrite IH.
Qed.

Lemma anomalies_states (ps : list PoolProcess) :
  anomalies ps
  = map (fun s => log_Errorf "Unknown process state '%v'" [VString s])
      (unknown_states (map Proc.State ps)).
Proof.
  unfold anomalies, unknown_states, unknown_state, state_is, anomaly.
  induction ps as [|pr ps IH]; [reflexivity|]. simpl.
  destruct (negb (String.eqb (Proc.State pr) "Running")
            && negb (String.eqb (Proc.State pr) "Idle")); simpl; now rewrite IH.
Qed.

(** The state an element gives its process. *)
Lemma element_state (e : StateElement) (old : PoolProcess) (saved : option error) :
  names_state e = true ->
  Proc.State (fst (store_process (element_of e) old saved)) = se_state e.
Proof.
  unfold names_state. intros H.
  apply andb_true_iff in H as [H Hafter]. apply andb_true_iff in H as [Hkey _].
  apply negb_true_iff in Hafter.
  destruct (find_field process_fields (se_key e)) as [g|] eqn:Hg; [|discriminate].
  destruct g; try discriminate Hkey. clear Hkey.
  unfold element_of. cbn [store_process].
  rewrite store_process_members_app. cbn [store_process_members]. rewrite Hg.
  set (p1 := fst (store_process_members (se_before e) old saved)).
  set (sv1 := snd (store_process_members (se_before e) old saved)).
  pose proof (store_process_field_decoded pf_State (JString (se_state e)) p1 sv1
                (pv_string (se_state e)) eq_refl) as Hpv.
  destruct (store_process_field pf_State (JString (se_state e)) p1 sv1) as [p2 sv2].
  simpl in Hpv.
  pose proof (store_process_members_frame pf_State (se_after e) p2 sv2 Hafter) as Hk.
  simpl in Hk. congruence.
Qed.

Lemma states_of_elements (es : list StateElement) (ps : list PoolProcess)
    (olds : nat -> PoolProcess) :
  forallb names_state es = true ->
  length ps = length es ->
  (forall j v, map element_of es !! j = Some v ->
     ps !! j = Some (fst (store_process v (olds j) None))) ->
  map Proc.State ps = map se_state es.
Proof.
  revert ps olds. induction es as [|e es IH]; intros ps olds Hn Hlen Hall.
  - destruct ps; [reflexivity|discriminate Hlen].
  - destruct ps as [|pr ps]; [discriminate Hlen|].
    simpl in Hn. apply andb_true_iff in Hn as [He Hn].
    pose proof (Hall 0%nat (element_of e) eq_refl) as H0.
    injection H0 as ->. cbn [map]. f_equal.
    + now apply element_state.
    + apply (IH ps (fun j => olds (S j)) Hn).
      * simpl in Hlen. lia.
      * intros j v Hv. apply (Hall (S j) v Hv).
Qed.

(** X21. From the body to the scoreboard.  When the body is an object
    with one member for the process list, an array each element of which
    gives its process a state, and decoding is not stopped by the start
    time, then the processes of the pool have the states of the body, in
    order, and [CalculateProcessScoreboard] on the pool returns the
    number of states that are ["Running"], the number that are ["Idle"]
    and their sum, after one [Errorf] for each other state, in the order
    of the body, whatever the pool held before. *)
Theorem scoreboard_of_body (data : string)
    (before after : list (string * string * json)) (key raw : string)
    (es : list StateElement) (p : Pool) (h : heap)
    (p' : Pool) (h' : heap) (err : option error)
    (st : State) (calls : list LogCall) :
  json_parse data
  = Some (JObject (before ++ (key, raw, JArray (map element_of es)) :: after)) ->
  find_field pool_fields key = Some F_Processes ->
  ascii_key key = true ->
  mentions F_Processes before = false ->
  mentions F_Processes after = false ->
  forallb names_state es = true ->
  Z.of_nat (length es) <= Int64.max_int64 ->
  valid_slice h (Processes p) ->
  Unmarshal data p h = (p', h', err) ->
  aborted err = false ->
  st_heap st = h' ->
  log st = Some calls ->
  map Proc.State (elems h' (Processes p')) = map se_state es
  /\ CalculateProcessScoreboard p' st
     = Some ((count_of "Running" (map se_state es),
              count_of "Idle" (map se_state es),
              count_of "Running" (map se_state es)
              + count_of "Idle" (map se_state es)),
             with_log st
               (calls
                ++ map (fun s => log_Errorf "Unknown process state '%v'" [VString s])
                     (unknown_states (map se_state es)))).
Proof.
  intros Hparse Hkey _ Hbefore Hafter Hnames Hmax Hwf HU Hab Hheap Hlog.
  destruct (Unmarshal_processes_step data before after key raw _ p h p' h' err
              Hparse Hkey Hbefore Hafter HU Hab) as (sv1 & sv2 & E).
  destruct (store_processes_array _ _ _ _ _ _ _ Hwf E) as (A1 & A2 & _).
  rewrite length_map in A1.
  assert (map Proc.State (elems h' (Processes p')) = map se_state es) as Hstates.
  { apply (states_of_elements es _
             (fun j => default Proc.zero (backing h (Processes p) !! j)) Hnames A1).
    exact A2. }
  split; [exact Hstates|].
  unfold CalculateProcessScoreboard, bind, get_heap. rewrite Hheap.
  set (ps := elems h' (Processes p')) in *.
  pose proof (counts_le_length ps) as Hle.
  pose proof (count_state_nonneg "Running" ps) as Hr.
  pose proof (count_state_nonneg "Idle" ps) as Hd.
  rewrite (scoreboard_loop_spec ps 0 0 st calls Hlog) by lia.
  rewrite !Z.add_0_l. unfold ret.
  rewrite Int64_wrap_id
    by (unfold Int64.in_range, Int64.min_int64, Int64.max_int64 in *; lia).
  now rewrite anomalies_states, !count_state_states, Hstates.
Qed.

Lemma scoreboard_of_body_witness :
  exists (p' : Pool) (h' : heap) (err : option error),
    Unmarshal scenario_body (Pool_with_Address "tcp://127.0.0.1:9000") []
    = (p', h', err)
    /\ map Proc.State (elems h' (Processes p')) = map se_state scenario_elements
    /\ CalculateProcessScoreboard p' {| st_heap := h'; log := Some []; trace := [] |}
       = Some ((count_of "Running" (map se_state scenario_elements),
                count_of "Idle" (map se_state scenario_elements),
                count_of "Running" (map se_state scenario_elements)
                + count_of "Idle" (map se_state scenario_elements)),
               with_log {| st_heap := h'; log := Some []; trace := [] |}
                 ([]
                  ++ map (fun s => log_Errorf "Unknown process state '%v'" [VString s])
                       (unknown_states (map se_state scenario_elements)))).
Proof.
  eexists _, _, _. split; [vm_compute; reflexivity|].
  eapply (scoreboard_of_body scenario_body
            [("pool", json_text "'www'", JString "www");
             ("start time", "1000000000", JNumber "1000000000")]
            []
            "processes"
            (json_text "[{'pid':1,'state':'Idle'},{'pid':2,'state':'Running'},{'pid':3,'state':'Zombie'}]")
            scenario_elements
            (Pool_with_Address "tcp://127.0.0.1:9000") []).
  - vm_compute. reflexivity.
  - reflexivity.
  - reflexivity.
  - reflexivity.
  - reflexivity.
  - reflexivity.
  - vm_compute. discriminate.
  - unfold valid_slice. vm_compute. lia.
  - vm_compute. reflexivity.
  - reflexivity.
  - reflexivity.
  - reflexivity.
Defined.

(** ** A start time that is refused *)

(** Members that do not select the start time never stop the decoder. *)
Lemma store_pool_members_goes_on ms : forall p h saved,
  mentions F_StartTime ms = false ->
  snd (store_pool_members ms p h saved) = None.
Proof.
  induction ms as [|[[key raw] v] ms IH]; intros p h saved Hm; [reflexivity|].
  simpl in Hm. apply orb_false_iff in Hm as [Hsel Hm].
  unfold selects in Hsel. apply orb_false_iff in Hsel as [_ Hsel].
  simpl. destruct (find_field pool_fields key) as [f|]; [|now apply IH].
  destruct (store_pool_field f raw v p h saved) as [[[p1 h1] sv1] stop] eqn:E.
  assert (stop = None) as ->; [|now apply IH].
  revert E. unfold store_pool_field.
  destruct f; try discriminate Hsel;
    repeat match goal with
           | |- context [store_int ?a ?b ?c ?d] => destruct (store_int a b c d)
           | |- context [store_string ?a ?b ?c] => destruct (store_string a b c)
           | |- context [store_processes ?a ?b ?c ?d] => destruct (store_processes a b c d) as [[? ?] ?]
           end;
    now intros [= <- <- <- <-].
Qed.

(** X22. A start time that [timestamp.UnmarshalJSON] refuses stops the
    decoder where it stands.  When the first member of the body that
    selects the start time has a text the method refuses, [Unmarshal]
    returns the error of the method; the members before it have been
    stored and the members after it are not looked at: a field that no
    member before the start time selects keeps the value it had, also
    when a later member names it. *)
Theorem Unmarshal_stops_at_start_time (data : string)
    (before after : list (string * string * json)) (key raw : string)
    (v : json) (e : strconv.NumError) (p : Pool) (h : heap) :
  json_parse data = Some (JObject (before ++ (key, raw, v) :: after)) ->
  find_field pool_fields key = Some F_StartTime ->
  ascii_key key = true ->
  mentions F_StartTime before = false ->
  timestamp_UnmarshalJSON raw = inr e ->
  exists p' h',
    Unmarshal data p h = (p', h', Some (strconv_NumError e))
    /\ forall f, mentions f before = false -> field f h' p' = field f h p.
Proof.
  intros Hparse Hkey _ Hbefore Hraw. unfold Unmarshal. rewrite Hparse.
  rewrite store_pool_members_app.
  pose proof (store_pool_members_goes_on before p h None Hbefore) as Hgo.
  destruct (store_pool_members before p h None) as [[[p1 h1] sv1] stop] eqn:E1.
  simpl in Hgo. subst stop.
  cbn [store_pool_members]. rewrite Hkey. cbn [store_pool_field]. rewrite Hraw.
  exists p1, h1. split; [reflexivity|].
  intros f Hf. now destruct (store_pool_members_frame f _ _ _ _ _ _ _ _ Hf E1).
Qed.

Lemma Unmarshal_stops_at_start_time_witness :
  exists p' h',
    Unmarshal body_with_bad_start_time pool_of_three [three_processes]
    = (p', h',
       Some (strconv_NumError
               {| strconv.Func := "Atoi"; strconv.Num := json_text "'x'";
                  strconv.Err := strconv.ErrSyntax |}))
    /\ forall f,
         mentions f [("pool", json_text "'other'", JString "other")] = false ->
         field f h' p' = field f [three_processes] pool_of_three.
Proof.
  apply (Unmarshal_stops_at_start_time body_with_bad_start_time
           [("pool", json_text "'other'", JString "other")] []
           "start time" (json_text "'x'") (JString "x")
           {| strconv.Func := "Atoi"; strconv.Num := json_text "'x'";
              strconv.Err := strconv.ErrSyntax |}
           pool_of_three [three_processes]).
  - vm_compute. reflexivity.
  - reflexivity.
  - reflexivity.
  - reflexivity.
  - vm_compute. reflexivity.
Defined.

(** ** The same body twice *)

(** Two processes with the same content in every field are equal. *)
Lemma proc_ext (a b : PoolProcess) :
  (forall g, proc_field g a = proc_field g b) -> a = b.
Proof.
  intros H. destruct a, b.
  pose proof (H pf_PID) as H1. pose proof (H pf_State) as H2.
  pose proof (H pf_StartTime) as H3. pose proof (H pf_StartSince) as H4.
  pose proof (H pf_Requests) as H5. pose proof (H pf_RequestDuration) as H6.
  pose proof (H pf_RequestMethod) as H7. pose proof (H pf_RequestURI) as H8.
  pose proof (H pf_ContentLength) as H9. pose proof (H pf_User) as H10.
  pose proof (H pf_Script) as H11. pose proof (H pf_LastRequestCPU) as H12.
  pose proof (H pf_LastRequestMemory) as H13. cbn in *.
  injection H1 as ->. injection H2 as ->. injection H3 as ->. injection H4 as ->.
  injection H5 as ->. injection H6 as ->. injection H7 as ->. injection H8 as ->.
  injection H9 as ->. injection H10 as ->. injection H11 as ->.
  injection H12 as ->. injection H13 as ->. reflexivity.
Qed.

(** A member stored in two processes: a field ends up the same in both,
    or is left as it was in both. *)
Lemma store_process_field_both g g' v p q saved saved' :
  proc_field g (fst (store_process_field g' v p saved))
  = proc_field g (fst (store_process_field g' v q saved'))
  \/ (proc_field g (fst (store_process_field g' v p saved)) = proc_field g p
      /\ proc_field g (fst (store_process_field g' v q saved')) = proc_field g q).
Proof.
  unfold store_process_field, store_int, store_string, store_float64.
  destruct g', v; cbn;
    try destruct (strconv.ParseInt lit); try destruct (ParseFloat lit);
    destruct g; cbn; tauto.
Qed.

Lemma store_process_members_both g ms : forall p q saved saved',
  proc_field g (fst (store_process_members ms p saved))
  = proc_field g (fst (store_process_members ms q saved'))
  \/ (proc_field g (fst (store_process_members ms p saved)) = proc_field g p
      /\ proc_field g (fst (store_process_members ms q saved')) = proc_field g q).
Proof.
  induction ms as [|[[key raw] v] ms IH]; intros p q saved saved'.
  - right. now split.
  - simpl. destruct (find_field process_fields key) as [g'|]; [|apply IH].
    pose proof (store_process_field_both g g' v p q saved saved') as Hstep.
    destruct (store_process_field g' v p saved) as [p1 sv1].
    destruct (store_process_field g' v q saved') as [q1 sv2].
    simpl in Hstep.
    destruct (IH p1 q1 sv1 sv2) as [Heq|[Hp Hq]]; [now left|].
    destruct Hstep as [Heq1|[Hp1 Hq1]].
    + left. congruence.
    + right. split; congruence.
Qed.

(** Storing a value in a process a second time changes nothing. *)
Lemma store_process_twice (v : json) (old : PoolProcess) (sv sv' : option error) :
  fst (store_process v (fst (store_process v old sv)) sv')
  = fst (store_process v old sv).
Proof.
  destruct v; try reflexivity. cbn [store_process].
  apply proc_ext. intros g.
  destruct (store_process_members_both g members
              (fst (store_process_members members old sv)) old sv' sv)
    as [Heq|[Hp _]]; [exact Heq|exact Hp].
Qed.

(** A member stored in two pools: whether decoding stops there depends
    on the member only; a field other than the process list ends up the
    same in both pools, or is left as it was in both. *)
Lemma store_pool_field_both f g raw v p q h hq saved saved' ha hb :
  PoolField_eqb f F_Processes = false ->
  snd (store_pool_field g raw v p h saved)
  = snd (store_pool_field g raw v q hq saved')
  /\ (field f ha (fst (fst (fst (store_pool_field g raw v p h saved))))
      = field f hb (fst (fst (fst (store_pool_field g raw v q hq saved'))))
      \/ (field f ha (fst (fst (fst (store_pool_field g raw v p h saved))))
          = field f ha p
          /\ field f hb (fst (fst (fst (store_pool_field g raw v q hq saved'))))
             = field f hb q)).
Proof.
  intros Hf. unfold store_pool_field, store_int, store_string.
  destruct g.
  15: { destruct (store_processes v (Processes p) h saved) as [[s1 h1] sv1].
        destruct (store_processes v (Processes q) hq saved') as [[s2 h2] sv2].
        cbn. split; [reflexivity|]. right.
        destruct f; try discriminate Hf; now split. }
  3: { destruct (timestamp_UnmarshalJSON raw); cbn; (split; [reflexivity|]);
       destruct f; try discriminate Hf; cbn; tauto. }
  all: destruct v; cbn; try destruct (strconv.ParseInt lit); cbn;
    (split; [reflexivity|]); destruct f; try discriminate Hf; cbn; tauto.
Qed.

Lemma store_pool_members_both f ms : forall p q h hq saved saved' ha hb,
  PoolField_eqb f F_Processes = false ->
  snd (store_pool_members ms p h saved) = snd (store_pool_members ms q hq saved')
  /\ (field f ha (fst (fst (fst (store_pool_members ms p h saved))))
      = field f hb (fst (fst (fst (store_pool_members ms q hq saved'))))
      \/ (field f ha (fst (fst (fst (store_pool_members ms p h saved))))
          = field f ha p
          /\ field f hb (fst (fst (fst (store_pool_members ms q hq saved'))))
             = field f hb q)).
Proof.
  induction ms as [|[[key raw] v] ms IH]; intros p q h hq saved saved' ha hb Hf.
  - split; [reflexivity|]. right. now split.
  - simpl. destruct (find_field pool_fields key) as [g|]; [|now apply IH].
    destruct (store_pool_field_both f g raw v p q h hq saved saved' ha hb Hf)
      as [Hstop Hstep].
    destruct (store_pool_field g raw v p h saved) as [[[p1 h1] sv1] st1].
    destruct (store_pool_field g raw v q hq saved') as [[[q1 h2] sv2] st2].
    cbn in Hstop, Hstep. subst st2.
    destruct st1 as [e|]; [split; [reflexivity|exact Hstep]|].
    destruct (IH p1 q1 h1 h2 sv1 sv2 ha hb Hf) as [Hstop' Hrest].
    split; [exact Hstop'|].
    destruct Hrest as [Heq|[Hp Hq]]; [now left|].
    destruct Hstep as [Heq1|[Hp1 Hq1]].
    + left. congruence.
    + right. split; congruence.
Qed.

(** The error [json.Unmarshal] returns depends on the body only. *)
Lemma store_pool_field_error g raw v p q h hq saved :
  snd (fst (store_pool_field g raw v p h saved))
  = snd (fst (store_pool_field g raw v q hq saved)).
Proof.
  unfold store_pool_field, store_int, store_string.
  destruct g.
  15: { pose proof (store_processes_error v (Processes p) (Processes q) h hq saved) as He.
        destruct (store_processes v (Processes p) h saved) as [[s1 h1] sv1].
        destruct (store_processes v (Processes q) hq saved) as [[s2 h2] sv2].
        exact He. }
  3: { now destruct (timestamp_UnmarshalJSON raw). }
  all: destruct v; cbn; try destruct (strconv.ParseInt lit); reflexivity.
Qed.

Lemma store_pool_members_error ms : forall p q h hq saved,
  snd (fst (store_pool_members ms p h saved))
  = snd (fst (store_pool_members ms q hq saved))
  /\ snd (store_pool_members ms p h saved) = snd (store_pool_members ms q hq saved).
Proof.
  induction ms as [|[[key raw] v] ms IH]; intros p q h hq saved; [now split|].
  simpl. destruct (find_field pool_fields key) as [g|]; [|apply IH].
  pose proof (store_pool_field_error g raw v p q h hq saved) as Hsv.
  destruct (store_pool_field_both F_Name g raw v p q h hq saved saved [] [] eq_refl)
    as [Hstop _].
  destruct (store_pool_field g raw v p h saved) as [[[p1 h1] sv1] st1].
  destruct (store_pool_field g raw v q hq saved) as [[[q1 h2] sv2] st2].
  cbn in Hsv, Hstop. subst sv2 st2.
  destruct st1; [now split|apply IH].
Qed.

Lemma Unmarshal_error data p q h hq :
  snd (Unmarshal data p h) = snd (Unmarshal data q hq).
Proof.
  unfold Unmarshal. destruct (json_parse data) as [[]|]; try reflexivity.
  destruct (store_pool_members_error members p q h hq None) as [Hsv Hstop].
  destruct (store_pool_members members p h None) as [[[p1 h1] sv1] st1].
  destruct (store_pool_members members q hq None) as [[[q1 h2] sv2] st2].
  cbn in Hsv, Hstop. subst sv2 st2. now destruct st1.
Qed.

(** Decoding a body into what decoding it has left: a field other than
    the process list is as the first decoding left it. *)
Lemma Unmarshal_twice_field f data p h p1 h1 e1 p2 h2 e2 :
  PoolField_eqb f F_Processes = false ->
  Unmarshal data p h = (p1, h1, e1) ->
  Unmarshal data p1 h1 = (p2, h2, e2) ->
  field f h2 p2 = field f h1 p1.
Proof.
  intros Hf. unfold Unmarshal. destruct (json_parse data) as [[]|];
    try (intros [= <- <- <-] [= <- <- <-]; reflexivity).
  destruct (store_pool_members_both f members p1 p h1 h None None h2 h1 Hf)
    as [_ Hboth].
  destruct (store_pool_members members p h None) as [[[pa ha] sva] sta].
  intros Ha. assert (pa = p1) as -> by (destruct sta; now injection Ha).
  destruct (store_pool_members members p1 h1 None) as [[[pb hb] svb] stb].
  intros Hb. assert (pb = p2) as -> by (destruct stb; now injection Hb).
  cbn in Hboth. destruct Hboth as [Heq|[Hkeep _]]; [exact Heq|].
  rewrite Hkeep. destruct f; try discriminate Hf; reflexivity.
Qed.

(** X23. The same body decoded twice.  When a body with one member for
    the process list, an array, has been decoded into a pool without
    being stopped by the start time, decoding the same body again into
    the pool as it now is returns the same error and leaves the snapshot
    as the first decoding left it: every field, and the process list
    element by element. *)
Theorem Unmarshal_twice (data : string)
    (before after : list (string * string * json)) (key raw : string)
    (vs : list json) (p : Pool) (h : heap)
    (p1 : Pool) (h1 : heap) (e1 : option error)
    (p2 : Pool) (h2 : heap) (e2 : option error) :
  json_parse data = Some (JObject (before ++ (key, raw, JArray vs) :: after)) ->
  find_field pool_fields key = Some F_Processes ->
  ascii_key key = true ->
  mentions F_Processes before = false ->
  mentions F_Processes after = false ->
  valid_slice h (Processes p) ->
  Unmarshal data p h = (p1, h1, e1) ->
  aborted e1 = false ->
  Unmarshal data p1 h1 = (p2, h2, e2) ->
  e2 = e1 /\ snapshot h2 p2 = snapshot h1 p1.
Proof.
  intros Hparse Hkey _ Hbefore Hafter Hwf HU1 Hab HU2.
  assert (e2 = e1) as ->.
  { pose proof (Unmarshal_error data p1 p h1 h) as He.
    now rewrite HU1, HU2 in He. }
  split; [reflexivity|].
  destruct (Unmarshal_processes_step data before after key raw vs p h p1 h1 e1
              Hparse Hkey Hbefore Hafter HU1 Hab) as (sa & sb & E1).
  destruct (Unmarshal_processes_step data before after key raw vs p1 h1 p2 h2 e1
              Hparse Hkey Hbefore Hafter HU2 Hab) as (sc & sd & E2).
  destruct (store_processes_array vs _ _ _ _ _ _ Hwf E1) as (A1 & A2 & _ & _ & A5).
  destruct (store_processes_array vs _ _ _ _ _ _ A5 E2) as (B1 & B2 & _).
  assert (elems h2 (Processes p2) = elems h1 (Processes p1)) as Helems.
  { apply list_eq. intros j.
    destruct (Nat.lt_ge_cases j (length vs)) as [Hj|Hj].
    - destruct (lookup_lt_is_Some_2 vs j Hj) as [v Hv].
      rewrite (B2 j v Hv), (A2 j v Hv). f_equal.
      pose proof (A2 j v Hv) as Hcell. unfold elems in Hcell.
      apply lookup_take_Some in Hcell as [Hcell _]. rewrite Hcell. cbn [default].
      apply store_process_twice.
    - rewrite !lookup_ge_None_2 by lia. reflexivity. }
  assert (forall f, PoolField_eqb f F_Processes = false ->
                    field f h2 p2 = field f h1 p1) as Hf
    by (intros f Hne; eapply Unmarshal_twice_field; eassumption).
  pose proof (Hf F_Name eq_refl) as H1.
  pose proof (Hf F_ProcessManager eq_refl) as H2.
  pose proof (Hf F_StartTime eq_refl) as H3.
  pose proof (Hf F_StartSince eq_refl) as H4.
  pose proof (Hf F_AcceptedConnections eq_refl) as H5.
  pose proof (Hf F_ListenQueue eq_refl) as H6.
  pose proof (Hf F_MaxListenQueue eq_refl) as H7.
  pose proof (Hf F_ListenQueueLength eq_refl) as H8.
  pose proof (Hf F_IdleProcesses eq_refl) as H9.
  pose proof (Hf F_ActiveProcesses eq_refl) as H10.
  pose proof (Hf F_TotalProcesses eq_refl) as H11.
  pose proof (Hf F_MaxActiveProcesses eq_refl) as H12.
  pose proof (Hf F_MaxChildrenReached eq_refl) as H13.
  pose proof (Hf F_SlowRequests eq_refl) as H14.
  cbn [field] in H1, H2, H3, H4, H5, H6, H7, H8, H9, H10, H11, H12, H13, H14.
  injection H1 as H1. injection H2 as H2. injection H3 as H3. injection H4 as H4.
  injection H5 as H5. injection H6 as H6. injection H7 as H7. injection H8 as H8.
  injection H9 as H9. injection H10 as H10. injection H11 as H11.
  injection H12 as H12. injection H13 as H13. injection H14 as H14.
  unfold snapshot. rewrite Helems. f_equal; assumption.
Qed.

Lemma Unmarshal_twice_witness :
  exists (p1 : Pool) (h1 : heap) (e1 : option error)
         (p2 : Pool) (h2 : heap) (e2 : option error),
    Unmarshal scenario_body pool_of_three [three_processes] = (p1, h1, e1)
    /\ Unmarshal scenario_body p1 h1 = (p2, h2, e2)
    /\ e2 = e1 /\ snapshot h2 p2 = snapshot h1 p1.
Proof.
  eexists _, _, _, _, _, _. split; [vm_compute; reflexivity|].
  split; [vm_compute; reflexivity|].
  eapply (Unmarshal_twice scenario_body
            [("pool", json_text "'www'", JString "www");
             ("start time", "1000000000", JNumber "1000000000")]
            []
            "processes"
            (json_text "[{'pid':1,'state':'Idle'},{'pid':2,'state':'Running'},{'pid':3,'state':'Zombie'}]")
            (map element_of scenario_elements)
            pool_of_three [three_processes]).
  - vm_compute. reflexivity.
  - reflexivity.
  - reflexivity.
  - reflexivity.
  - reflexivity.
  - unfold valid_slice. vm_compute. lia.
  - vm_compute. reflexivity.
  - reflexivity.
  - vm_compute. reflexivity.
Defined.

(** ** The step that fails decides what a scrape records *)

(** The error [json.Unmarshal] returns is the error of the body, whatever
    the pool and the heap it decodes into. *)
Lemma Unmarshal_decode_error data p h :
  snd (Unmarshal data p h) = decode_error data.
Proof. unfold decode_error. apply Unmarshal_error. Qed.

Lemma scrape_error_fetch_failed dial address e evs closes :
  fetch dial address = (inl e, evs, closes) ->
  scrape_error dial address = Some e.
Proof. unfold scrape_error. now intros ->. Qed.

Lemma scrape_error_fetched dial address content evs closes p h p1 h1 err :
  fetch dial address = (inr content, evs, closes) ->
  Unmarshal content p h = (p1, h1, err) ->
  scrape_error dial address = err.
Proof.
  unfold scrape_error. intros -> HU. simpl.
  rewrite <- (Unmarshal_decode_error content p h). now rewrite HU.
Qed.

(** With a logger installed a scrape returns the error its steps fail
    with, the logger stays installed, and that error is recorded on the
    pool. *)
Lemma Pool_Update_steps dial p st calls :
  log st = Some calls ->
  exists p' st' logged,
    Pool_Update dial p st = Some ((p', scrape_error dial (Address p)), st')
    /\ log st' = Some (calls ++ logged)
    /\ recorded p p' (scrape_error dial (Address p)).
Proof.
  intros Hlog.
  destruct (Pool_Update_cases dial p st calls Hlog)
    as [(e & evs & closes & Hf & Hrun)
       |(content & evs & closes & p1 & h1 & err & Hf & HU & Hrun)].
  - rewrite (scrape_error_fetch_failed _ _ _ _ _ Hf).
    eexists _, _, _. split; [exact Hrun|]. split; [reflexivity|].
    repeat split.
  - rewrite (scrape_error_fetched _ _ _ _ _ _ _ _ _ _ Hf HU).
    eexists _, _, _. split; [exact Hrun|]. split; [reflexivity|].
    destruct (Unmarshal_meta _ _ _ _ _ _ HU) as (HA & HE & HF).
    simpl in HA, HE, HF. destruct err as [e|]; repeat split; simpl; congruence.
Qed.

(** Whatever a scrape returns is the error its steps fail with. *)
Lemma Pool_Update_returns_scrape_error dial p st p' err st' :
  Pool_Update dial p st = Some ((p', err), st') ->
  err = scrape_error dial (Address p).
Proof.
  intros Hrun. destruct (log st) as [calls|] eqn:Hlog.
  - destruct (Pool_Update_steps dial p st calls Hlog)
      as (q & st1 & logged & Hrun' & _).
    rewrite Hrun in Hrun'. now injection Hrun' as _ -> _.
  - rewrite (Pool_Update_nil_logger dial p st Hlog) in Hrun. discriminate Hrun.
Qed.

(** C8. With a logger installed, [PoolManager.Update] returns, and it
    returns the nil error, for every set of pools (the empty one too),
    every way the dialers answer and every order in which the goroutines
    run.  Each entry of the manager is afterwards what the scrape of
    that pool left, and what it holds is fixed by the steps of that
    scrape: the last error is the error of the step that failed, with
    the counter incremented, and it is nil, with the counter unchanged,
    when no step failed. *)
Theorem PoolManager_Update_returns_nil dials sched elapsed pm st calls :
  log st = Some calls ->
  schedule (length (Pools pm)) sched ->
  exists pm' st',
    PoolManager_Update dials sched elapsed pm st = Some ((pm', None), st')
    /\ length (Pools pm') = length (Pools pm)
    /\ forall (idx : nat) (p : Pool), Pools pm !! idx = Some p ->
         exists p' err stb sta,
           Pools pm' !! idx = Some p'
           /\ Pool_Update (dials idx) p stb = Some ((p', err), sta)
           /\ recorded p p' err
           /\ err = scrape_error (dials idx) (Address p)
           /\ Address p' = Address p
           /\ ScrapeError p' = scrape_error (dials idx) (Address p)
           /\ ScrapeFailures p'
              = match scrape_error (dials idx) (Address p) with
                | Some _ => Int64.wrap (ScrapeFailures p + 1)
                | None => ScrapeFailures p
                end.
Proof.
  intros Hlog Hsched.
  destruct (run_goroutines_spec dials sched (schedule_NoDup _ _ Hsched)
              (Pools pm) st calls Hlog)
    as (pools' & st1 & logged & Hrun & Hlog1 & Hlen & Hall).
  eexists {| Pools := pools' |}, _.
  unfold PoolManager_Update, bind. rewrite Hrun.
  unfold log_call. rewrite Hlog1. unfold ret. split; [reflexivity|].
  split; [exact Hlen|].
  intros idx p Hp. destruct (Hall idx p Hp) as [_ Hin].
  destruct Hin as (p' & err & stb & sta & Hp' & Hupd & Hrec).
  { eapply schedule_elem; [exact Hsched|]. now apply lookup_lt_Some in Hp. }
  pose proof (Pool_Update_returns_scrape_error _ _ _ _ _ _ Hupd) as Herr.
  exists p', err, stb, sta.
  split; [exact Hp'|]. split; [exact Hupd|]. split; [exact Hrec|].
  split; [exact Herr|].
  destruct Hrec as (HA & HE & HF). rewrite <- Herr. now repeat split.
Qed.

Lemma PoolManager_Update_returns_nil_witness :
  exists pm' st',
    PoolManager_Update first_refused [1; 0]%nat 5 two_pools fresh_state
    = Some ((pm', None), st')
    /\ length (Pools pm') = length (Pools two_pools)
    /\ forall (idx : nat) (p : Pool), Pools two_pools !! idx = Some p ->
         exists p' err stb sta,
           Pools pm' !! idx = Some p'
           /\ Pool_Update (first_refused idx) p stb = Some ((p', err), sta)
           /\ recorded p p' err
           /\ err = scrape_error (first_refused idx) (Address p)
           /\ Address p' = Address p
           /\ ScrapeError p' = scrape_error (first_refused idx) (Address p)
           /\ ScrapeFailures p'
              = match scrape_error (first_refused idx) (Address p) with
                | Some _ => Int64.wrap (ScrapeFailures p + 1)
                | None => ScrapeFailures p
                end.
Proof.
  apply (PoolManager_Update_returns_nil first_refused [1; 0]%nat 5 two_pools
           fresh_state []).
  - reflexivity.
  - unfold schedule. simpl. apply perm_swap.
Defined.

(** The steps of the two scrapes of the witness: the first pool is
    refused by the dialer, no step of the second fails. *)
Example scrape_error_two_pools :
  scrape_error (first_refused 0) "tcp://127.0.0.1:1"
  = Some (errorString "dial tcp 127.0.0.1:1: connect: connection refused")
  /\ scrape_error (first_refused 1) "tcp://127.0.0.1:9000" = None.
Proof. split; vm_compute; reflexivity. Qed.

(** C4. Along every sequence of scrape attempts on a pool (with a logger
    installed and room left in the counter for one failure per attempt)
    each attempt returns.  An attempt one of whose steps ([url.Parse],
    [DialTimeout], [Get], [ReadAll], [json.Unmarshal]) fails returns the
    error of that step, has it recorded as the last error and leaves the
    counter exactly one higher; an attempt none of whose steps fails
    returns nil, leaves the last error nil and the counter as it was; so
    the counter never goes down and is never reset. *)
Theorem failures_only_increase dials : forall p st calls,
  log st = Some calls ->
  Int64.min_int64 <= ScrapeFailures p ->
  ScrapeFailures p + Z.of_nat (length dials) <= Int64.max_int64 ->
  exists hist st',
    history dials p st = Some (hist, st')
    /\ length hist = length dials
    /\ follows_steps (Address p) (ScrapeFailures p) dials hist
    /\ counted (ScrapeFailures p) hist
    /\ non_decreasing (ScrapeFailures p) hist.
Proof.
  induction dials as [|dial dials IH]; intros p st calls Hlog Hmin Hmax.
  - exists [], st. repeat split.
  - simpl length in Hmax.
    destruct (Pool_Update_steps dial p st calls Hlog)
      as (p' & st1 & logged & Hrun & Hlog1 & HA & HE & HF).
    set (err := scrape_error dial (Address p)) in *.
    assert (ScrapeFailures p'
            = ScrapeFailures p + match err with Some _ => 1 | None => 0 end) as HF'.
    { rewrite HF. destruct err; [apply wrap_succ|]; lia. }
    destruct (IH p' st1 _ Hlog1) as (hist & st' & Hhist & Hlen & Hs & Hc & Hn).
    { destruct err; lia. }
    { destruct err; lia. }
    rewrite HA in Hs.
    exists ((p', err) :: hist), st'. simpl. unfold bind. rewrite Hrun, Hhist.
    split; [reflexivity|]. split; [now rewrite Hlen|].
    split; [|split].
    + fold err. split; [reflexivity|]. split; [exact HA|]. split; [exact HE|].
      split; [exact HF'|exact Hs].
    + split; [exact HF'|]. split; [|exact Hc]. now destruct err.
    + split; [|exact Hn]. destruct err; lia.
Qed.

Lemma failures_only_increase_witness :
  exists hist st',
    history [refuse; serve scenario_body; serve body_with_bad_start_time; refuse]
      pool_of_three state_of_three = Some (hist, st')
    /\ length hist
       = length [refuse; serve scenario_body; serve body_with_bad_start_time; refuse]
    /\ follows_steps (Address pool_of_three) (ScrapeFailures pool_of_three)
         [refuse; serve scenario_body; serve body_with_bad_start_time; refuse] hist
    /\ counted (ScrapeFailures pool_of_three) hist
    /\ non_decreasing (ScrapeFailures pool_of_three) hist.
Proof.
  apply (failures_only_increase
           [refuse; serve scenario_body; serve body_with_bad_start_time; refuse]
           pool_of_three state_of_three []).
  - reflexivity.
  - unfold Int64.min_int64. simpl. lia.
  - unfold Int64.max_int64. simpl. lia.
Defined.

(** The steps of the four attempts of the witness: the connection is
    refused, nothing fails, the decoder refuses the start time, the
    connection is refused. *)
Example scrape_error_four_attempts :
  map (fun dial => scrape_error dial (Address pool_of_three))
    [refuse; serve scenario_body; serve body_with_bad_start_time; refuse]
  = [Some (errorString "dial tcp 127.0.0.1:9000: connect: connection refused");
     None;
     scrape_error (serve body_with_bad_start_time) (Address pool_of_three);
     Some (errorString "dial tcp 127.0.0.1:9000: connect: connection refused")]
  /\ scrape_error (serve body_with_bad_start_time) (Address pool_of_three) <> None.
Proof. split; [vm_compute; reflexivity|]. vm_compute. discriminate. Qed.
